(** * nnstreamer-edge: metadata store, event object and edge data object

    A shallow embedding of [src/libnnstreamer-edge/nnstreamer-edge-common.c].

    - Heap objects reached through handles (edge data, events, raw payload
      buffers) live in an explicit heap, a finite map from addresses to
      cells; [free] removes a cell, and touching an address that has no
      cell is undefined behaviour.
    - The metadata store is owned by exactly one container and nobody keeps
      a pointer into it, so its singly linked list is a Rocq list of nodes
      kept by value; its allocations still ask the allocator.
    - [malloc] may refuse: the allocator's answers are an oracle carried by
      the world.
    - Every function runs in the monad [M]: state passing over the world,
      with two abnormal outcomes, [Undefined] (the C program has no defined
      behaviour) and [Timeout] (a loop ran out of fuel).
    - An [unsigned int] is a [Z] with its wrap-around at 2^32 written out.
      A [size_t] is the size of something that sits in memory; it is kept
      as a natural number.
    - The functions of the C library the file calls on strings ([strlen],
      [strcasecmp], [strchr], [strtoll], and [vasprintf] with the directives
      [%s] and [%d]) are written out as functions on lists of bytes. *)

From Stdlib Require Import ZArith Lia Strings.Byte Strings.String.
From stdpp Require Import base option list gmap.

#[local] Open Scope Z_scope.

(** ** Bytes and C strings *)

#[global] Instance byte_eq_dec : EqDecision byte := Byte.byte_eq_dec.

Definition NUL : byte := x00.

(** The bytes of a string literal, to write test inputs. *)
Definition bytes (s : string) : list byte := list_byte_of_string s.

(** A [const char *] argument is the list of bytes found from the pointer
    on; the string ends at the first NUL, or at the end of the list (where
    its terminator stands). *)
Fixpoint strlen (s : list byte) : nat :=
  match s with
  | [] => 0%nat
  | c :: s' => if decide (c = NUL) then 0%nat else S (strlen s')
  end.

(** The characters of the C string [s], terminator left out. *)
Definition c_str (s : list byte) : list byte := take (strlen s) s.

(** [tolower] of the C locale. *)
Definition tolower (c : byte) : byte :=
  let n := Byte.to_N c in
  if ((65 <=? n) && (n <=? 90))%N then default c (Byte.of_N (n + 32)) else c.

(** [strcasecmp]: the difference of the first pair of bytes that differ
    after [tolower], 0 when both strings end together. *)
Fixpoint strcasecmp (s1 s2 : list byte) : Z :=
  let c1 := tolower (hd NUL s1) in
  let c2 := tolower (hd NUL s2) in
  if decide (c1 = c2) then
    match s1 with
    | [] => 0
    | c :: s1' => if decide (c = NUL) then 0 else strcasecmp s1' (tl s2)
    end
  else Z.of_N (Byte.to_N c1) - Z.of_N (Byte.to_N c2).

(** [strlen] over raw memory: [mem] is all there is, and a scan that
    finds no NUL runs off its end. *)
Fixpoint mem_strlen (mem : list byte) : option nat :=
  match mem with
  | [] => None
  | c :: mem' => if decide (c = NUL) then Some 0%nat else S <$> mem_strlen mem'
  end.

(** ** Unsigned int *)

Definition UINT_MODULUS : Z := 2 ^ 32.

(** [x++] on an [unsigned int]. *)
Definition uint_incr (x : Z) : Z := (x + 1) mod UINT_MODULUS.

Definition byte_of_Z (z : Z) : byte :=
  default x00 (Byte.of_N (Z.to_N (z mod 256))).

Definition Z_of_byte (b : byte) : Z := Z.of_N (Byte.to_N b).

(** Writing [x] through a pointer to unsigned int: the four bytes of [x],
    lowest first (the native byte order is taken to be the little-endian
    one, the one of the spec's example blob). *)
Definition uint_store (x : Z) : list byte :=
  [byte_of_Z x; byte_of_Z (x / 2 ^ 8); byte_of_Z (x / 2 ^ 16); byte_of_Z (x / 2 ^ 24)].

(** Reading an unsigned int at the start of [mem]: [None] when [mem] is
    shorter than four bytes. *)
Definition uint_load (mem : list byte) : option Z :=
  match mem with
  | b0 :: b1 :: b2 :: b3 :: _ =>
      Some (Z_of_byte b0 + 2 ^ 8 * Z_of_byte b1 + 2 ^ 16 * Z_of_byte b2
            + 2 ^ 24 * Z_of_byte b3)
  | _ => None
  end.

(** ** What the header declares

    [nnstreamer-edge-common.h] and [nnstreamer-edge.h] are not part of the
    sources at hand. The error codes are an enumeration; the constants the
    code compares against are parameters. *)

Inductive nns_edge_error_e :=
| NNS_EDGE_ERROR_NONE
| NNS_EDGE_ERROR_INVALID_PARAMETER
| NNS_EDGE_ERROR_OUT_OF_MEMORY.

#[global] Instance nns_edge_error_e_eq_dec : EqDecision nns_edge_error_e.
Proof. solve_decision. Defined.

Class edge_header := EdgeHeader {
  NNS_EDGE_MAGIC : Z;
  NNS_EDGE_MAGIC_DEAD : Z;
  NNS_EDGE_DATA_LIMIT : nat;
  NNS_EDGE_EVENT_UNKNOWN : Z;
  NNS_EDGE_EVENT_CAPABILITY : Z;
  NNS_EDGE_EVENT_NEW_DATA_RECEIVED : Z;
}.

(** One header to run the model on concrete inputs. *)
Definition sample_header : edge_header :=
  {| NNS_EDGE_MAGIC := 0xfeedfeed;
     NNS_EDGE_MAGIC_DEAD := 0xdeaddead;
     NNS_EDGE_DATA_LIMIT := 16;
     NNS_EDGE_EVENT_UNKNOWN := 0;
     NNS_EDGE_EVENT_CAPABILITY := 1;
     NNS_EDGE_EVENT_NEW_DATA_RECEIVED := 2 |}.

(** Modelled from the spec: the macro [STR_IS_VALID] of the missing header;
    a string is valid when it is present and not empty. *)
Definition STR_IS_VALID (s : option (list byte)) : bool :=
  match s with
  | Some (c :: _) => bool_decide (c ≠ NUL)
  | _ => false
  end.

(** ** Data model *)

Definition addr := positive.

(** A destructor: the layer's own [nns_edge_free], or a function of the
    caller, known by a number. *)
Inductive nns_edge_data_destroy_cb :=
| cb_nns_edge_free
| cb_user (id : N).

#[global] Instance nns_edge_data_destroy_cb_eq_dec : EqDecision nns_edge_data_destroy_cb.
Proof. solve_decision. Defined.

Record nns_edge_metadata_node_s := MetaNode {
  node_key : list byte;
  node_value : list byte;
}.

Record nns_edge_metadata_s := Metadata {
  meta_list_len : Z;
  meta_list : list nns_edge_metadata_node_s;
}.

Record nns_edge_raw_data_s := RawData {
  raw_data : option addr;
  raw_data_len : N;
  raw_destroy_cb : option nns_edge_data_destroy_cb;
}.

Record nns_edge_data_s := EdgeData {
  ed_magic : Z;
  ed_num : Z;
  ed_data : list nns_edge_raw_data_s;
  ed_metadata : nns_edge_metadata_s;
}.

Record nns_edge_event_s := EdgeEvent {
  ee_magic : Z;
  ee_event : Z;
  ee_data : nns_edge_raw_data_s;
}.

Inductive cell :=
| Bytes (content : list byte)
| DataObj (ed : nns_edge_data_s)
| EventObj (ee : nns_edge_event_s).

(** The world: the heap, the answers the allocator will give to the next
    requests (none left: it grants), and the calls made to destructors of
    the caller. *)
Record world := World {
  heap : gmap addr cell;
  oracle : list bool;
  released : list (N * option addr);
}.

Definition empty_world : world := World ∅ [] [].

(** ** The monad *)

Inductive outcome (A : Type) :=
| Done (a : A) (w : world)
| Undefined
| Timeout.
Arguments Done {A} a w.
Arguments Undefined {A}.
Arguments Timeout {A}.

Definition M (A : Type) : Type := world → outcome A.

Definition ret {A} (a : A) : M A := fun w => Done a w.

Definition bind {A B} (c : M A) (k : A → M B) : M B :=
  fun w => match c w with
           | Done a w' => k a w'
           | Undefined => Undefined
           | Timeout => Timeout
           end.

Definition undefined {A} : M A := fun _ => Undefined.
Definition timeout {A} : M A := fun _ => Timeout.

Notation "'let*' x ':=' c 'in' k" := (bind c (fun x => k))
  (at level 10, x pattern, c at level 100, k at level 200).

(** [*p] for a pointer that may be NULL. *)
Definition deref {A} (p : option A) : M A :=
  match p with
  | Some a => ret a
  | None => undefined
  end.

(** ** The allocator *)

Definition next_answer (o : list bool) : bool * list bool :=
  match o with
  | [] => (true, [])
  | b :: o' => (b, o')
  end.

(** [malloc] of a heap block; [init] is what the caller writes into it
    right away ([memset], [memcpy]). *)
Definition malloc (init : cell) : M (option addr) := fun w =>
  let '(granted, o) := next_answer (oracle w) in
  if granted then
    let p := fresh (dom (heap w)) in
    Done (Some p) (World (<[p := init]> (heap w)) o (released w))
  else Done None (World (heap w) o (released w)).

(** [malloc] or [calloc] of a block this model keeps by value (a string,
    a list node, a serialized blob): only the allocator's answer counts. *)
Definition malloc_value : M bool := fun w =>
  let '(granted, o) := next_answer (oracle w) in
  Done granted (World (heap w) o (released w)).

Definition load (p : addr) : M cell := fun w =>
  match heap w !! p with
  | Some c => Done c w
  | None => Undefined
  end.

Definition store (p : addr) (c : cell) : M unit := fun w =>
  match heap w !! p with
  | Some _ => Done tt (World (<[p := c]> (heap w)) (oracle w) (released w))
  | None => Undefined
  end.

(** [free (p)] of a non-NULL pointer: the block must be live. *)
Definition free (p : addr) : M unit := fun w =>
  match heap w !! p with
  | Some _ => Done tt (World (delete p (heap w)) (oracle w) (released w))
  | None => Undefined
  end.

Definition load_bytes (p : addr) : M (list byte) :=
  let* c := load p in
  match c with
  | Bytes content => ret content
  | _ => undefined
  end.

Definition load_data (p : addr) : M nns_edge_data_s :=
  let* c := load p in
  match c with
  | DataObj ed => ret ed
  | _ => undefined
  end.

Definition load_event (p : addr) : M nns_edge_event_s :=
  let* c := load p in
  match c with
  | EventObj ee => ret ee
  | _ => undefined
  end.

(** [h->magic]: the first field of both kinds of object. *)
Definition load_magic (p : addr) : M Z :=
  let* c := load p in
  match c with
  | DataObj ed => ret (ed_magic ed)
  | EventObj ee => ret (ee_magic ee)
  | Bytes _ => undefined
  end.

(** ** Allocation utilities *)

(** [nns_edge_free]. *)
Definition nns_edge_free (data : option addr) : M unit :=
  match data with
  | Some p => free p
  | None => ret tt
  end.

(** Modelled from the spec: the macro [SAFE_FREE] of the missing header,
    which releases a pointer when it is not NULL. *)
Definition SAFE_FREE (p : option addr) : M unit := nns_edge_free p.

(** [nns_edge_memdup]. *)
Definition nns_edge_memdup (data : option addr) (size : N) : M (option addr) :=
  match data with
  | Some src =>
      if (0 <? size)%N then
        let* mem := malloc (Bytes []) in
        match mem with
        | Some dst =>
            let* content := load_bytes src in
            if (N.to_nat size <=? length content)%nat then
              let* _ := store dst (Bytes (take (N.to_nat size) content)) in
              ret (Some dst)
            else undefined
        | None => ret None
        end
      else ret None
  | None => ret None
  end.

(** [nns_edge_strndup]: [strncpy] stops at the terminator of [str]. *)
Definition nns_edge_strndup (str : option (list byte)) (len : nat)
  : M (option (list byte)) :=
  match str with
  | Some s =>
      let* new_str := malloc_value in
      if new_str then ret (Some (take len (c_str s))) else ret None
  | None => ret None
  end.

(** [nns_edge_strdup]. *)
Definition nns_edge_strdup (str : option (list byte)) : M (option (list byte)) :=
  match str with
  | Some s => nns_edge_strndup str (strlen s)
  | None => ret None
  end.

(** ** Host strings *)

(** [strchr (s, c)] for a character [c] other than the terminator: the
    offset of the first [c] in the string [s], if there is one. *)
Fixpoint strchr (s : list byte) (c : byte) : option nat :=
  match s with
  | [] => None
  | x :: s' =>
      if decide (x = c) then Some 0%nat
      else if decide (x = NUL) then None
      else S <$> strchr s' c
  end.

(** [isspace] of the C locale: the space and the characters from the
    horizontal tab to the carriage return. *)
Definition isspace (c : byte) : bool :=
  let n := Z_of_byte c in (n =? 32) || ((9 <=? n) && (n <=? 13)).

Definition digit_of (c : byte) : option Z :=
  let n := Z_of_byte c in
  if (48 <=? n) && (n <=? 57) then Some (n - 48) else None.

Fixpoint skip_space (s : list byte) : list byte :=
  match s with
  | c :: s' => if isspace c then skip_space s' else s
  | [] => []
  end.

(** The value of the decimal digits at the start of [s], after [acc]. *)
Fixpoint digits_value (s : list byte) (acc : Z) : Z :=
  match s with
  | c :: s' =>
      match digit_of c with
      | Some d => digits_value s' (10 * acc + d)
      | None => acc
      end
  | [] => acc
  end.

Definition LLONG_MAX : Z := 2 ^ 63 - 1.
Definition LLONG_MIN : Z := - 2 ^ 63.

(** [strtoll (s, NULL, 10)]: white space, a sign, digits; the value is
    0 when there is no digit, and is clamped to the range of long long. *)
Definition strtoll (s : list byte) : Z :=
  let s := skip_space s in
  let '(neg, s) :=
    match s with
    | c :: s' =>
        if decide (c = x2d) then (true, s')
        else if decide (c = x2b) then (false, s')
        else (false, s)
    | [] => (false, [])
    end in
  let v := digits_value s 0 in
  if neg then Z.max LLONG_MIN (- v) else Z.min LLONG_MAX v.

(** The cast of a long long to int: the value is reduced modulo 2^32
    into the range of int. *)
Definition int_of_longlong (x : Z) : Z := (x + 2 ^ 31) mod 2 ^ 32 - 2 ^ 31.

Definition digit_byte (d : Z) : byte := byte_of_Z (48 + d).

(** The decimal digits of [n], most significant first, put before [acc];
    a number below 2^[fuel] has at most [fuel] digits. *)
Fixpoint decimal_digits (fuel : nat) (n : Z) (acc : list byte) : list byte :=
  match fuel with
  | O => acc
  | S fuel' =>
      let acc' := digit_byte (n mod 10) :: acc in
      if n / 10 =? 0 then acc' else decimal_digits fuel' (n / 10) acc'
  end.

(** What the directive [%d] writes. *)
Definition decimal (n : Z) : list byte :=
  if n <? 0 then x2d :: decimal_digits (S (Z.to_nat (Z.log2 (- n)))) (- n) []
  else decimal_digits (S (Z.to_nat (Z.log2 n))) n [].

(** The variable arguments of a [printf]-like function. *)
Inductive printf_arg :=
| arg_s (s : option (list byte))
| arg_d (n : Z).

(** What [vasprintf] writes for a format made of plain characters and of
    the directives [%s] and [%d], the two this file uses; [None] where the
    call has no defined behaviour (a directive without its argument or with
    one of the other type, a NULL string) or is outside of this model (any
    other directive). *)
Fixpoint format_output (format : list byte) (args : list printf_arg)
  : option (list byte) :=
  match format with
  | [] => Some []
  | c :: format' =>
      if decide (c = NUL) then Some []
      else if decide (c = x25) then
        match format' with
        | d :: format'' =>
            if decide (d = x73) then
              match args with
              | arg_s (Some s) :: args' => (c_str s ++.) <$> format_output format'' args'
              | _ => None
              end
            else if decide (d = x64) then
              match args with
              | arg_d n :: args' => (decimal n ++.) <$> format_output format'' args'
              | _ => None
              end
            else None
        | [] => None
        end
      else (c ::.) <$> format_output format' args
  end.

(** [nns_edge_strdup_printf]: [vasprintf] allocates the string it
    writes, and answers a negative length when it cannot. *)
Definition nns_edge_strdup_printf (format : option (list byte)) (args : list printf_arg)
  : M (option (list byte)) :=
  let* f := deref format in
  let* out := deref (format_output f args) in
  let* new_str := malloc_value in
  if new_str then ret (Some out) else ret None.

(** [nns_edge_get_host_string]. *)
Definition nns_edge_get_host_string (host : option (list byte)) (port : Z)
  : M (option (list byte)) :=
  nns_edge_strdup_printf (Some (bytes "%s:%d")) [arg_s host; arg_d port].

(** [nns_edge_parse_host_string]; [host] and [port] tell whether the out
    pointers are not NULL, and what is stored through them comes back:
    nothing when the string has no colon. *)
Definition nns_edge_parse_host_string (host_str : option (list byte)) (host port : bool)
  : M (option (option (list byte) * Z)) :=
  let* s := deref host_str in
  match strchr s x3a with
  | Some p =>
      if negb host then undefined
      else
        let* h := nns_edge_strndup host_str p in
        if negb port then undefined
        else ret (Some (h, int_of_longlong (strtoll (drop (p + 1) s))))
  | None => ret None
  end.

(** ** Metadata store *)

(** The walk of [nns_edge_metadata_find] down the list: the place of the
    first node whose key compares equal to [key], case ignored. *)
Fixpoint find_node (node : list nns_edge_metadata_node_s) (key : list byte)
  : option nat :=
  match node with
  | [] => None
  | n :: next =>
      if strcasecmp key (node_key n) =? 0 then Some 0%nat
      else S <$> find_node next key
  end.

(** [nns_edge_metadata_find]; the node found is named by its place in the
    list. *)
Definition nns_edge_metadata_find (meta : option nns_edge_metadata_s)
    (key : option (list byte)) : option nat :=
  match meta with
  | None => None
  | Some m =>
      if negb (STR_IS_VALID key) then None
      else find_node (meta_list m) (default [] key)
  end.

(** [nns_edge_metadata_init]. *)
Definition nns_edge_metadata_init (meta : option nns_edge_metadata_s)
  : nns_edge_error_e * option nns_edge_metadata_s :=
  match meta with
  | None => (NNS_EDGE_ERROR_INVALID_PARAMETER, None)
  | Some _ => (NNS_EDGE_ERROR_NONE, Some (Metadata 0 []))
  end.

(** [nns_edge_metadata_free]: every node, key and value is released, which
    leaves nothing behind in a list kept by value. *)
Definition nns_edge_metadata_free (meta : option nns_edge_metadata_s)
  : nns_edge_error_e * option nns_edge_metadata_s :=
  match meta with
  | None => (NNS_EDGE_ERROR_INVALID_PARAMETER, None)
  | Some _ => (NNS_EDGE_ERROR_NONE, Some (Metadata 0 []))
  end.

(** [node->value = val] for the node at place [i]. *)
Definition set_node_value (i : nat) (val : list byte)
    (l : list nns_edge_metadata_node_s) : list nns_edge_metadata_node_s :=
  alter (fun n => MetaNode (node_key n) val) i l.

(** [nns_edge_metadata_set]. *)
Definition nns_edge_metadata_set (meta : option nns_edge_metadata_s)
    (key value : option (list byte))
  : M (nns_edge_error_e * option nns_edge_metadata_s) :=
  match meta with
  | None => ret (NNS_EDGE_ERROR_INVALID_PARAMETER, meta)
  | Some m =>
      if negb (STR_IS_VALID key) then ret (NNS_EDGE_ERROR_INVALID_PARAMETER, meta)
      else if negb (STR_IS_VALID value) then ret (NNS_EDGE_ERROR_INVALID_PARAMETER, meta)
      else
        match nns_edge_metadata_find meta key with
        | Some i =>
            (* Replace old value if key exists in the list. *)
            let* val := nns_edge_strdup value in
            match val with
            | None => ret (NNS_EDGE_ERROR_OUT_OF_MEMORY, meta)
            | Some v =>
                ret (NNS_EDGE_ERROR_NONE,
                     Some (Metadata (meta_list_len m) (set_node_value i v (meta_list m))))
            end
        | None =>
            let* node := malloc_value in
            if negb node then ret (NNS_EDGE_ERROR_OUT_OF_MEMORY, meta)
            else
              let* k := nns_edge_strdup key in
              let* v := nns_edge_strdup value in
              match k, v with
              | Some k', Some v' =>
                  (* Prepend new node to the start of the list. *)
                  ret (NNS_EDGE_ERROR_NONE,
                       Some (Metadata (uint_incr (meta_list_len m))
                                      (MetaNode k' v' :: meta_list m)))
              | _, _ => ret (NNS_EDGE_ERROR_OUT_OF_MEMORY, meta)
              end
        end
  end.

(** [nns_edge_metadata_get]; [value] tells whether the out pointer is not
    NULL, and what is stored through it comes back with the code. *)
Definition nns_edge_metadata_get (meta : option nns_edge_metadata_s)
    (key : option (list byte)) (value : bool)
  : M (nns_edge_error_e * option (list byte)) :=
  if negb value then ret (NNS_EDGE_ERROR_INVALID_PARAMETER, None)
  else
    match nns_edge_metadata_find meta key with
    | Some i =>
        let* m := deref meta in
        let* node := deref (meta_list m !! i) in
        let* v := nns_edge_strdup (Some (node_value node)) in
        ret (match v with
             | Some _ => NNS_EDGE_ERROR_NONE
             | None => NNS_EDGE_ERROR_OUT_OF_MEMORY
             end, v)
    | None => ret (NNS_EDGE_ERROR_INVALID_PARAMETER, None)
    end.

(** The loop of [nns_edge_metadata_copy] over the nodes of [src]. *)
Fixpoint metadata_copy_loop (node : list nns_edge_metadata_node_s)
    (tmp : option nns_edge_metadata_s)
  : M (nns_edge_error_e * option nns_edge_metadata_s) :=
  match node with
  | [] => ret (NNS_EDGE_ERROR_NONE, tmp)
  | n :: next =>
      let* (r, tmp') :=
        nns_edge_metadata_set tmp (Some (node_key n)) (Some (node_value n)) in
      if decide (r ≠ NNS_EDGE_ERROR_NONE) then
        ret (r, snd (nns_edge_metadata_free tmp'))
      else metadata_copy_loop next tmp'
  end.

(** [nns_edge_metadata_copy]; the result is what [dest] holds afterwards. *)
Definition nns_edge_metadata_copy (dest src : option nns_edge_metadata_s)
  : M (nns_edge_error_e * option nns_edge_metadata_s) :=
  match dest, src with
  | Some _, Some s =>
      let tmp := snd (nns_edge_metadata_init (Some (Metadata 0 []))) in
      let* (r, tmp') := metadata_copy_loop (meta_list s) tmp in
      if decide (r ≠ NNS_EDGE_ERROR_NONE) then ret (r, dest)
      else
        (* Replace dest when new metadata is successfully copied. *)
        let _ := nns_edge_metadata_free dest in
        ret (NNS_EDGE_ERROR_NONE, tmp')
  | _, _ => ret (NNS_EDGE_ERROR_INVALID_PARAMETER, dest)
  end.

(** The first loop of [nns_edge_metadata_serialize]: the size of the blob. *)
Fixpoint serialize_total (node : list nns_edge_metadata_node_s) (total : nat) : nat :=
  match node with
  | [] => total
  | n :: next =>
      serialize_total next (total + (strlen (node_key n) + strlen (node_value n) + 2))
  end.

(** The second loop: each key and value, each with its terminator. *)
Fixpoint serialize_pairs (node : list nns_edge_metadata_node_s) : list byte :=
  match node with
  | [] => []
  | n :: next =>
      take (strlen (node_key n)) (node_key n) ++ [NUL]
      ++ take (strlen (node_value n)) (node_value n) ++ [NUL]
      ++ serialize_pairs next
  end.

(** [nns_edge_metadata_serialize]; [data] and [data_len] tell whether the
    out pointers are not NULL, the blob and its size come back. *)
Definition nns_edge_metadata_serialize (meta : option nns_edge_metadata_s)
    (data data_len : bool)
  : M (nns_edge_error_e * option (list byte) * nat) :=
  match meta with
  | None => ret (NNS_EDGE_ERROR_INVALID_PARAMETER, None, 0%nat)
  | Some m =>
      if negb data || negb data_len then
        ret (NNS_EDGE_ERROR_INVALID_PARAMETER, None, 0%nat)
      else if meta_list_len m =? 0 then ret (NNS_EDGE_ERROR_NONE, None, 0%nat)
      else
        let total := serialize_total (meta_list m) 4 in
        let* serialized := malloc_value in
        if negb serialized then ret (NNS_EDGE_ERROR_OUT_OF_MEMORY, None, 0%nat)
        else
          (* length + list of key-value pair *)
          ret (NNS_EDGE_ERROR_NONE,
               Some (uint_store (meta_list_len m) ++ serialize_pairs (meta_list m)),
               total)
  end.

(** The loop of [nns_edge_metadata_deserialize]. [data] is the memory the
    pointer gives access to: a scan that leaves it is undefined. *)
Fixpoint deserialize_loop (fuel : nat) (data : list byte) (data_len : nat)
    (total : Z) (cur : nat) (meta : option nns_edge_metadata_s)
  : M (nns_edge_error_e * option nns_edge_metadata_s) :=
  let* m := deref meta in
  if (cur <? data_len)%nat || (meta_list_len m <? total) then
    match fuel with
    | O => timeout
    | S fuel' =>
        let key := drop cur data in
        let* key_len := deref (mem_strlen key) in
        let cur := (cur + (key_len + 1))%nat in
        let value := drop cur data in
        let* value_len := deref (mem_strlen value) in
        let cur := (cur + (value_len + 1))%nat in
        let* (r, meta') := nns_edge_metadata_set meta (Some key) (Some value) in
        if decide (r ≠ NNS_EDGE_ERROR_NONE) then
          ret (r, snd (nns_edge_metadata_free meta'))
        else deserialize_loop fuel' data data_len total cur meta'
    end
  else ret (NNS_EDGE_ERROR_NONE, meta).

(** [nns_edge_metadata_deserialize]. Every turn of the loop moves [cur]
    forward inside [data], so the length of [data] is fuel enough. *)
Definition nns_edge_metadata_deserialize (meta : option nns_edge_metadata_s)
    (data : option (list byte)) (data_len : nat)
  : M (nns_edge_error_e * option nns_edge_metadata_s) :=
  match meta, data with
  | Some _, Some d =>
      if (data_len <=? 0)%nat then ret (NNS_EDGE_ERROR_INVALID_PARAMETER, meta)
      else
        let meta := snd (nns_edge_metadata_free meta) in
        (* length + list of key-value pair *)
        let* total := deref (uint_load d) in
        deserialize_loop (length d) d data_len total 4 meta
  | _, _ => ret (NNS_EDGE_ERROR_INVALID_PARAMETER, meta)
  end.

(** ** Handles, events and edge data *)

(** A call of a destructor on the pointer it was stored with. *)
Definition call_destroy_cb (cb : nns_edge_data_destroy_cb) (data : option addr)
  : M unit :=
  match cb with
  | cb_nns_edge_free => nns_edge_free data
  | cb_user id =>
      fun w => Done tt (World (heap w) (oracle w) (released w ++ [(id, data)]))
  end.

(** [for (i = 0; i < n; i++) body (i)]. *)
Fixpoint for_loop (n : nat) (i : Z) (body : Z → M unit) : M unit :=
  match n with
  | O => ret tt
  | S n' => let* _ := body i in for_loop n' (i + 1) body
  end.

(** [a[i]] on an array: an index outside of it is undefined. *)
Definition index {A} (a : list A) (i : Z) : M A :=
  if i <? 0 then undefined else deref (a !! Z.to_nat i).

(** [a[i] = x] on an array. *)
Definition assign {A} (a : list A) (i : Z) (x : A) : M (list A) :=
  if (0 <=? i) && (i <? Z.of_nat (length a)) then ret (<[Z.to_nat i := x]> a)
  else undefined.

Section with_header.
Context `{header : edge_header}.

(** Modelled from the spec: the macro [NNS_EDGE_MAGIC_IS_VALID] of the
    missing header; a handle is valid when it is not NULL and the tag in
    its first field is the one set at construction. *)
Definition NNS_EDGE_MAGIC_IS_VALID (h : option addr) : M bool :=
  match h with
  | None => ret false
  | Some p => let* magic := load_magic p in ret (magic =? NNS_EDGE_MAGIC)
  end.

Definition raw_data_zero : nns_edge_raw_data_s := RawData None 0 None.

(** [nns_edge_event_create]; [event_h] tells whether the out pointer is
    not NULL, the handle stored through it comes back with the code. *)
Definition nns_edge_event_create (event : Z) (event_h : bool)
  : M (nns_edge_error_e * option addr) :=
  if negb event_h then ret (NNS_EDGE_ERROR_INVALID_PARAMETER, None)
  else if event <=? NNS_EDGE_EVENT_UNKNOWN then
    ret (NNS_EDGE_ERROR_INVALID_PARAMETER, None)
  else
    let* ee := malloc (EventObj (EdgeEvent 0 0 raw_data_zero)) in
    match ee with
    | None => ret (NNS_EDGE_ERROR_OUT_OF_MEMORY, None)
    | Some p =>
        let* _ := store p (EventObj (EdgeEvent NNS_EDGE_MAGIC event raw_data_zero)) in
        ret (NNS_EDGE_ERROR_NONE, Some p)
    end.

(** [nns_edge_event_destroy]. *)
Definition nns_edge_event_destroy (event_h : option addr) : M nns_edge_error_e :=
  let* valid := NNS_EDGE_MAGIC_IS_VALID event_h in
  if negb valid then ret NNS_EDGE_ERROR_INVALID_PARAMETER
  else
    let* p := deref event_h in
    let* ee := load_event p in
    let* _ := store p (EventObj (EdgeEvent NNS_EDGE_MAGIC_DEAD (ee_event ee) (ee_data ee))) in
    let* _ := match raw_destroy_cb (ee_data ee) with
              | Some cb => call_destroy_cb cb (raw_data (ee_data ee))
              | None => ret tt
              end in
    let* _ := SAFE_FREE event_h in
    ret NNS_EDGE_ERROR_NONE.

(** [nns_edge_event_set_data]. *)
Definition nns_edge_event_set_data (event_h : option addr) (data : option addr)
    (data_len : N) (destroy_cb : option nns_edge_data_destroy_cb)
  : M nns_edge_error_e :=
  let* valid := NNS_EDGE_MAGIC_IS_VALID event_h in
  if negb valid then ret NNS_EDGE_ERROR_INVALID_PARAMETER
  else if negb (bool_decide (is_Some data)) || (data_len <=? 0)%N then
    ret NNS_EDGE_ERROR_INVALID_PARAMETER
  else
    let* p := deref event_h in
    let* ee := load_event p in
    (* Clear old data and set new one. *)
    let* _ := match raw_destroy_cb (ee_data ee) with
              | Some cb => call_destroy_cb cb (raw_data (ee_data ee))
              | None => ret tt
              end in
    let* _ := store p (EventObj (EdgeEvent (ee_magic ee) (ee_event ee)
                                           (RawData data data_len destroy_cb))) in
    ret NNS_EDGE_ERROR_NONE.

(** [nns_edge_event_get_type]. *)
Definition nns_edge_event_get_type (event_h : option addr) (event : bool)
  : M (nns_edge_error_e * option Z) :=
  let* valid := NNS_EDGE_MAGIC_IS_VALID event_h in
  if negb valid then ret (NNS_EDGE_ERROR_INVALID_PARAMETER, None)
  else if negb event then ret (NNS_EDGE_ERROR_INVALID_PARAMETER, None)
  else
    let* p := deref event_h in
    let* ee := load_event p in
    ret (NNS_EDGE_ERROR_NONE, Some (ee_event ee)).

(** [nns_edge_data_create]. *)
Definition nns_edge_data_create (data_h : bool)
  : M (nns_edge_error_e * option addr) :=
  if negb data_h then ret (NNS_EDGE_ERROR_INVALID_PARAMETER, None)
  else
    let zeroed :=
      EdgeData 0 0 (replicate NNS_EDGE_DATA_LIMIT raw_data_zero) (Metadata 0 []) in
    let* ed := malloc (DataObj zeroed) in
    match ed with
    | None => ret (NNS_EDGE_ERROR_OUT_OF_MEMORY, None)
    | Some p =>
        let metadata := snd (nns_edge_metadata_init (Some (ed_metadata zeroed))) in
        let* _ := store p (DataObj (EdgeData NNS_EDGE_MAGIC (ed_num zeroed) (ed_data zeroed)
                                             (default (ed_metadata zeroed) metadata))) in
        ret (NNS_EDGE_ERROR_NONE, Some p)
    end.

(** [nns_edge_data_destroy]. *)
Definition nns_edge_data_destroy (data_h : option addr) : M nns_edge_error_e :=
  let* valid := NNS_EDGE_MAGIC_IS_VALID data_h in
  if negb valid then ret NNS_EDGE_ERROR_INVALID_PARAMETER
  else
    let* p := deref data_h in
    let* ed := load_data p in
    let* _ := store p (DataObj (EdgeData NNS_EDGE_MAGIC_DEAD (ed_num ed) (ed_data ed)
                                         (ed_metadata ed))) in
    let* _ := for_loop (Z.to_nat (ed_num ed)) 0 (fun i =>
                let* entry := index (ed_data ed) i in
                match raw_destroy_cb entry with
                | Some cb => call_destroy_cb cb (raw_data entry)
                | None => ret tt
                end) in
    let _ := nns_edge_metadata_free (Some (ed_metadata ed)) in
    let* _ := SAFE_FREE data_h in
    ret NNS_EDGE_ERROR_NONE.

(** [nns_edge_data_is_valid]. *)
Definition nns_edge_data_is_valid (data_h : option addr) : M nns_edge_error_e :=
  let* valid := NNS_EDGE_MAGIC_IS_VALID data_h in
  if negb valid then ret NNS_EDGE_ERROR_INVALID_PARAMETER
  else ret NNS_EDGE_ERROR_NONE.

(** One turn of the loop of [nns_edge_data_copy]: entry [i] of [ed] is
    duplicated into entry [i] of the object at [copied]. *)
Definition data_copy_entry (ed : nns_edge_data_s) (copied : addr) (i : Z) : M unit :=
  let* entry := index (ed_data ed) i in
  let* mem := nns_edge_memdup (raw_data entry) (raw_data_len entry) in
  let* c := load_data copied in
  let* data := assign (ed_data c) i
                 (RawData mem (raw_data_len entry) (Some cb_nns_edge_free)) in
  store copied (DataObj (EdgeData (ed_magic c) (ed_num c) data (ed_metadata c))).

(** [nns_edge_data_copy]. *)
Definition nns_edge_data_copy (data_h : option addr) (new_data_h : bool)
  : M (nns_edge_error_e * option addr) :=
  let* valid := NNS_EDGE_MAGIC_IS_VALID data_h in
  if negb valid then ret (NNS_EDGE_ERROR_INVALID_PARAMETER, None)
  else if negb new_data_h then ret (NNS_EDGE_ERROR_INVALID_PARAMETER, None)
  else
    let* (r, new_h) := nns_edge_data_create new_data_h in
    if decide (r ≠ NNS_EDGE_ERROR_NONE) then ret (r, new_h)
    else
      let* p := deref data_h in
      let* ed := load_data p in
      let* copied := deref new_h in
      let* c := load_data copied in
      let* _ := store copied (DataObj (EdgeData (ed_magic c) (ed_num ed) (ed_data c)
                                                (ed_metadata c))) in
      let* _ := for_loop (Z.to_nat (ed_num ed)) 0 (data_copy_entry ed copied) in
      let* c := load_data copied in
      let* (r, metadata) :=
        nns_edge_metadata_copy (Some (ed_metadata c)) (Some (ed_metadata ed)) in
      let* _ := store copied (DataObj (EdgeData (ed_magic c) (ed_num c) (ed_data c)
                                                (default (ed_metadata c) metadata))) in
      ret (r, new_h).

(** [nns_edge_event_parse_new_data]. *)
Definition nns_edge_event_parse_new_data (event_h : option addr) (data_h : bool)
  : M (nns_edge_error_e * option addr) :=
  let* valid := NNS_EDGE_MAGIC_IS_VALID event_h in
  if negb valid then ret (NNS_EDGE_ERROR_INVALID_PARAMETER, None)
  else if negb data_h then ret (NNS_EDGE_ERROR_INVALID_PARAMETER, None)
  else
    let* p := deref event_h in
    let* ee := load_event p in
    if negb (ee_event ee =? NNS_EDGE_EVENT_NEW_DATA_RECEIVED) then
      ret (NNS_EDGE_ERROR_INVALID_PARAMETER, None)
    else nns_edge_data_copy (raw_data (ee_data ee)) data_h.

(** The string a payload pointer leads to: the bytes of its block, which
    must hold the terminator. *)
Definition load_string (p : option addr) : M (option (list byte)) :=
  match p with
  | None => ret None
  | Some a =>
      let* content := load_bytes a in
      let* _ := deref (mem_strlen content) in
      ret (Some content)
  end.

(** [nns_edge_event_parse_capability]. *)
Definition nns_edge_event_parse_capability (event_h : option addr) (capability : bool)
  : M (nns_edge_error_e * option (list byte)) :=
  let* valid := NNS_EDGE_MAGIC_IS_VALID event_h in
  if negb valid then ret (NNS_EDGE_ERROR_INVALID_PARAMETER, None)
  else if negb capability then ret (NNS_EDGE_ERROR_INVALID_PARAMETER, None)
  else
    let* p := deref event_h in
    let* ee := load_event p in
    if negb (ee_event ee =? NNS_EDGE_EVENT_CAPABILITY) then
      ret (NNS_EDGE_ERROR_INVALID_PARAMETER, None)
    else
      let* str := load_string (raw_data (ee_data ee)) in
      let* dup := nns_edge_strdup str in
      ret (NNS_EDGE_ERROR_NONE, dup).

(** [nns_edge_data_add]. *)
Definition nns_edge_data_add (data_h : option addr) (data : option addr)
    (data_len : N) (destroy_cb : option nns_edge_data_destroy_cb)
  : M nns_edge_error_e :=
  let* valid := NNS_EDGE_MAGIC_IS_VALID data_h in
  if negb valid then ret NNS_EDGE_ERROR_INVALID_PARAMETER
  else
    let* p := deref data_h in
    let* ed := load_data p in
    if Z.of_nat NNS_EDGE_DATA_LIMIT <=? ed_num ed then
      ret NNS_EDGE_ERROR_INVALID_PARAMETER
    else if negb (bool_decide (is_Some data)) || (data_len <=? 0)%N then
      ret NNS_EDGE_ERROR_INVALID_PARAMETER
    else
      let* entries := assign (ed_data ed) (ed_num ed) (RawData data data_len destroy_cb) in
      let* _ := store p (DataObj (EdgeData (ed_magic ed) (uint_incr (ed_num ed)) entries
                                           (ed_metadata ed))) in
      ret NNS_EDGE_ERROR_NONE.

(** [nns_edge_data_get]. *)
Definition nns_edge_data_get (data_h : option addr) (index_ : Z) (data data_len : bool)
  : M (nns_edge_error_e * option addr * N) :=
  let* valid := NNS_EDGE_MAGIC_IS_VALID data_h in
  if negb valid then ret (NNS_EDGE_ERROR_INVALID_PARAMETER, None, 0%N)
  else if negb data || negb data_len then ret (NNS_EDGE_ERROR_INVALID_PARAMETER, None, 0%N)
  else
    let* p := deref data_h in
    let* ed := load_data p in
    if ed_num ed <=? index_ then ret (NNS_EDGE_ERROR_INVALID_PARAMETER, None, 0%N)
    else
      let* entry := index (ed_data ed) index_ in
      ret (NNS_EDGE_ERROR_NONE, raw_data entry, raw_data_len entry).

(** [nns_edge_data_get_count]. *)
Definition nns_edge_data_get_count (data_h : option addr) (count : bool)
  : M (nns_edge_error_e * option Z) :=
  let* valid := NNS_EDGE_MAGIC_IS_VALID data_h in
  if negb valid then ret (NNS_EDGE_ERROR_INVALID_PARAMETER, None)
  else if negb count then ret (NNS_EDGE_ERROR_INVALID_PARAMETER, None)
  else
    let* p := deref data_h in
    let* ed := load_data p in
    ret (NNS_EDGE_ERROR_NONE, Some (ed_num ed)).

(** [&ed->metadata] written back after a call that changed the store. *)
Definition store_metadata (p : addr) (ed : nns_edge_data_s)
    (metadata : option nns_edge_metadata_s) : M unit :=
  store p (DataObj (EdgeData (ed_magic ed) (ed_num ed) (ed_data ed)
                             (default (ed_metadata ed) metadata))).

(** [nns_edge_data_set_info]. *)
Definition nns_edge_data_set_info (data_h : option addr) (key value : option (list byte))
  : M nns_edge_error_e :=
  let* valid := NNS_EDGE_MAGIC_IS_VALID data_h in
  if negb valid then ret NNS_EDGE_ERROR_INVALID_PARAMETER
  else if negb (STR_IS_VALID key) then ret NNS_EDGE_ERROR_INVALID_PARAMETER
  else if negb (STR_IS_VALID value) then ret NNS_EDGE_ERROR_INVALID_PARAMETER
  else
    let* p := deref data_h in
    let* ed := load_data p in
    let* (r, metadata) := nns_edge_metadata_set (Some (ed_metadata ed)) key value in
    let* _ := store_metadata p ed metadata in
    ret r.

(** [nns_edge_data_get_info]. *)
Definition nns_edge_data_get_info (data_h : option addr) (key : option (list byte))
    (value : bool) : M (nns_edge_error_e * option (list byte)) :=
  let* valid := NNS_EDGE_MAGIC_IS_VALID data_h in
  if negb valid then ret (NNS_EDGE_ERROR_INVALID_PARAMETER, None)
  else if negb (STR_IS_VALID key) then ret (NNS_EDGE_ERROR_INVALID_PARAMETER, None)
  else if negb value then ret (NNS_EDGE_ERROR_INVALID_PARAMETER, None)
  else
    let* p := deref data_h in
    let* ed := load_data p in
    nns_edge_metadata_get (Some (ed_metadata ed)) key value.

(** [nns_edge_data_serialize_meta]. *)
Definition nns_edge_data_serialize_meta (data_h : option addr) (data data_len : bool)
  : M (nns_edge_error_e * option (list byte) * nat) :=
  let* valid := NNS_EDGE_MAGIC_IS_VALID data_h in
  if negb valid then ret (NNS_EDGE_ERROR_INVALID_PARAMETER, None, 0%nat)
  else
    let* p := deref data_h in
    let* ed := load_data p in
    nns_edge_metadata_serialize (Some (ed_metadata ed)) data data_len.

(** [nns_edge_data_deserialize_meta]. *)
Definition nns_edge_data_deserialize_meta (data_h : option addr)
    (data : option (list byte)) (data_len : nat) : M nns_edge_error_e :=
  let* valid := NNS_EDGE_MAGIC_IS_VALID data_h in
  if negb valid then ret NNS_EDGE_ERROR_INVALID_PARAMETER
  else
    let* p := deref data_h in
    let* ed := load_data p in
    let* (r, metadata) :=
      nns_edge_metadata_deserialize (Some (ed_metadata ed)) data data_len in
    let* _ := store_metadata p ed metadata in
    ret r.

End with_header.

(** * Vocabulary of the statements *)

(** The key a string stands for when case is ignored. *)
Definition casefold (s : list byte) : list byte := tolower <$> c_str s.

(** The allocator never refuses in [w]. *)
Definition never_fails (w : world) : Prop := oracle w = [].

(** The answer to the next request in [w], and the world after it. *)
Definition granted (w : world) : bool := fst (next_answer (oracle w)).

Definition after_alloc (w : world) : world :=
  World (heap w) (snd (next_answer (oracle w))) (released w).

(** The store after a set that went through. *)
Definition set_result (m : nns_edge_metadata_s) (k v : list byte) : nns_edge_metadata_s :=
  match find_node (meta_list m) k with
  | Some i => Metadata (meta_list_len m) (set_node_value i (c_str v) (meta_list m))
  | None =>
      Metadata (uint_incr (meta_list_len m))
               (MetaNode (c_str k) (c_str v) :: meta_list m)
  end.

(** What a get answers for a key whose value is [v]: a private copy of
    [v], unless the allocator refuses that copy. *)
Definition get_answer (v : list byte) (w : world)
  : nns_edge_error_e * option (list byte) :=
  if granted w then (NNS_EDGE_ERROR_NONE, Some v)
  else (NNS_EDGE_ERROR_OUT_OF_MEMORY, None).

(** The buffers of [bufs] appended one after the other, as a caller would;
    the codes of the calls come back in order. *)
Fixpoint add_all `{header : edge_header} (data_h : option addr)
    (bufs : list nns_edge_raw_data_s) : M (list nns_edge_error_e) :=
  match bufs with
  | [] => ret []
  | b :: bufs' =>
      let* r := nns_edge_data_add data_h (raw_data b) (raw_data_len b) (raw_destroy_cb b) in
      let* rs := add_all data_h bufs' in
      ret (r :: rs)
  end.

(** A buffer a caller may append: a pointer that is not NULL and a length
    that is not zero. *)
Definition valid_buffer (b : nns_edge_raw_data_s) : Prop :=
  is_Some (raw_data b) ∧ raw_data_len b ≠ 0%N.

(** A caller's session: an edge data object is created, the buffer at
    [buf] ([len] bytes, owned by the caller) is appended, [info] pairs are
    attached, and the object is copied. What comes back: the code of the
    copy, the handle it stored, and what the handle then gives (is it
    valid, its count, its first buffer). *)
Definition copy_session `{header : edge_header} (buf : addr) (len : N)
    (info : list (list byte * list byte))
  : M (nns_edge_error_e * option addr * nns_edge_error_e
       * (nns_edge_error_e * option Z) * (nns_edge_error_e * option addr * N)) :=
  let* (_, h) := nns_edge_data_create true in
  let* _ := nns_edge_data_add h (Some buf) len None in
  let* _ := foldr (fun kv rest =>
                     let* _ := nns_edge_data_set_info h (Some kv.1) (Some kv.2) in rest)
                  (ret tt) info in
  let* (r, new_h) := nns_edge_data_copy h true in
  let* valid := nns_edge_data_is_valid new_h in
  let* count := nns_edge_data_get_count new_h true in
  let* first := nns_edge_data_get new_h 0 true true in
  ret (r, new_h, valid, count, first).

(** [list_len] counts the nodes as an unsigned int does. *)
Definition list_len_ok (m : nns_edge_metadata_s) : Prop :=
  meta_list_len m = Z.of_nat (length (meta_list m)) mod UINT_MODULUS.

(** A proper C string that is not empty. *)
Definition valid_string (s : list byte) : Prop := s ≠ [] ∧ NUL ∉ s.

Definition valid_node (n : nns_edge_metadata_node_s) : Prop :=
  valid_string (node_key n) ∧ valid_string (node_value n).

(** The keys of a list of nodes, case ignored. *)
Definition folded_keys (l : list nns_edge_metadata_node_s) : list (list byte) :=
  (fun n => casefold (node_key n)) <$> l.

Definition node_of (kv : list byte * list byte) : nns_edge_metadata_node_s :=
  MetaNode kv.1 kv.2.

(** Pairs a store can be built from: strings that are not empty, keys
    that differ even when case is ignored. *)
Definition valid_pairs (pairs : list (list byte * list byte)) : Prop :=
  Forall (fun kv => valid_string kv.1 ∧ valid_string kv.2) pairs
  ∧ NoDup ((fun kv => casefold kv.1) <$> pairs).

(** The pairs set one after the other, as a caller builds a store; the
    first failure stops the run. *)
Fixpoint set_all (pairs : list (list byte * list byte))
    (meta : option nns_edge_metadata_s)
  : M (nns_edge_error_e * option nns_edge_metadata_s) :=
  match pairs with
  | [] => ret (NNS_EDGE_ERROR_NONE, meta)
  | kv :: pairs' =>
      let* (r, meta') := nns_edge_metadata_set meta (Some kv.1) (Some kv.2) in
      if decide (r ≠ NNS_EDGE_ERROR_NONE) then ret (r, meta')
      else set_all pairs' meta'
  end.

(** Keys that differ, one per number: the binary digits, lowest first. *)
Fixpoint pos_key (p : positive) : list byte :=
  match p with
  | xH => [x31]
  | xO q => x30 :: pos_key q
  | xI q => x31 :: pos_key q
  end.

Definition nat_key (i : nat) : list byte := pos_key (Pos.of_succ_nat i).

(** [n] pairs with the keys of 0, 1, ..., n - 1 and the value "v". *)
Definition numbered_pairs (n : nat) : list (list byte * list byte) :=
  (fun i => (nat_key i, bytes "v")) <$> seq 0 n.

(** The entries the caller appended lead to live blocks that are long
    enough. *)
Definition buffers_live (w : world) (ed : nns_edge_data_s) : Prop :=
  ∀ i entry, 0 ≤ i < ed_num ed → ed_data ed !! Z.to_nat i = Some entry →
    ∃ q content, raw_data entry = Some q
      ∧ heap w !! q = Some (Bytes content)
      ∧ (0 < raw_data_len entry)%N
      ∧ (N.to_nat (raw_data_len entry) ≤ length content)%nat.

(** Entry [i] of [c] is a private duplicate of entry [i] of [ed]: same
    length, the layer's destructor, and a block that did not exist in the
    world [w] of the source and holds the same bytes. *)
Definition entry_duplicated (w w' : world) (ed c : nns_edge_data_s) (i : Z) : Prop :=
  ∃ entry q dup content,
    ed_data ed !! Z.to_nat i = Some entry
    ∧ raw_data entry = Some q
    ∧ heap w !! q = Some (Bytes content)
    ∧ ed_data c !! Z.to_nat i
      = Some (RawData (Some dup) (raw_data_len entry) (Some cb_nns_edge_free))
    ∧ heap w !! dup = None
    ∧ heap w' !! dup = Some (Bytes (take (N.to_nat (raw_data_len entry)) content)).

(** The value the store holds for the key [k]: that of the first node
    whose key is [k] up to case. *)
Definition stored_value (m : nns_edge_metadata_s) (k : list byte)
  : option (list byte) :=
  match find_node (meta_list m) k with
  | Some i => node_value <$> meta_list m !! i
  | None => None
  end.

(** A well formed store: the counter counts, keys and values are proper
    strings that are not empty, and no two keys are equal up to case. *)
Definition store_ok (m : nns_edge_metadata_s) : Prop :=
  list_len_ok m
  ∧ Forall valid_node (meta_list m)
  ∧ NoDup (folded_keys (meta_list m)).

(** A handle the validity check turns down: NULL, or an object of the
    expected kind whose tag is not the one set at construction. *)
Definition refused_data_handle `{header : edge_header} (h : option addr) (w : world)
  : Prop :=
  match h with
  | None => True
  | Some p => ∃ ed, heap w !! p = Some (DataObj ed) ∧ ed_magic ed ≠ NNS_EDGE_MAGIC
  end.

Definition refused_event_handle `{header : edge_header} (h : option addr) (w : world)
  : Prop :=
  match h with
  | None => True
  | Some p => ∃ ee, heap w !! p = Some (EventObj ee) ∧ ee_magic ee ≠ NNS_EDGE_MAGIC
  end.

(** The calls a release of [entry] makes to destructors of the caller,
    and the block it hands to [nns_edge_free]. *)
Definition user_call (entry : nns_edge_raw_data_s) : option (N * option addr) :=
  match raw_destroy_cb entry with
  | Some (cb_user id) => Some (id, raw_data entry)
  | _ => None
  end.

Definition freed_block (entry : nns_edge_raw_data_s) : option addr :=
  match raw_destroy_cb entry with
  | Some cb_nns_edge_free => raw_data entry
  | _ => None
  end.

(** An edge data object as the code builds them: tagged, with a count
    that stays inside the array of [NNS_EDGE_DATA_LIMIT] entries. *)
Definition data_ok `{header : edge_header} (ed : nns_edge_data_s) : Prop :=
  ed_magic ed = NNS_EDGE_MAGIC
  ∧ 0 ≤ ed_num ed ≤ Z.of_nat NNS_EDGE_DATA_LIMIT
  ∧ length (ed_data ed) = NNS_EDGE_DATA_LIMIT.

(** The entries in use: the first [num] ones. *)
Definition entries (ed : nns_edge_data_s) : list nns_edge_raw_data_s :=
  take (Z.to_nat (ed_num ed)) (ed_data ed).

Definition user_calls (l : list nns_edge_raw_data_s) : list (N * option addr) :=
  omap user_call l.

Definition freed_blocks (l : list nns_edge_raw_data_s) : list addr :=
  omap freed_block l.

(** The requests a set of the key [k] makes of the allocator when none
    is refused: the copy of the value for a key the store has; a node and
    the copies of the key and of the value otherwise. *)
Definition set_requests (m : nns_edge_metadata_s) (k : list byte) : nat :=
  match find_node (meta_list m) k with
  | Some _ => 1%nat
  | None => 3%nat
  end.

(** The allocator refuses one of the next [n] requests in [w]. *)
Definition refused_within (n : nat) (w : world) : Prop := false ∈ take n (oracle w).

(** * Properties *)

(** ** C strings *)

Lemma to_N_inj (a b : byte) : Byte.to_N a = Byte.to_N b → a = b.
Proof.
  intros E. apply (f_equal Byte.of_N) in E.
  rewrite !Byte.of_to_N in E. congruence.
Qed.

Lemma tolower_NUL (c : byte) : tolower c = NUL → c = NUL.
Proof. destruct c; vm_compute; intros E; first [reflexivity | discriminate E]. Qed.

Lemma tolower_NUL_iff (c : byte) : tolower c = NUL ↔ c = NUL.
Proof. split; [apply tolower_NUL | intros ->; reflexivity]. Qed.

Lemma c_str_nil : c_str [] = [].
Proof. reflexivity. Qed.

Lemma c_str_cons_NUL (s : list byte) : c_str (NUL :: s) = [].
Proof. reflexivity. Qed.

Lemma c_str_cons (c : byte) (s : list byte) : c ≠ NUL → c_str (c :: s) = c :: c_str s.
Proof. intros H. unfold c_str. simpl. destruct (decide (c = NUL)); [done | reflexivity]. Qed.

Lemma strlen_le (s : list byte) : (strlen s ≤ length s)%nat.
Proof. induction s as [|c s IH]; simpl; [lia | destruct (decide (c = NUL)); lia]. Qed.

Lemma length_c_str (s : list byte) : length (c_str s) = strlen s.
Proof. unfold c_str. rewrite length_take. pose proof (strlen_le s). lia. Qed.

Lemma c_str_no_NUL (s : list byte) : NUL ∉ c_str s.
Proof.
  induction s as [|c s IH]; [rewrite c_str_nil; apply not_elem_of_nil |].
  destruct (decide (c = NUL)) as [->|Hc].
  - rewrite c_str_cons_NUL. apply not_elem_of_nil.
  - rewrite c_str_cons by done. rewrite not_elem_of_cons. split; [congruence | done].
Qed.

Lemma strlen_no_NUL (s : list byte) : NUL ∉ s → strlen s = length s.
Proof.
  induction s as [|c s IH]; [done |].
  rewrite not_elem_of_cons. intros [Hc Hs]. simpl.
  destruct (decide (c = NUL)); [congruence | by rewrite IH].
Qed.

Lemma c_str_id (s : list byte) : NUL ∉ s → c_str s = s.
Proof. intros H. unfold c_str. rewrite strlen_no_NUL by done. apply firstn_all. Qed.

Lemma c_str_idemp (s : list byte) : c_str (c_str s) = c_str s.
Proof. apply c_str_id, c_str_no_NUL. Qed.

Lemma strlen_c_str (s : list byte) : strlen (c_str s) = strlen s.
Proof. rewrite strlen_no_NUL by apply c_str_no_NUL. apply length_c_str. Qed.

(** A string inside a buffer: its bytes, its terminator, then the rest. *)
Lemma strlen_app_NUL (s rest : list byte) :
  NUL ∉ s → strlen (s ++ NUL :: rest) = length s.
Proof.
  induction s as [|c s IH]; [done |].
  rewrite not_elem_of_cons. intros [Hc Hs]. simpl.
  destruct (decide (c = NUL)); [congruence | by rewrite IH].
Qed.

Lemma c_str_app_NUL (s rest : list byte) : NUL ∉ s → c_str (s ++ NUL :: rest) = s.
Proof.
  intros H. unfold c_str. rewrite strlen_app_NUL by done.
  by rewrite take_app_length.
Qed.

Lemma mem_strlen_app_NUL (s rest : list byte) :
  NUL ∉ s → mem_strlen (s ++ NUL :: rest) = Some (length s).
Proof.
  induction s as [|c s IH]; [done |].
  rewrite not_elem_of_cons. intros [Hc Hs]. simpl.
  destruct (decide (c = NUL)); [congruence | by rewrite IH].
Qed.

Lemma mem_strlen_lt (mem : list byte) (n : nat) :
  mem_strlen mem = Some n → (n < length mem)%nat.
Proof.
  revert n. induction mem as [|c mem IH]; intros n; simpl; [done |].
  destruct (decide (c = NUL)).
  - intros [= <-]. lia.
  - destruct (mem_strlen mem) as [k|]; simpl; [|done].
    intros [= <-]. specialize (IH k eq_refl). lia.
Qed.

Lemma casefold_nil : casefold [] = [].
Proof. reflexivity. Qed.

Lemma casefold_cons_NUL (s : list byte) : casefold (NUL :: s) = [].
Proof. reflexivity. Qed.

Lemma casefold_cons (c : byte) (s : list byte) :
  c ≠ NUL → casefold (c :: s) = tolower c :: casefold s.
Proof. intros H. unfold casefold. by rewrite c_str_cons. Qed.

Lemma casefold_c_str (s : list byte) : casefold (c_str s) = casefold s.
Proof. unfold casefold. by rewrite c_str_idemp. Qed.

(** [strcasecmp] answers 0 exactly on strings that are equal up to case. *)
Lemma strcasecmp_0_iff (s1 s2 : list byte) :
  strcasecmp s1 s2 = 0 ↔ casefold s1 = casefold s2.
Proof.
  revert s2. induction s1 as [|x s1 IH]; intros s2.
  - destruct s2 as [|y s2]; [done |]. simpl.
    change (tolower NUL) with NUL.
    destruct (decide (NUL = tolower y)) as [E|E].
    + symmetry in E. apply tolower_NUL in E. subst y. done.
    + assert (y ≠ NUL) as Hy by (intros ->; by apply E).
      rewrite casefold_cons by done. split; [|done].
      intros H. exfalso. apply E. apply to_N_inj.
      change (Byte.to_N NUL) with 0%N in *. lia.
  - destruct s2 as [|y s2]; simpl.
    + change (tolower NUL) with NUL.
      destruct (decide (tolower x = NUL)) as [E|E].
      * apply tolower_NUL in E. subst x.
        rewrite decide_True by done. done.
      * assert (x ≠ NUL) as Hx by (intros ->; by apply E).
        rewrite casefold_cons by done. split; [|done].
        intros H. exfalso. apply E. apply to_N_inj.
        change (Byte.to_N NUL) with 0%N in *. lia.
    + destruct (decide (tolower x = tolower y)) as [E|E].
      * destruct (decide (x = NUL)) as [->|Hx].
        { symmetry in E. apply tolower_NUL in E. subst y. done. }
        assert (y ≠ NUL) as Hy.
        { intros ->. apply Hx. by apply tolower_NUL. }
        rewrite !casefold_cons by done. rewrite IH, E.
        split; [by intros -> | by intros [= ->]].
      * split.
        { intros H. exfalso. apply E, to_N_inj. lia. }
        intros H. exfalso.
        destruct (decide (x = NUL)) as [->|Hx]; destruct (decide (y = NUL)) as [->|Hy].
        -- by apply E.
        -- rewrite casefold_cons_NUL, casefold_cons in H by done. done.
        -- rewrite casefold_cons_NUL, casefold_cons in H by done. done.
        -- rewrite !casefold_cons in H by done. congruence.
Qed.

Lemma strcasecmp_refl (s : list byte) : strcasecmp s s = 0.
Proof. by apply strcasecmp_0_iff. Qed.

Lemma STR_IS_VALID_true (s : list byte) :
  STR_IS_VALID (Some s) = true ↔ c_str s ≠ [].
Proof.
  destruct s as [|c s]; simpl; [done |].
  rewrite bool_decide_eq_true.
  destruct (decide (c = NUL)) as [->|Hc].
  - rewrite c_str_cons_NUL. done.
  - rewrite c_str_cons by done. done.
Qed.

Lemma STR_IS_VALID_no_NUL (s : list byte) :
  s ≠ [] → NUL ∉ s → STR_IS_VALID (Some s) = true.
Proof. intros Hs Hn. apply STR_IS_VALID_true. by rewrite c_str_id. Qed.

#[global] Arguments STR_IS_VALID : simpl never.
#[global] Arguments nns_edge_strdup : simpl never.
#[global] Arguments nns_edge_strndup : simpl never.
#[global] Arguments malloc_value : simpl never.
#[global] Arguments nns_edge_metadata_set : simpl never.
#[global] Arguments nns_edge_metadata_get : simpl never.

(** ** The allocator's answers *)

Lemma malloc_value_eq (w : world) : malloc_value w = Done (granted w) (after_alloc w).
Proof.
  unfold malloc_value, granted, after_alloc.
  by destruct (next_answer (oracle w)).
Qed.

Lemma never_fails_granted (w : world) : never_fails w → granted w = true.
Proof. unfold never_fails, granted. by intros ->. Qed.

Lemma never_fails_after_alloc (w : world) : never_fails w → after_alloc w = w.
Proof. destruct w. unfold never_fails, after_alloc. simpl. by intros ->. Qed.

Lemma take_strlen_c_str (s : list byte) : take (strlen s) (c_str s) = c_str s.
Proof. apply take_ge. by rewrite length_c_str. Qed.

Lemma nns_edge_strdup_eq (s : list byte) (w : world) :
  nns_edge_strdup (Some s) w
  = Done (if granted w then Some (c_str s) else None) (after_alloc w).
Proof.
  unfold nns_edge_strdup, nns_edge_strndup, bind.
  rewrite malloc_value_eq, take_strlen_c_str.
  by destruct (granted w).
Qed.

(** ** [nns_edge_metadata_find] *)

Lemma strcasecmp_eqb (k k' : list byte) :
  (strcasecmp k k' =? 0) = bool_decide (casefold k = casefold k').
Proof.
  destruct (Z.eqb_spec (strcasecmp k k') 0) as [E|E].
  - symmetry. apply bool_decide_eq_true. by apply strcasecmp_0_iff.
  - symmetry. apply bool_decide_eq_false. by rewrite <- strcasecmp_0_iff.
Qed.

Lemma find_node_casefold (l : list nns_edge_metadata_node_s) (k k' : list byte) :
  casefold k = casefold k' → find_node l k = find_node l k'.
Proof.
  intros E. induction l as [|n l IH]; [done |].
  simpl. rewrite !strcasecmp_eqb, E, IH. done.
Qed.

Lemma find_node_Some (l : list nns_edge_metadata_node_s) (k : list byte) (i : nat) :
  find_node l k = Some i →
  ∃ n, l !! i = Some n ∧ casefold k = casefold (node_key n).
Proof.
  revert i. induction l as [|n l IH]; intros i; simpl; [done |].
  rewrite strcasecmp_eqb. case_bool_decide as E.
  - intros [= <-]. by exists n.
  - destruct (find_node l k) as [j|]; simpl; [|done].
    intros [= <-]. by apply IH.
Qed.

Lemma find_node_None (l : list nns_edge_metadata_node_s) (k : list byte) :
  find_node l k = None ↔ casefold k ∉ (casefold ∘ node_key) <$> l.
Proof.
  induction l as [|n l IH]; simpl.
  - split; [intros _; apply not_elem_of_nil | done].
  - rewrite strcasecmp_eqb, not_elem_of_cons. case_bool_decide as E.
    + split; [done | intros [H _]; done].
    + destruct (find_node l k) as [j|]; simpl.
      * split; [done |]. intros [_ H]. by apply IH in H.
      * split; [|done]. intros _. split; [done | by apply IH].
Qed.

Lemma find_node_set_node_value (l : list nns_edge_metadata_node_s)
    (k k' v : list byte) (i : nat) :
  find_node (set_node_value i v l) k' = find_node l k'.
Proof.
  unfold set_node_value. revert i.
  induction l as [|n l IH]; intros i; [done |].
  destruct i as [|i]; [done |].
  change (alter ?f (S i) (n :: l)) with (n :: alter f i l).
  simpl. by rewrite IH.
Qed.

Lemma lookup_set_node_value (l : list nns_edge_metadata_node_s) (v : list byte)
    (i : nat) (n : nns_edge_metadata_node_s) :
  l !! i = Some n → set_node_value i v l !! i = Some (MetaNode (node_key n) v).
Proof.
  intros H. unfold set_node_value. rewrite list_lookup_alter_eq, H. done.
Qed.

Lemma length_set_node_value (l : list nns_edge_metadata_node_s) (v : list byte) (i : nat) :
  length (set_node_value i v l) = length l.
Proof. apply length_alter. Qed.

(** ** [nns_edge_metadata_set] and [nns_edge_metadata_get] *)

(** With an allocator that never refuses, the world stays as it is and
    every request is granted. *)
Ltac never_fails_facts :=
  match goal with
  | H : never_fails ?w |- _ =>
      rewrite ?(never_fails_after_alloc w H) in *;
      pose proof (never_fails_granted w H)
  end.

(** A set ends; it either goes through or leaves the store as it was. *)
Lemma nns_edge_metadata_set_outcome (m : nns_edge_metadata_s)
    (key value : option (list byte)) (w : world) :
  ∃ r w', nns_edge_metadata_set (Some m) key value w
          = Done (r, Some (if decide (r = NNS_EDGE_ERROR_NONE)
                           then set_result m (default [] key) (default [] value)
                           else m)) w'
          ∧ (r = NNS_EDGE_ERROR_NONE →
             STR_IS_VALID key = true ∧ STR_IS_VALID value = true)
          ∧ heap w' = heap w ∧ released w' = released w
          ∧ (never_fails w → w' = w ∧
             (STR_IS_VALID key = true → STR_IS_VALID value = true →
              r = NNS_EDGE_ERROR_NONE)).
Proof.
  unfold nns_edge_metadata_set.
  destruct (STR_IS_VALID key) eqn:Hk; simpl.
  2: { exists NNS_EDGE_ERROR_INVALID_PARAMETER, w. repeat split; done. }
  destruct (STR_IS_VALID value) eqn:Hv; simpl.
  2: { exists NNS_EDGE_ERROR_INVALID_PARAMETER, w. repeat split; done. }
  destruct key as [k|]; [|done]. destruct value as [v|]; [|done].
  rewrite Hk. simpl. unfold set_result.
  destruct (find_node (meta_list m) k) as [i|] eqn:Hf.
  - unfold bind. rewrite nns_edge_strdup_eq.
    destruct (granted w) eqn:Hg;
      [ exists NNS_EDGE_ERROR_NONE, (after_alloc w)
      | exists NNS_EDGE_ERROR_OUT_OF_MEMORY, (after_alloc w) ];
      repeat split; try done; never_fails_facts; congruence.
  - unfold bind. rewrite malloc_value_eq.
    destruct (granted w) eqn:Hg; simpl.
    + rewrite !nns_edge_strdup_eq.
      destruct (granted (after_alloc w)) eqn:Hg1;
        destruct (granted (after_alloc (after_alloc w))) eqn:Hg2;
        [ exists NNS_EDGE_ERROR_NONE, (after_alloc (after_alloc (after_alloc w)))
        | exists NNS_EDGE_ERROR_OUT_OF_MEMORY, (after_alloc (after_alloc (after_alloc w))) ..];
        repeat split; try done; never_fails_facts; congruence.
    + exists NNS_EDGE_ERROR_OUT_OF_MEMORY, (after_alloc w).
      repeat split; try done; never_fails_facts; congruence.
Qed.

Lemma nns_edge_metadata_get_found (m : nns_edge_metadata_s) (k : list byte)
    (i : nat) (n : nns_edge_metadata_node_s) (w : world) :
  STR_IS_VALID (Some k) = true →
  find_node (meta_list m) k = Some i →
  meta_list m !! i = Some n →
  nns_edge_metadata_get (Some m) (Some k) true w
  = Done (get_answer (c_str (node_value n)) w) (after_alloc w).
Proof.
  intros Hk Hf Hn. unfold nns_edge_metadata_get, nns_edge_metadata_find.
  rewrite Hk. simpl. rewrite Hf. unfold bind. simpl. rewrite Hn. simpl.
  rewrite nns_edge_strdup_eq. unfold get_answer. by destruct (granted w).
Qed.

Lemma nns_edge_metadata_get_not_found (m : nns_edge_metadata_s) (k : list byte)
    (w : world) :
  find_node (meta_list m) k = None →
  nns_edge_metadata_get (Some m) (Some k) true w
  = Done (NNS_EDGE_ERROR_INVALID_PARAMETER, None) w.
Proof.
  intros Hf. unfold nns_edge_metadata_get, nns_edge_metadata_find. simpl.
  destruct (STR_IS_VALID (Some k)); simpl; [by rewrite Hf | done].
Qed.

Lemma STR_IS_VALID_casefold (k k' : list byte) :
  casefold k' = casefold k → STR_IS_VALID (Some k) = true → STR_IS_VALID (Some k') = true.
Proof.
  rewrite !STR_IS_VALID_true. unfold casefold. intros E Hk Hk'.
  rewrite Hk' in E. simpl in E. symmetry in E. apply fmap_nil_inv in E. done.
Qed.

(** After a set of [k] to [v] that went through, the first node that
    matches [k] holds [v]. *)
Lemma find_node_set_result (m : nns_edge_metadata_s) (k v : list byte) :
  ∃ i n, find_node (meta_list (set_result m k v)) k = Some i
         ∧ meta_list (set_result m k v) !! i = Some n
         ∧ node_value n = c_str v.
Proof.
  unfold set_result. destruct (find_node (meta_list m) k) as [i|] eqn:Hf; simpl.
  - destruct (find_node_Some _ _ _ Hf) as (n & Hn & _).
    exists i, (MetaNode (node_key n) (c_str v)).
    rewrite find_node_set_node_value by exact k.
    split; [done |]. split; [by apply lookup_set_node_value | done].
  - exists 0%nat, (MetaNode (c_str k) (c_str v)).
    rewrite strcasecmp_eqb, casefold_c_str, bool_decide_eq_true_2 by done. done.
Qed.

(** A set of a key the store already holds, in any spelling, adds no node. *)
Lemma set_result_again (m : nns_edge_metadata_s) (k k' v v' : list byte) :
  casefold k' = casefold k →
  meta_list_len (set_result (set_result m k v) k' v') = meta_list_len (set_result m k v)
  ∧ length (meta_list (set_result (set_result m k v) k' v'))
    = length (meta_list (set_result m k v)).
Proof.
  intros E. destruct (find_node_set_result m k v) as (i & n & Hi & _).
  generalize dependent (set_result m k v). intros s Hi.
  unfold set_result. rewrite (find_node_casefold _ _ _ E), Hi. simpl.
  by rewrite length_set_node_value.
Qed.

(** C4. Set then get, on any store: after a set of [key] to [value] that
    succeeded, get of [key] finds the key and hands back [value] (the only
    other answer is OutOfMemory, when the allocator refuses the copy get
    makes). A second successful set with a spelling [key'] of the same key
    that differs at most in case replaces the value: get then hands back
    [value'], and neither the node count nor [list_len] moves; on a store
    that was empty both are 1. *)
Theorem C4_set_get_overwrite (m : nns_edge_metadata_s)
    (key key' value value' : list byte) (w w1 w2 : world)
    (m1 m2 : option nns_edge_metadata_s) :
  casefold key' = casefold key →
  nns_edge_metadata_set (Some m) (Some key) (Some value) w
    = Done (NNS_EDGE_ERROR_NONE, m1) w1 →
  nns_edge_metadata_set m1 (Some key') (Some value') w1
    = Done (NNS_EDGE_ERROR_NONE, m2) w2 →
  (∀ w', nns_edge_metadata_get m1 (Some key) true w'
         = Done (get_answer (c_str value) w') (after_alloc w'))
  ∧ (∀ w', nns_edge_metadata_get m2 (Some key) true w'
           = Done (get_answer (c_str value') w') (after_alloc w'))
  ∧ ∃ s1 s2, m1 = Some s1 ∧ m2 = Some s2
      ∧ meta_list_len s2 = meta_list_len s1
      ∧ length (meta_list s2) = length (meta_list s1)
      ∧ (m = Metadata 0 [] → meta_list_len s2 = 1 ∧ length (meta_list s2) = 1%nat).
Proof.
  intros E H1 H2.
  destruct (nns_edge_metadata_set_outcome m (Some key) (Some value) w)
    as (r & w' & Hs & Hv & _).
  rewrite Hs in H1. injection H1 as -> <- <-.
  destruct (Hv eq_refl) as [Hk _]. clear Hv Hs. simpl in *.
  destruct (nns_edge_metadata_set_outcome (set_result m key value)
              (Some key') (Some value') w') as (r & w'' & Hs & _).
  rewrite Hs in H2. injection H2 as -> <- <-. clear Hs. simpl.
  split; [|split].
  - intros w0. destruct (find_node_set_result m key value) as (i & n & Hi & Hn & Hv).
    rewrite (nns_edge_metadata_get_found _ _ i n) by done.
    by rewrite Hv, c_str_idemp.
  - intros w0.
    destruct (find_node_set_result (set_result m key value) key' value')
      as (i & n & Hi & Hn & Hv).
    rewrite (find_node_casefold _ _ _ E) in Hi.
    rewrite (nns_edge_metadata_get_found _ _ i n) by done.
    by rewrite Hv, c_str_idemp.
  - eexists _, _. split; [reflexivity |]. split; [reflexivity |].
    destruct (set_result_again m key key' value value' E) as [-> ->].
    split; [done |]. split; [done |]. intros ->. done.
Qed.

(** C4 on the empty store with the keys "k" and "K". *)
Lemma C4_set_get_overwrite_witness :
  (∀ w', nns_edge_metadata_get
           (Some (Metadata 1 [MetaNode (bytes "k") (bytes "v")])) (Some (bytes "k")) true w'
         = Done (get_answer (c_str (bytes "v")) w') (after_alloc w'))
  ∧ (∀ w', nns_edge_metadata_get
             (Some (Metadata 1 [MetaNode (bytes "k") (bytes "w")])) (Some (bytes "k")) true w'
           = Done (get_answer (c_str (bytes "w")) w') (after_alloc w'))
  ∧ ∃ s1 s2, Some (Metadata 1 [MetaNode (bytes "k") (bytes "v")]) = Some s1
      ∧ Some (Metadata 1 [MetaNode (bytes "k") (bytes "w")]) = Some s2
      ∧ meta_list_len s2 = meta_list_len s1
      ∧ length (meta_list s2) = length (meta_list s1)
      ∧ (Metadata 0 [] = Metadata 0 [] →
         meta_list_len s2 = 1 ∧ length (meta_list s2) = 1%nat).
Proof.
  apply (C4_set_get_overwrite (Metadata 0 []) (bytes "k") (bytes "K")
           (bytes "v") (bytes "w") empty_world empty_world empty_world);
    reflexivity.
Defined.

(** ** Serialized form: the concrete scenario *)

(** C6. An empty store serializes to nothing: success, no blob, length 0,
    whatever the allocator would answer. With an allocator that grants, the
    store that holds the one pair ("k", "v") (which is what a set of "k" to
    "v" on the empty store builds) serializes to the 8 bytes
    01 00 00 00 'k' 00 'v' 00, and deserializing these into any store gives
    a store where get of "k" answers "v". *)
Theorem C6_serialize_scenario (w : world) (dest : nns_edge_metadata_s) :
  never_fails w →
  let kv := Metadata 1 [MetaNode (bytes "k") (bytes "v")] in
  let blob := [x01; x00; x00; x00; x6b; x00; x76; x00] in
  (∀ w', nns_edge_metadata_serialize (Some (Metadata 0 [])) true true w'
         = Done (NNS_EDGE_ERROR_NONE, None, 0%nat) w')
  ∧ nns_edge_metadata_set (Some (Metadata 0 [])) (Some (bytes "k")) (Some (bytes "v")) w
    = Done (NNS_EDGE_ERROR_NONE, Some kv) w
  ∧ nns_edge_metadata_serialize (Some kv) true true w
    = Done (NNS_EDGE_ERROR_NONE, Some blob, 8%nat) w
  ∧ nns_edge_metadata_deserialize (Some dest) (Some blob) 8 w
    = Done (NNS_EDGE_ERROR_NONE, Some kv) w
  ∧ nns_edge_metadata_get (Some kv) (Some (bytes "k")) true w
    = Done (NNS_EDGE_ERROR_NONE, Some (bytes "v")) w.
Proof.
  destruct w as [h o r]. unfold never_fails. simpl. intros ->.
  repeat split; reflexivity.
Qed.

(** C6 in the empty world, into an empty store. *)
Lemma C6_serialize_scenario_witness :
  let kv := Metadata 1 [MetaNode (bytes "k") (bytes "v")] in
  let blob := [x01; x00; x00; x00; x6b; x00; x76; x00] in
  (∀ w', nns_edge_metadata_serialize (Some (Metadata 0 [])) true true w'
         = Done (NNS_EDGE_ERROR_NONE, None, 0%nat) w')
  ∧ nns_edge_metadata_set (Some (Metadata 0 [])) (Some (bytes "k")) (Some (bytes "v"))
      empty_world
    = Done (NNS_EDGE_ERROR_NONE, Some kv) empty_world
  ∧ nns_edge_metadata_serialize (Some kv) true true empty_world
    = Done (NNS_EDGE_ERROR_NONE, Some blob, 8%nat) empty_world
  ∧ nns_edge_metadata_deserialize (Some (Metadata 0 [])) (Some blob) 8 empty_world
    = Done (NNS_EDGE_ERROR_NONE, Some kv) empty_world
  ∧ nns_edge_metadata_get (Some kv) (Some (bytes "k")) true empty_world
    = Done (NNS_EDGE_ERROR_NONE, Some (bytes "v")) empty_world.
Proof. apply (C6_serialize_scenario empty_world (Metadata 0 [])). reflexivity. Defined.

(** The scenario of C6 through the handles, with the sample header: an
    object is created, the buffer "AB" appended, the pair set, the metadata
    serialized, then deserialized into a second object, where the pair is
    read back. *)
Example data_object_scenario :
  let session :=
    let* (_, h) := @nns_edge_data_create sample_header true in
    let* _ := @nns_edge_data_add sample_header h (Some 5%positive) 2
                (Some cb_nns_edge_free) in
    let* _ := @nns_edge_data_set_info sample_header h (Some (bytes "k")) (Some (bytes "v")) in
    let* (r1, blob, len) := @nns_edge_data_serialize_meta sample_header h true true in
    let* (_, h') := @nns_edge_data_create sample_header true in
    let* r2 := @nns_edge_data_deserialize_meta sample_header h' blob len in
    let* (r3, v) := @nns_edge_data_get_info sample_header h' (Some (bytes "k")) true in
    ret (r1, blob, len, r2, r3, v) in
  ∃ w', session (World {[ 5%positive := Bytes (bytes "AB") ]} [] [])
        = Done (NNS_EDGE_ERROR_NONE,
                Some [x01; x00; x00; x00; x6b; x00; x76; x00], 8%nat,
                NNS_EDGE_ERROR_NONE, NNS_EDGE_ERROR_NONE, Some (bytes "v")) w'.
Proof. eexists. vm_compute. reflexivity. Qed.

(** ** Deserializing arbitrary bytes *)

(** C1, at a blob whose count field announces two pairs while its 8 bytes
    hold one: after the pair "k", "v" the cursor is at 8, the end of the
    buffer, but one pair is still missing, the loop goes on, and the scan
    for the next key starts at offset 8, outside the buffer. The same
    happens with a blob that holds its two pairs when the second key
    repeats the first (the counter stays at 1), with a blob whose last
    terminator is cut off, and with a blob too short for its count. *)
Theorem C1_deserialize_reads_past_buffer :
  nns_edge_metadata_deserialize (Some (Metadata 0 []))
    (Some [x02; x00; x00; x00; x6b; x00; x76; x00]) 8 empty_world
  = Undefined
  ∧ nns_edge_metadata_deserialize (Some (Metadata 0 []))
      (Some [x02; x00; x00; x00; x6b; x00; x76; x00; x4b; x00; x77; x00]) 12 empty_world
    = Undefined
  ∧ nns_edge_metadata_deserialize (Some (Metadata 0 []))
      (Some [x01; x00; x00; x00; x6b; x00; x76]) 7 empty_world
    = Undefined
  ∧ nns_edge_metadata_deserialize (Some (Metadata 0 [])) (Some [x01]) 1 empty_world
    = Undefined.
Proof. repeat split; reflexivity. Qed.

(** The loop of deserialize stops: with the cursor inside the buffer and
    more fuel than bytes left, it never runs out of fuel. *)
Lemma deserialize_loop_terminates (fuel : nat) (data : list byte) (data_len : nat)
    (total : Z) (cur : nat) (meta : option nns_edge_metadata_s) (w : world) :
  (cur ≤ length data)%nat → (length data < cur + fuel)%nat →
  deserialize_loop fuel data data_len total cur meta w ≠ Timeout.
Proof.
  revert cur meta w. induction fuel as [|fuel IH]; intros cur meta w Hc Hf; [lia |].
  cbn [deserialize_loop]. unfold bind at 1.
  destruct meta as [m|]; [|done]. simpl.
  destruct ((cur <? data_len)%nat || (meta_list_len m <? total)); [|done].
  unfold bind at 1.
  destruct (mem_strlen (drop cur data)) as [n1|] eqn:H1; [|done]. simpl.
  apply mem_strlen_lt in H1. rewrite length_drop in H1.
  unfold bind at 1.
  destruct (mem_strlen (drop (cur + (n1 + 1)) data)) as [n2|] eqn:H2; [|done]. simpl.
  apply mem_strlen_lt in H2. rewrite length_drop in H2.
  unfold bind at 1.
  destruct (nns_edge_metadata_set_outcome m (Some (drop cur data))
              (Some (drop (cur + (n1 + 1)) data)) w) as (r & w' & -> & _).
  destruct (decide (r ≠ NNS_EDGE_ERROR_NONE)); [done |].
  apply IH; lia.
Qed.

(** X1. Deserialize ends on every input: it returns, or it has left the
    buffer (undefined), but it never loops for ever. *)
Lemma nns_edge_metadata_deserialize_terminates (meta : option nns_edge_metadata_s)
    (data : option (list byte)) (data_len : nat) (w : world) :
  nns_edge_metadata_deserialize meta data data_len w ≠ Timeout.
Proof.
  unfold nns_edge_metadata_deserialize.
  destruct meta as [m|]; [|done]. destruct data as [d|]; [|done].
  destruct (data_len <=? 0)%nat; [done |].
  unfold bind. destruct (uint_load d) as [total|] eqn:Hl; [|done]. simpl.
  assert (4 ≤ length d)%nat.
  { destruct d as [|? [|? [|? [|? ?]]]]; simpl in *; try done; lia. }
  apply deserialize_loop_terminates; lia.
Qed.

(** ** Running the monad *)

Lemma bind_ret {A B} (a : A) (k : A → M B) (w : world) :
  (let* x := ret a in k x) w = k a w.
Proof. reflexivity. Qed.

Lemma bind_Done {A B} (c : M A) (k : A → M B) (w w' : world) (a : A) :
  c w = Done a w' → (let* x := c in k x) w = k a w'.
Proof. unfold bind. by intros ->. Qed.

Lemma bind_Undefined {A B} (c : M A) (k : A → M B) (w : world) :
  c w = Undefined → (let* x := c in k x) w = Undefined.
Proof. unfold bind. by intros ->. Qed.

(** ** Heap accesses *)

Lemma load_eq (w : world) (p : addr) (c : cell) :
  heap w !! p = Some c → load p w = Done c w.
Proof. unfold load. by intros ->. Qed.

Lemma load_data_eq (w : world) (p : addr) (ed : nns_edge_data_s) :
  heap w !! p = Some (DataObj ed) → load_data p w = Done ed w.
Proof. intros H. unfold load_data, bind. by rewrite (load_eq _ _ _ H). Qed.

Lemma load_event_eq (w : world) (p : addr) (ee : nns_edge_event_s) :
  heap w !! p = Some (EventObj ee) → load_event p w = Done ee w.
Proof. intros H. unfold load_event, bind. by rewrite (load_eq _ _ _ H). Qed.

Lemma load_bytes_eq (w : world) (p : addr) (content : list byte) :
  heap w !! p = Some (Bytes content) → load_bytes p w = Done content w.
Proof. intros H. unfold load_bytes, bind. by rewrite (load_eq _ _ _ H). Qed.

Lemma store_eq (w : world) (p : addr) (c0 c : cell) :
  heap w !! p = Some c0 →
  store p c w = Done tt (World (<[p := c]> (heap w)) (oracle w) (released w)).
Proof. unfold store. by intros ->. Qed.

Lemma free_eq (w : world) (p : addr) (c0 : cell) :
  heap w !! p = Some c0 →
  free p w = Done tt (World (delete p (heap w)) (oracle w) (released w)).
Proof. unfold free. by intros ->. Qed.


#[global] Arguments load : simpl never.
#[global] Arguments load_data : simpl never.
#[global] Arguments load_event : simpl never.
#[global] Arguments load_bytes : simpl never.
#[global] Arguments load_magic : simpl never.
#[global] Arguments store : simpl never.
#[global] Arguments free : simpl never.
#[global] Arguments malloc : simpl never.

Section handles.
Context `{header : edge_header}.

Lemma magic_is_valid_data (w : world) (p : addr) (ed : nns_edge_data_s) :
  heap w !! p = Some (DataObj ed) →
  NNS_EDGE_MAGIC_IS_VALID (Some p) w = Done (ed_magic ed =? NNS_EDGE_MAGIC) w.
Proof.
  intros H. unfold NNS_EDGE_MAGIC_IS_VALID, load_magic, bind.
  by rewrite (load_eq _ _ _ H).
Qed.

Lemma magic_is_valid_event (w : world) (p : addr) (ee : nns_edge_event_s) :
  heap w !! p = Some (EventObj ee) →
  NNS_EDGE_MAGIC_IS_VALID (Some p) w = Done (ee_magic ee =? NNS_EDGE_MAGIC) w.
Proof.
  intros H. unfold NNS_EDGE_MAGIC_IS_VALID, load_magic, bind.
  by rewrite (load_eq _ _ _ H).
Qed.


(** ** Events *)

Lemma nns_edge_event_create_granted (event : Z) (w : world) :
  NNS_EDGE_EVENT_UNKNOWN < event → granted w = true →
  let p := fresh (dom (heap w)) in
  nns_edge_event_create event true w
  = Done (NNS_EDGE_ERROR_NONE, Some p)
      (World (<[p := EventObj (EdgeEvent NNS_EDGE_MAGIC event raw_data_zero)]> (heap w))
             (snd (next_answer (oracle w))) (released w)).
Proof.
  intros He Hg p. unfold nns_edge_event_create. simpl.
  destruct (Z.leb_spec event NNS_EDGE_EVENT_UNKNOWN); [lia |].
  unfold bind at 1. unfold malloc, granted in *.
  destruct (next_answer (oracle w)) as [g o]. simpl in *. subst g. fold p.
  unfold bind. erewrite store_eq by (simpl; apply lookup_insert_eq).
  simpl. by rewrite insert_insert_eq.
Qed.

Lemma nns_edge_event_parse_capability_mismatch (w : world) (p : addr)
    (ee : nns_edge_event_s) (capability : bool) :
  heap w !! p = Some (EventObj ee) →
  ee_event ee ≠ NNS_EDGE_EVENT_CAPABILITY →
  nns_edge_event_parse_capability (Some p) capability w
  = Done (NNS_EDGE_ERROR_INVALID_PARAMETER, None) w.
Proof.
  intros H He. unfold nns_edge_event_parse_capability.
  rewrite (bind_Done _ _ _ _ _ (magic_is_valid_event _ _ _ H)).
  destruct (ee_magic ee =? NNS_EDGE_MAGIC); [|done]. simpl.
  destruct capability; [|done]. simpl.
  rewrite bind_ret, (bind_Done _ _ _ _ _ (load_event_eq _ _ _ H)).
  destruct (Z.eqb_spec (ee_event ee) NNS_EDGE_EVENT_CAPABILITY); done.
Qed.

Lemma nns_edge_event_parse_new_data_mismatch (w : world) (p : addr)
    (ee : nns_edge_event_s) (data_h : bool) :
  heap w !! p = Some (EventObj ee) →
  ee_event ee ≠ NNS_EDGE_EVENT_NEW_DATA_RECEIVED →
  nns_edge_event_parse_new_data (Some p) data_h w
  = Done (NNS_EDGE_ERROR_INVALID_PARAMETER, None) w.
Proof.
  intros H He. unfold nns_edge_event_parse_new_data.
  rewrite (bind_Done _ _ _ _ _ (magic_is_valid_event _ _ _ H)).
  destruct (ee_magic ee =? NNS_EDGE_MAGIC); [|done]. simpl.
  destruct data_h; [|done]. simpl.
  rewrite bind_ret, (bind_Done _ _ _ _ _ (load_event_eq _ _ _ H)).
  destruct (Z.eqb_spec (ee_event ee) NNS_EDGE_EVENT_NEW_DATA_RECEIVED); done.
Qed.

(** C8. Creating an event of the unknown kind fails with InvalidParameter
    and changes nothing. Creating one of kind new-data-received succeeds
    when the allocator grants the object, and on every live event of that
    kind (so on the one just created) parse_as_capability fails with
    InvalidParameter. parse_as_new_data fails with InvalidParameter on
    every live event of another kind, and on the NULL handle; on a valid
    event of kind new-data-received it passes the check of the kind and
    is the copy of the payload. *)
Theorem C8_event_kind_checks :
  NNS_EDGE_EVENT_UNKNOWN < NNS_EDGE_EVENT_NEW_DATA_RECEIVED →
  NNS_EDGE_EVENT_NEW_DATA_RECEIVED ≠ NNS_EDGE_EVENT_CAPABILITY →
  (∀ event_h w,
     nns_edge_event_create NNS_EDGE_EVENT_UNKNOWN event_h w
     = Done (NNS_EDGE_ERROR_INVALID_PARAMETER, None) w)
  ∧ (∀ w, granted w = true →
       ∃ p w', nns_edge_event_create NNS_EDGE_EVENT_NEW_DATA_RECEIVED true w
               = Done (NNS_EDGE_ERROR_NONE, Some p) w'
               ∧ ∀ capability,
                   nns_edge_event_parse_capability (Some p) capability w'
                   = Done (NNS_EDGE_ERROR_INVALID_PARAMETER, None) w')
  ∧ (∀ w p ee capability,
       heap w !! p = Some (EventObj ee) →
       ee_event ee = NNS_EDGE_EVENT_NEW_DATA_RECEIVED →
       nns_edge_event_parse_capability (Some p) capability w
       = Done (NNS_EDGE_ERROR_INVALID_PARAMETER, None) w)
  ∧ (∀ w p ee data_h,
       heap w !! p = Some (EventObj ee) →
       ee_event ee ≠ NNS_EDGE_EVENT_NEW_DATA_RECEIVED →
       nns_edge_event_parse_new_data (Some p) data_h w
       = Done (NNS_EDGE_ERROR_INVALID_PARAMETER, None) w)
  ∧ (∀ w data_h,
       nns_edge_event_parse_new_data None data_h w
       = Done (NNS_EDGE_ERROR_INVALID_PARAMETER, None) w)
  ∧ (∀ w p ee,
       heap w !! p = Some (EventObj ee) →
       ee_magic ee = NNS_EDGE_MAGIC →
       ee_event ee = NNS_EDGE_EVENT_NEW_DATA_RECEIVED →
       nns_edge_event_parse_new_data (Some p) true w
       = nns_edge_data_copy (raw_data (ee_data ee)) true w).
Proof.
  intros Hlt Hne. repeat split.
  - intros event_h w. unfold nns_edge_event_create.
    destruct event_h; simpl; [|done]. by rewrite Z.leb_refl.
  - intros w Hg. eexists _, _. split.
    + by apply nns_edge_event_create_granted.
    + intros capability.
      eapply nns_edge_event_parse_capability_mismatch;
        [simpl; apply lookup_insert_eq | done].
  - intros w p ee capability H He.
    eapply nns_edge_event_parse_capability_mismatch; [done | congruence].
  - intros w p ee data_h H He.
    by eapply nns_edge_event_parse_new_data_mismatch.
  - intros w p ee H Hm He. unfold nns_edge_event_parse_new_data.
    rewrite (bind_Done _ _ _ _ _ (magic_is_valid_event _ _ _ H)).
    rewrite Hm, Z.eqb_refl. simpl.
    rewrite bind_ret, (bind_Done _ _ _ _ _ (load_event_eq _ _ _ H)).
    by rewrite He, Z.eqb_refl.
Qed.

End handles.

(** C8 with the sample header, in the empty world. *)
Lemma C8_event_kind_checks_witness :
  (@NNS_EDGE_EVENT_UNKNOWN sample_header < @NNS_EDGE_EVENT_NEW_DATA_RECEIVED sample_header
   ∧ @NNS_EDGE_EVENT_NEW_DATA_RECEIVED sample_header ≠ @NNS_EDGE_EVENT_CAPABILITY sample_header)
  ∧ ∃ p w',
      @nns_edge_event_create sample_header
        (@NNS_EDGE_EVENT_NEW_DATA_RECEIVED sample_header) true empty_world
      = Done (NNS_EDGE_ERROR_NONE, Some p) w'
      ∧ ∀ capability,
          @nns_edge_event_parse_capability sample_header (Some p) capability w'
          = Done (NNS_EDGE_ERROR_INVALID_PARAMETER, None) w'.
Proof.
  split; [split; [reflexivity | discriminate] |].
  apply (@C8_event_kind_checks sample_header); [reflexivity | discriminate | reflexivity].
Defined.

Lemma bind_inv {A B} (c : M A) (k : A → M B) (w w1 : world) (b : B) :
  (let* x := c in k x) w = Done b w1 →
  ∃ a w', c w = Done a w' ∧ k a w' = Done b w1.
Proof. unfold bind. destruct (c w) as [a w'| |]; [|done..]. intros H. by exists a, w'. Qed.


Section destroy.
Context `{header : edge_header}.









End destroy.



(** ** Appending buffers *)

Section add.
Context `{header : edge_header}.

Lemma nns_edge_data_create_granted (w : world) :
  granted w = true →
  let p := fresh (dom (heap w)) in
  nns_edge_data_create true w
  = Done (NNS_EDGE_ERROR_NONE, Some p)
      (World (<[p := DataObj (EdgeData NNS_EDGE_MAGIC 0
                                (replicate NNS_EDGE_DATA_LIMIT raw_data_zero)
                                (Metadata 0 []))]> (heap w))
             (snd (next_answer (oracle w))) (released w)).
Proof.
  intros Hg p. unfold nns_edge_data_create. simpl.
  unfold bind at 1. unfold malloc, granted in *.
  destruct (next_answer (oracle w)) as [g o]. simpl in *. subst g. fold p.
  unfold bind. erewrite store_eq by (simpl; apply lookup_insert_eq).
  simpl. by rewrite insert_insert_eq.
Qed.

Lemma nns_edge_data_add_ok (w : world) (p : addr) (ed : nns_edge_data_s)
    (data : option addr) (data_len : N) (destroy_cb : option nns_edge_data_destroy_cb) :
  heap w !! p = Some (DataObj ed) →
  ed_magic ed = NNS_EDGE_MAGIC →
  0 ≤ ed_num ed < Z.of_nat NNS_EDGE_DATA_LIMIT →
  length (ed_data ed) = NNS_EDGE_DATA_LIMIT →
  is_Some data → data_len ≠ 0%N →
  nns_edge_data_add (Some p) data data_len destroy_cb w
  = Done NNS_EDGE_ERROR_NONE
      (World (<[p := DataObj (EdgeData (ed_magic ed) (uint_incr (ed_num ed))
                                (<[Z.to_nat (ed_num ed) := RawData data data_len destroy_cb]>
                                   (ed_data ed))
                                (ed_metadata ed))]> (heap w))
             (oracle w) (released w)).
Proof.
  intros H Hm Hn Hl Hd Hlen. unfold nns_edge_data_add.
  rewrite (bind_Done _ _ _ _ _ (magic_is_valid_data _ _ _ H)).
  rewrite Hm, Z.eqb_refl. simpl.
  rewrite bind_ret, (bind_Done _ _ _ _ _ (load_data_eq _ _ _ H)).
  destruct (Z.leb_spec (Z.of_nat NNS_EDGE_DATA_LIMIT) (ed_num ed)); [lia |].
  rewrite bool_decide_eq_true_2 by done. simpl.
  destruct (N.leb_spec data_len 0); [lia |].
  unfold assign.
  destruct (Z.leb_spec 0 (ed_num ed)); [|lia].
  destruct (Z.ltb_spec (ed_num ed) (Z.of_nat (length (ed_data ed)))); [|lia].
  simpl. rewrite bind_ret.
  rewrite (bind_Done _ _ _ _ _ (store_eq _ _ _ _ H)). by rewrite Hm.
Qed.

(** Add refuses, and changes nothing, when the object is full. *)
Lemma nns_edge_data_add_full (w : world) (p : addr) (ed : nns_edge_data_s)
    (data : option addr) (data_len : N) (destroy_cb : option nns_edge_data_destroy_cb) :
  heap w !! p = Some (DataObj ed) →
  Z.of_nat NNS_EDGE_DATA_LIMIT ≤ ed_num ed →
  nns_edge_data_add (Some p) data data_len destroy_cb w
  = Done NNS_EDGE_ERROR_INVALID_PARAMETER w.
Proof.
  intros H Hn. unfold nns_edge_data_add.
  rewrite (bind_Done _ _ _ _ _ (magic_is_valid_data _ _ _ H)).
  destruct (ed_magic ed =? NNS_EDGE_MAGIC); [|done]. simpl.
  rewrite bind_ret, (bind_Done _ _ _ _ _ (load_data_eq _ _ _ H)).
  destruct (Z.leb_spec (Z.of_nat NNS_EDGE_DATA_LIMIT) (ed_num ed)); [done | lia].
Qed.

(** Add refuses, and changes nothing, when the bytes are absent or the
    length is zero. *)
Lemma nns_edge_data_add_no_bytes (w : world) (p : addr) (ed : nns_edge_data_s)
    (data : option addr) (data_len : N) (destroy_cb : option nns_edge_data_destroy_cb) :
  heap w !! p = Some (DataObj ed) →
  data = None ∨ data_len = 0%N →
  nns_edge_data_add (Some p) data data_len destroy_cb w
  = Done NNS_EDGE_ERROR_INVALID_PARAMETER w.
Proof.
  intros H Hd. unfold nns_edge_data_add.
  rewrite (bind_Done _ _ _ _ _ (magic_is_valid_data _ _ _ H)).
  destruct (ed_magic ed =? NNS_EDGE_MAGIC); [|done]. simpl.
  rewrite bind_ret, (bind_Done _ _ _ _ _ (load_data_eq _ _ _ H)).
  destruct (Z.of_nat NNS_EDGE_DATA_LIMIT <=? ed_num ed); [done |].
  destruct Hd as [-> | ->].
  - rewrite bool_decide_eq_false_2; [done |]. by intros [? ?].
  - by rewrite orb_true_r.
Qed.

Lemma nns_edge_data_get_count_eq (w : world) (p : addr) (ed : nns_edge_data_s) :
  heap w !! p = Some (DataObj ed) → ed_magic ed = NNS_EDGE_MAGIC →
  nns_edge_data_get_count (Some p) true w
  = Done (NNS_EDGE_ERROR_NONE, Some (ed_num ed)) w.
Proof.
  intros H Hm. unfold nns_edge_data_get_count.
  rewrite (bind_Done _ _ _ _ _ (magic_is_valid_data _ _ _ H)).
  rewrite Hm, Z.eqb_refl. simpl.
  by rewrite bind_ret, (bind_Done _ _ _ _ _ (load_data_eq _ _ _ H)).
Qed.

(** Appending while there is room: every call succeeds and the count
    goes up by the number of buffers. *)
Lemma add_all_ok (bufs : list nns_edge_raw_data_s) (w : world) (p : addr)
    (ed : nns_edge_data_s) :
  Z.of_nat NNS_EDGE_DATA_LIMIT < UINT_MODULUS →
  heap w !! p = Some (DataObj ed) →
  ed_magic ed = NNS_EDGE_MAGIC →
  0 ≤ ed_num ed →
  ed_num ed + Z.of_nat (length bufs) ≤ Z.of_nat NNS_EDGE_DATA_LIMIT →
  length (ed_data ed) = NNS_EDGE_DATA_LIMIT →
  Forall valid_buffer bufs →
  ∃ w' ed', add_all (Some p) bufs w
            = Done (replicate (length bufs) NNS_EDGE_ERROR_NONE) w'
            ∧ heap w' !! p = Some (DataObj ed')
            ∧ ed_magic ed' = NNS_EDGE_MAGIC
            ∧ ed_num ed' = ed_num ed + Z.of_nat (length bufs)
            ∧ length (ed_data ed') = NNS_EDGE_DATA_LIMIT
            ∧ (∀ i b, bufs !! i = Some b →
                 ed_data ed' !! (Z.to_nat (ed_num ed) + i)%nat = Some b)
            ∧ (∀ i, (i < Z.to_nat (ed_num ed))%nat → ed_data ed' !! i = ed_data ed !! i).
Proof.
  intros Hlim. revert w ed.
  induction bufs as [|b bufs IH]; intros w ed H Hm H0 Hn Hl Hv.
  - exists w, ed. simpl. repeat split; try done. lia.
  - apply Forall_cons in Hv as [[Hb1 Hb2] Hv]. simpl in Hn.
    cbn [add_all].
    rewrite (bind_Done _ _ _ _ _
               (nns_edge_data_add_ok _ _ _ _ _ _ H Hm ltac:(lia) Hl Hb1 Hb2)).
    assert (uint_incr (ed_num ed) = ed_num ed + 1) as Hi.
    { unfold uint_incr. apply Z.mod_small. lia. }
    rewrite Hi.
    set (ed1 := EdgeData (ed_magic ed) (ed_num ed + 1)
                  (<[Z.to_nat (ed_num ed) :=
                       RawData (raw_data b) (raw_data_len b) (raw_destroy_cb b)]> (ed_data ed))
                  (ed_metadata ed)).
    destruct (IH (World (<[p := DataObj ed1]> (heap w)) (oracle w) (released w)) ed1)
      as (w' & ed' & Hr & Hh & Hm' & Hn' & Hl' & Hnew & Hold);
      [simpl; apply lookup_insert_eq | done | simpl; lia | simpl; lia
      | simpl; by rewrite length_insert | done |].
    simpl in *. exists w', ed'.
    rewrite (bind_Done _ _ _ _ _ Hr).
    split; [done |]. split; [done |]. split; [done |].
    split; [lia |]. split; [done |]. split.
    + intros i b' Hi'. destruct i as [|i]; simpl in Hi'.
      * injection Hi' as <-. rewrite Nat.add_0_r, Hold by lia.
        rewrite list_lookup_insert_eq by lia. by destruct b.
      * rewrite <- (Hnew i b' Hi'). f_equal. lia.
    + intros i Hi'. rewrite Hold by lia.
      apply list_lookup_insert_ne. lia.
Qed.

(** C5. On an edge data object that holds no buffer yet, appending
    DATA_LIMIT valid buffers succeeds call after call and the count is
    then DATA_LIMIT; one more append, whatever its arguments, fails with
    InvalidParameter and leaves the world, so the count, as it was. Create
    makes such an object whenever the allocator grants it. On every live
    edge data object, an append with absent bytes or with length zero
    fails with InvalidParameter and changes nothing. ([num] is an unsigned
    int: DATA_LIMIT is taken to fit in one.) *)
Theorem C5_data_add_capacity (w : world) (p : addr) (ed : nns_edge_data_s)
    (bufs : list nns_edge_raw_data_s) :
  Z.of_nat NNS_EDGE_DATA_LIMIT < UINT_MODULUS →
  heap w !! p = Some (DataObj ed) →
  ed_magic ed = NNS_EDGE_MAGIC →
  ed_num ed = 0 →
  length (ed_data ed) = NNS_EDGE_DATA_LIMIT →
  length bufs = NNS_EDGE_DATA_LIMIT →
  Forall valid_buffer bufs →
  (∃ w', add_all (Some p) bufs w
         = Done (replicate NNS_EDGE_DATA_LIMIT NNS_EDGE_ERROR_NONE) w'
         ∧ nns_edge_data_get_count (Some p) true w'
           = Done (NNS_EDGE_ERROR_NONE, Some (Z.of_nat NNS_EDGE_DATA_LIMIT)) w'
         ∧ ∀ data data_len destroy_cb,
             nns_edge_data_add (Some p) data data_len destroy_cb w'
             = Done NNS_EDGE_ERROR_INVALID_PARAMETER w')
  ∧ (∀ w0, granted w0 = true →
       ∃ p0 ed0 w1, nns_edge_data_create true w0 = Done (NNS_EDGE_ERROR_NONE, Some p0) w1
                    ∧ heap w1 !! p0 = Some (DataObj ed0)
                    ∧ ed_magic ed0 = NNS_EDGE_MAGIC ∧ ed_num ed0 = 0
                    ∧ length (ed_data ed0) = NNS_EDGE_DATA_LIMIT)
  ∧ (∀ w0 p0 ed0 data_len destroy_cb,
       heap w0 !! p0 = Some (DataObj ed0) →
       nns_edge_data_add (Some p0) None data_len destroy_cb w0
       = Done NNS_EDGE_ERROR_INVALID_PARAMETER w0)
  ∧ (∀ w0 p0 ed0 data destroy_cb,
       heap w0 !! p0 = Some (DataObj ed0) →
       nns_edge_data_add (Some p0) data 0 destroy_cb w0
       = Done NNS_EDGE_ERROR_INVALID_PARAMETER w0).
Proof.
  intros Hlim H Hm Hn Hl Hb Hv. split; [|split; [|split]].
  - destruct (add_all_ok bufs w p ed Hlim H Hm ltac:(lia) ltac:(lia) Hl Hv)
      as (w' & ed' & Hr & Hh & Hm' & Hn' & _).
    exists w'. rewrite Hb in Hr. split; [done |]. split.
    + rewrite (nns_edge_data_get_count_eq _ _ _ Hh Hm'). do 3 f_equal. lia.
    + intros. apply (nns_edge_data_add_full _ _ _ _ _ _ Hh). lia.
  - intros w0 Hg. eexists _, _, _.
    split; [by apply nns_edge_data_create_granted |].
    split; [simpl; apply lookup_insert_eq |]. simpl.
    by rewrite length_replicate.
  - intros. eapply nns_edge_data_add_no_bytes; eauto.
  - intros. eapply nns_edge_data_add_no_bytes; eauto.
Qed.

End add.

(** C5 with the sample header: sixteen buffers appended to the object
    create makes in the empty world. *)
Lemma C5_data_add_capacity_witness :
  let bufs := replicate 16 (RawData (Some 7%positive) 2 None) in
  ∃ w, @nns_edge_data_create sample_header true empty_world
       = Done (NNS_EDGE_ERROR_NONE, Some 1%positive) w
     ∧ ∃ w', @add_all sample_header (Some 1%positive) bufs w
             = Done (replicate 16 NNS_EDGE_ERROR_NONE) w'
           ∧ @nns_edge_data_get_count sample_header (Some 1%positive) true w'
             = Done (NNS_EDGE_ERROR_NONE, Some 16) w'
           ∧ ∀ data data_len destroy_cb,
               @nns_edge_data_add sample_header (Some 1%positive) data data_len destroy_cb w'
               = Done NNS_EDGE_ERROR_INVALID_PARAMETER w'.
Proof.
  intros bufs. eexists. split; [vm_compute; reflexivity |].
  refine (proj1 (@C5_data_add_capacity sample_header _ 1%positive _ bufs
                   _ _ _ _ _ _ _)).
  - reflexivity.
  - reflexivity.
  - reflexivity.
  - reflexivity.
  - reflexivity.
  - reflexivity.
  - repeat constructor; unfold valid_buffer; simpl; eauto.
Defined.

(** ** Copying an edge data object when the allocator refuses *)

(** C7, at an object with the one buffer "AB" and no metadata, when the
    allocator grants the two objects and refuses the duplicate of the
    buffer: [nns_edge_memdup] answers NULL, the copy goes on and returns
    success, and the first buffer of the copy is the NULL pointer with
    length 2, not a duplicate of "AB". *)
Theorem C7_copy_succeeds_without_duplicate :
  ∃ w' new_h,
    @copy_session sample_header 5%positive 2 []
      (World {[ 5%positive := Bytes (bytes "AB") ]} [true; true; false] [])
    = Done (NNS_EDGE_ERROR_NONE, Some new_h, NNS_EDGE_ERROR_NONE,
            (NNS_EDGE_ERROR_NONE, Some 1), (NNS_EDGE_ERROR_NONE, None, 2%N)) w'.
Proof. eexists _, _. vm_compute. reflexivity. Qed.

(** C3, at an object with the buffer "AB" and the pair ("k", "v"), when
    the allocator grants everything up to the duplicate of the buffer and
    refuses the first node of the metadata copy: the copy returns
    OutOfMemory, yet the handle it stored leads to a live, valid object
    that holds one buffer, the duplicate of "AB", still allocated. Nothing
    of what was built has been released. *)
Theorem C3_copy_failure_keeps_new_object :
  ∃ w' new_h dup,
    @copy_session sample_header 5%positive 2 [(bytes "k", bytes "v")]
      (World {[ 5%positive := Bytes (bytes "AB") ]}
             [true; true; true; true; true; true; false] [])
    = Done (NNS_EDGE_ERROR_OUT_OF_MEMORY, Some new_h, NNS_EDGE_ERROR_NONE,
            (NNS_EDGE_ERROR_NONE, Some 1), (NNS_EDGE_ERROR_NONE, Some dup, 2%N)) w'
    ∧ is_Some (heap w' !! new_h)
    ∧ heap w' !! dup = Some (Bytes (bytes "AB"))
    ∧ dup ≠ 5%positive.
Proof.
  eexists _, _, _. split; [vm_compute; reflexivity |].
  split; [vm_compute; eauto |]. split; [vm_compute; reflexivity | discriminate].
Qed.

(** ** The count field *)

Lemma Z_of_byte_of_Z (z : Z) : Z_of_byte (byte_of_Z z) = z mod 256.
Proof.
  unfold Z_of_byte, byte_of_Z.
  pose proof (Z.mod_pos_bound z 256 ltac:(lia)) as Hb.
  pose proof (Byte.to_of_N_option_map (Z.to_N (z mod 256))) as H.
  destruct (N.leb_spec (Z.to_N (z mod 256)) 255) as [_|Hgt]; [|lia].
  destruct (Byte.of_N (Z.to_N (z mod 256))) as [b|]; simpl in *; [|done].
  injection H as ->. lia.
Qed.

Lemma uint_load_store (x : Z) (rest : list byte) :
  0 ≤ x < UINT_MODULUS → uint_load (uint_store x ++ rest) = Some x.
Proof.
  intros Hx. unfold UINT_MODULUS in Hx. unfold uint_load, uint_store. simpl.
  rewrite !Z_of_byte_of_Z. f_equal.
  change (2 ^ 8) with 256. change (2 ^ 16) with (256 * 256).
  change (2 ^ 24) with (256 * 256 * 256).
  change (2 ^ 32) with 4294967296 in Hx.
  rewrite <- !Z.div_div by lia. Z.div_mod_to_equations. lia.
Qed.

Lemma uint_incr_mod (n : Z) :
  uint_incr (n mod UINT_MODULUS) = (n + 1) mod UINT_MODULUS.
Proof. unfold uint_incr. apply Z.add_mod_idemp_l. done. Qed.

(** ** The counter and the list *)

Lemma list_len_ok_empty : list_len_ok (Metadata 0 []).
Proof. reflexivity. Qed.

Lemma list_len_ok_set_result (m : nns_edge_metadata_s) (k v : list byte) :
  list_len_ok m → list_len_ok (set_result m k v).
Proof.
  unfold list_len_ok, set_result. intros H.
  destruct (find_node (meta_list m) k); simpl.
  - by rewrite length_set_node_value.
  - rewrite H, uint_incr_mod. f_equal. lia.
Qed.

Lemma metadata_copy_loop_outcome (node : list nns_edge_metadata_node_s)
    (tmp : nns_edge_metadata_s) (w : world) :
  list_len_ok tmp →
  ∃ r tmp' w', metadata_copy_loop node (Some tmp) w = Done (r, Some tmp') w'
               ∧ list_len_ok tmp'
               ∧ heap w' = heap w ∧ released w' = released w.
Proof.
  revert tmp w. induction node as [|n next IH]; intros tmp w Hok.
  - by exists NNS_EDGE_ERROR_NONE, tmp, w.
  - cbn [metadata_copy_loop].
    destruct (nns_edge_metadata_set_outcome tmp (Some (node_key n))
                (Some (node_value n)) w) as (r & w1 & Hs & _ & Hh & Hr & _).
    rewrite (bind_Done _ _ _ _ _ Hs).
    destruct (decide (r = NNS_EDGE_ERROR_NONE)) as [->|Hne].
    + rewrite decide_False by (by intros ?).
      destruct (IH (set_result tmp (node_key n) (node_value n)) w1)
        as (r' & tmp' & w' & Hl & Hok' & Hh' & Hr').
      { by apply list_len_ok_set_result. }
      exists r', tmp', w'. simpl. rewrite Hl.
      repeat split; [done | congruence | congruence].
    + rewrite decide_True by done.
      exists r, (Metadata 0 []), w1. by repeat split.
Qed.

(** A copy ends. When it fails, [dest] is what it was; when it succeeds,
    [dest] is a store built from scratch, with a counter that counts. *)
Lemma nns_edge_metadata_copy_outcome (dest src : nns_edge_metadata_s) (w : world) :
  ∃ r dest' w', nns_edge_metadata_copy (Some dest) (Some src) w = Done (r, Some dest') w'
                ∧ (r ≠ NNS_EDGE_ERROR_NONE → dest' = dest)
                ∧ (r = NNS_EDGE_ERROR_NONE → list_len_ok dest')
                ∧ heap w' = heap w ∧ released w' = released w.
Proof.
  unfold nns_edge_metadata_copy. simpl.
  destruct (metadata_copy_loop_outcome (meta_list src) (Metadata 0 []) w
              list_len_ok_empty) as (r & tmp' & w' & Hl & Hok & Hh & Hr).
  rewrite (bind_Done _ _ _ _ _ Hl).
  destruct (decide (r ≠ NNS_EDGE_ERROR_NONE)) as [Hne|He].
  - exists r, dest, w'. by repeat split.
  - exists NNS_EDGE_ERROR_NONE, tmp', w'. by repeat split.
Qed.

Lemma deserialize_loop_outcome (fuel : nat) (data : list byte) (data_len : nat)
    (total : Z) (cur : nat) (m : nns_edge_metadata_s) (w w' : world)
    (r : nns_edge_error_e) (meta' : option nns_edge_metadata_s) :
  list_len_ok m →
  deserialize_loop fuel data data_len total cur (Some m) w = Done (r, meta') w' →
  ∃ m', meta' = Some m' ∧ list_len_ok m'
        ∧ (r ≠ NNS_EDGE_ERROR_NONE → m' = Metadata 0 []).
Proof.
  revert cur m w. induction fuel as [|fuel IH]; intros cur m w Hok.
  - cbn [deserialize_loop]. change (deref (Some m)) with (ret m). rewrite bind_ret.
    destruct ((cur <? data_len)%nat || (meta_list_len m <? total)); [done |].
    intros [= <- <- <-]. by exists m.
  - cbn [deserialize_loop]. change (deref (Some m)) with (ret m). rewrite bind_ret.
    destruct ((cur <? data_len)%nat || (meta_list_len m <? total)).
    2: { intros [= <- <- <-]. by exists m. }
    intros H.
    apply bind_inv in H as (n1 & w1 & _ & H).
    apply bind_inv in H as (n2 & w2 & _ & H).
    destruct (nns_edge_metadata_set_outcome m (Some (drop cur data))
                (Some (drop (cur + (n1 + 1)) data)) w2) as (r1 & w3 & Hs & _).
    rewrite (bind_Done _ _ _ _ _ Hs) in H.
    destruct (decide (r1 = NNS_EDGE_ERROR_NONE)) as [->|Hne].
    + rewrite decide_False in H by (by intros ?).
      eapply IH; [|exact H]. by apply list_len_ok_set_result.
    + rewrite decide_True in H by done.
      injection H as <- <- <-. by exists (Metadata 0 []).
Qed.

(** A deserialize that returns leaves the store untouched (bad
    arguments), empty (a set failed), or filled, and in each case with a
    counter that counts. *)
Lemma nns_edge_metadata_deserialize_outcome (m : nns_edge_metadata_s)
    (data : option (list byte)) (data_len : nat) (w w' : world)
    (r : nns_edge_error_e) (meta' : option nns_edge_metadata_s) :
  nns_edge_metadata_deserialize (Some m) data data_len w = Done (r, meta') w' →
  ∃ m', meta' = Some m'
        ∧ (list_len_ok m → list_len_ok m')
        ∧ (r ≠ NNS_EDGE_ERROR_NONE → m' = m ∨ m' = Metadata 0 []).
Proof.
  unfold nns_edge_metadata_deserialize.
  destruct data as [d|]; [|intros [= <- <- <-]; exists m; auto].
  destruct (data_len <=? 0)%nat; [intros [= <- <- <-]; exists m; auto |].
  intros H. apply bind_inv in H as (total & w1 & _ & H). simpl in H.
  apply deserialize_loop_outcome in H as (m' & -> & Hok & He);
    [|apply list_len_ok_empty].
  exists m'. auto.
Qed.

(** ** Round trip *)

Lemma valid_string_STR_IS_VALID (s : list byte) :
  valid_string s → STR_IS_VALID (Some s) = true.
Proof. intros [? ?]. by apply STR_IS_VALID_no_NUL. Qed.

Lemma valid_string_c_str (s : list byte) : valid_string s → c_str s = s.
Proof. intros [_ ?]. by apply c_str_id. Qed.

(** With an allocator that grants, a set of valid strings goes through. *)
Lemma nns_edge_metadata_set_granted (m : nns_edge_metadata_s) (k v : list byte)
    (w : world) :
  never_fails w → STR_IS_VALID (Some k) = true → STR_IS_VALID (Some v) = true →
  nns_edge_metadata_set (Some m) (Some k) (Some v) w
  = Done (NNS_EDGE_ERROR_NONE, Some (set_result m k v)) w.
Proof.
  intros Hw Hk Hv.
  destruct (nns_edge_metadata_set_outcome m (Some k) (Some v) w)
    as (r & w' & Hs & _ & _ & _ & Hn).
  destruct (Hn Hw) as [-> Hr]. rewrite (Hr Hk Hv) in Hs. exact Hs.
Qed.

Lemma set_result_new (m : nns_edge_metadata_s) (k v : list byte) :
  casefold k ∉ folded_keys (meta_list m) →
  set_result m k v
  = Metadata (uint_incr (meta_list_len m)) (MetaNode (c_str k) (c_str v) :: meta_list m).
Proof.
  intros H. unfold set_result.
  by rewrite (proj2 (find_node_None _ _) H).
Qed.

(** Building a store from valid pairs whose keys are new to it. *)
Lemma set_all_granted (pairs : list (list byte * list byte))
    (m : nns_edge_metadata_s) (w : world) :
  never_fails w →
  Forall (fun kv => valid_string kv.1 ∧ valid_string kv.2) pairs →
  NoDup (((fun kv => casefold kv.1) <$> pairs) ++ folded_keys (meta_list m)) →
  list_len_ok m →
  set_all pairs (Some m) w
  = Done (NNS_EDGE_ERROR_NONE,
          Some (Metadata (Z.of_nat (length pairs + length (meta_list m)) mod UINT_MODULUS)
                         (rev (node_of <$> pairs) ++ meta_list m))) w.
Proof.
  intros Hw. revert m. induction pairs as [|[k v] pairs IH]; intros m Hv Hd Hok.
  - simpl. destruct m as [len l]. unfold list_len_ok in Hok. simpl in *. by subst.
  - apply Forall_cons in Hv as [[Hk Hval] Hv]. simpl in Hk, Hval.
    rewrite fmap_cons in Hd. simpl in Hd. apply NoDup_cons in Hd as [Hnew Hd].
    cbn [set_all]. simpl.
    rewrite (bind_Done _ _ _ _ _
               (nns_edge_metadata_set_granted m k v w Hw
                  (valid_string_STR_IS_VALID _ Hk) (valid_string_STR_IS_VALID _ Hval))).
    rewrite decide_False by (by intros ?).
    rewrite set_result_new by (intros ?; apply Hnew; apply elem_of_app; by right).
    rewrite (valid_string_c_str _ Hk), (valid_string_c_str _ Hval).
    rewrite IH; simpl.
    + rewrite <- app_assoc. simpl.
      by replace (length pairs + S (length (meta_list m)))%nat
        with (S (length pairs + length (meta_list m))) by lia.
    + done.
    + apply NoDup_app. apply NoDup_app in Hd as (Hd1 & Hd2 & Hd3).
      split; [done |]. split.
      * intros x Hx. rewrite not_elem_of_cons. split.
        -- intros ->. apply Hnew. apply elem_of_app. by left.
        -- by apply Hd2.
      * apply NoDup_cons. split; [|done].
        intros ?. apply Hnew. apply elem_of_app. by right.
    + unfold list_len_ok in *. simpl. rewrite Hok, uint_incr_mod. f_equal. lia.
Qed.

Lemma serialize_total_eq (l : list nns_edge_metadata_node_s) (t : nat) :
  serialize_total l t = (t + length (serialize_pairs l))%nat.
Proof.
  revert t. induction l as [|n l IH]; intros t; simpl; [lia |].
  rewrite IH, !length_app, !length_take. simpl. rewrite !length_app, !length_take. simpl.
  pose proof (strlen_le (node_key n)). pose proof (strlen_le (node_value n)). lia.
Qed.

Lemma nns_edge_metadata_serialize_eq (m : nns_edge_metadata_s) (w : world) :
  meta_list_len m ≠ 0 →
  let blob := uint_store (meta_list_len m) ++ serialize_pairs (meta_list m) in
  nns_edge_metadata_serialize (Some m) true true w
  = Done (if granted w then (NNS_EDGE_ERROR_NONE, Some blob, length blob)
          else (NNS_EDGE_ERROR_OUT_OF_MEMORY, None, 0%nat)) (after_alloc w).
Proof.
  intros Hl blob. unfold nns_edge_metadata_serialize. simpl.
  destruct (Z.eqb_spec (meta_list_len m) 0); [done |].
  unfold bind. rewrite malloc_value_eq.
  destruct (granted w); simpl; [|done].
  by rewrite serialize_total_eq.
Qed.

Lemma serialize_pairs_cons (n : nns_edge_metadata_node_s)
    (rest : list nns_edge_metadata_node_s) :
  valid_node n →
  serialize_pairs (n :: rest)
  = node_key n ++ NUL :: node_value n ++ NUL :: serialize_pairs rest.
Proof.
  intros [[_ Hk] [_ Hv]]. simpl.
  rewrite !strlen_no_NUL, !firstn_all by done. done.
Qed.

(** The loop of deserialize on what serialize wrote: [pre] has been
    read, the nodes of [acc] are in the store, those of [rest] are still
    to come. *)
Lemma deserialize_loop_serialized (rest acc : list nns_edge_metadata_node_s)
    (pre : list byte) (fuel : nat) (w : world) :
  never_fails w →
  Forall valid_node rest →
  NoDup (folded_keys (rest ++ acc)) →
  (length rest ≤ fuel)%nat →
  let data := pre ++ serialize_pairs rest in
  let total := Z.of_nat (length rest + length acc) mod UINT_MODULUS in
  deserialize_loop fuel data (length data) total (length pre)
    (Some (Metadata (Z.of_nat (length acc) mod UINT_MODULUS) acc)) w
  = Done (NNS_EDGE_ERROR_NONE, Some (Metadata total (rev rest ++ acc))) w.
Proof.
  intros Hw. revert acc pre fuel.
  induction rest as [|n rest IH]; intros acc pre fuel Hv Hd Hf data total.
  - subst data total. simpl. rewrite app_nil_r.
    destruct fuel; cbn [deserialize_loop]; change (deref (Some ?m)) with (ret m);
      rewrite bind_ret; simpl;
      rewrite Nat.ltb_irrefl, Z.ltb_irrefl; done.
  - destruct fuel as [|fuel]; [simpl in Hf; lia |].
    apply Forall_cons in Hv as [Hn Hv].
    pose proof Hn as [[Hk1 Hk2] [Hv1 Hv2]].
    unfold folded_keys in Hd. rewrite <- app_comm_cons, fmap_cons in Hd.
    apply NoDup_cons in Hd as [Hnew Hd].
    subst data. rewrite serialize_pairs_cons by done.
    set (tail := serialize_pairs rest).
    cbn [deserialize_loop]. change (deref (Some ?m)) with (ret m). rewrite bind_ret.
    cbn [meta_list_len].
    replace (length pre <? length (pre ++ node_key n ++ NUL :: node_value n ++ NUL :: tail))%nat
      with true.
    2: { symmetry. apply Nat.ltb_lt. rewrite length_app, length_app. simpl. lia. }
    rewrite orb_true_l.
    rewrite drop_app_length.
    rewrite mem_strlen_app_NUL by done.
    change (deref (Some ?x)) with (ret x). rewrite bind_ret.
    replace (drop (length pre + (length (node_key n) + 1))
               (pre ++ node_key n ++ NUL :: node_value n ++ NUL :: tail))
      with (node_value n ++ NUL :: tail).
    2: { replace (pre ++ node_key n ++ NUL :: node_value n ++ NUL :: tail)
           with ((pre ++ node_key n ++ [NUL]) ++ node_value n ++ NUL :: tail)
           by (by rewrite <- !app_assoc).
         replace (length pre + (length (node_key n) + 1))%nat
           with (length (pre ++ node_key n ++ [NUL]))
           by (rewrite !length_app; simpl; lia).
         by rewrite drop_app_length. }
    rewrite mem_strlen_app_NUL by done.
    change (deref (Some ?x)) with (ret x). rewrite bind_ret.
    assert (casefold (node_key n ++ NUL :: node_value n ++ NUL :: tail)
            = casefold (node_key n)) as Hcf.
    { unfold casefold. by rewrite c_str_app_NUL, c_str_id. }
    rewrite (bind_Done _ _ _ _ _
               (nns_edge_metadata_set_granted _ _ _ w Hw
                  (STR_IS_VALID_casefold _ _ Hcf (valid_string_STR_IS_VALID _ (proj1 Hn)))
                  ltac:(apply STR_IS_VALID_true; rewrite c_str_app_NUL by done; done))).
    rewrite decide_False by (by intros ?).
    rewrite set_result_new.
    2: { simpl. rewrite Hcf. intros ?. apply Hnew. rewrite fmap_app.
         apply elem_of_app. by right. }
    rewrite !c_str_app_NUL by done. simpl.
    rewrite uint_incr_mod.
    replace (MetaNode (node_key n) (node_value n)) with n by (by destruct n).
    specialize (IH (n :: acc) (pre ++ node_key n ++ NUL :: node_value n ++ [NUL]) fuel Hv).
    simpl in IH.
    fold tail in IH.
    replace ((pre ++ node_key n ++ NUL :: node_value n ++ [NUL]) ++ tail)
      with (pre ++ node_key n ++ NUL :: node_value n ++ NUL :: tail) in IH
      by (rewrite <- !app_assoc; simpl; by rewrite <- !app_assoc).
    replace (length (pre ++ node_key n ++ NUL :: node_value n ++ [NUL]))
      with (length pre + (length (node_key n) + 1) + (length (node_value n) + 1))%nat in IH
      by (rewrite !length_app; simpl; rewrite length_app; simpl; lia).
    replace (Z.of_nat (length acc) + 1) with (Z.of_nat (S (length acc))) by lia.
    subst total. simpl.
    replace (S (length rest + length acc)) with (length rest + S (length acc))%nat by lia.
    rewrite IH.
    + by rewrite <- app_assoc.
    + unfold folded_keys. rewrite fmap_app, fmap_cons.
      rewrite fmap_app in Hd, Hnew.
      apply NoDup_app. apply NoDup_app in Hd as (Hd1 & Hd2 & Hd3).
      split; [done |]. split.
      * intros x Hx. rewrite not_elem_of_cons. split.
        -- intros ->. apply Hnew. apply elem_of_app. by left.
        -- by apply Hd2.
      * apply NoDup_cons. split; [|done].
        intros ?. apply Hnew. apply elem_of_app. by right.
    + simpl in Hf. lia.
Qed.

Lemma length_serialize_pairs (l : list nns_edge_metadata_node_s) :
  (length l ≤ length (serialize_pairs l))%nat.
Proof.
  induction l as [|n l IH]; simpl; [lia |].
  rewrite !length_app. simpl. rewrite !length_app. simpl. lia.
Qed.

(** In a list whose keys differ, the node found for the key of a node is
    that node. *)
Lemma find_node_NoDup (l : list nns_edge_metadata_node_s)
    (n : nns_edge_metadata_node_s) :
  NoDup (folded_keys l) → n ∈ l →
  ∃ i, find_node l (node_key n) = Some i ∧ l !! i = Some n.
Proof.
  intros Hd Hn.
  destruct (find_node l (node_key n)) as [i|] eqn:Hf.
  - exists i. split; [done |].
    destruct (find_node_Some _ _ _ Hf) as (n' & Hi & Hk).
    apply list_elem_of_lookup in Hn as [j Hj].
    assert (i = j) as ->; [|congruence].
    apply (NoDup_lookup (folded_keys l) i j (casefold (node_key n))); [done | |].
    + unfold folded_keys. rewrite list_lookup_fmap, Hi. simpl. by rewrite Hk.
    + unfold folded_keys. by rewrite list_lookup_fmap, Hj.
  - exfalso. apply find_node_None in Hf. apply Hf.
    change ((casefold ∘ node_key) n ∈ (casefold ∘ node_key) <$> l).
    by apply list_elem_of_fmap_2.
Qed.

Lemma folded_keys_node_of (pairs : list (list byte * list byte)) :
  folded_keys (node_of <$> pairs) = (fun kv => casefold kv.1) <$> pairs.
Proof. unfold folded_keys. rewrite <- list_fmap_compose. done. Qed.

Lemma serialize_empty_counter (m : nns_edge_metadata_s) (w : world) :
  meta_list_len m = 0 →
  nns_edge_metadata_serialize (Some m) true true w
  = Done (NNS_EDGE_ERROR_NONE, None, 0%nat) w.
Proof. intros H. unfold nns_edge_metadata_serialize. simpl. by rewrite H. Qed.

(** The store the pairs build, from the empty store. *)
Lemma set_all_from_empty (pairs : list (list byte * list byte)) (w : world) :
  never_fails w → valid_pairs pairs →
  set_all pairs (Some (Metadata 0 [])) w
  = Done (NNS_EDGE_ERROR_NONE,
          Some (Metadata (Z.of_nat (length pairs) mod UINT_MODULUS)
                         (rev (node_of <$> pairs)))) w.
Proof.
  intros Hw [Hv Hd].
  rewrite (set_all_granted pairs (Metadata 0 []) w Hw Hv).
  - cbn [meta_list length]. by rewrite Nat.add_0_r, app_nil_r.
  - cbn [meta_list folded_keys fmap list_fmap]. by rewrite app_nil_r.
  - apply list_len_ok_empty.
Qed.

(** C2, amended. A store is built from the empty store by setting pairs
    of non-empty strings whose keys differ even when case is ignored, with
    an allocator that grants; the number of pairs is not a multiple of
    2^32. Then serialize succeeds and gives a blob, deserializing the blob
    into any store succeeds, and in the store so obtained get answers the
    original value for every original key. *)
Theorem C2_round_trip (pairs : list (list byte * list byte))
    (dest : nns_edge_metadata_s) (w : world) :
  never_fails w →
  valid_pairs pairs →
  Z.of_nat (length pairs) mod UINT_MODULUS ≠ 0 →
  ∃ store blob store',
    set_all pairs (Some (Metadata 0 [])) w = Done (NNS_EDGE_ERROR_NONE, Some store) w
    ∧ nns_edge_metadata_serialize (Some store) true true w
      = Done (NNS_EDGE_ERROR_NONE, Some blob, length blob) w
    ∧ nns_edge_metadata_deserialize (Some dest) (Some blob) (length blob) w
      = Done (NNS_EDGE_ERROR_NONE, Some store') w
    ∧ ∀ k v, (k, v) ∈ pairs →
        nns_edge_metadata_get (Some store') (Some k) true w
        = Done (NNS_EDGE_ERROR_NONE, Some v) w.
Proof.
  intros Hw Hp Hn. pose proof Hp as [Hv Hd].
  set (len := Z.of_nat (length pairs) mod UINT_MODULUS) in *.
  set (nodes := rev (node_of <$> pairs)).
  exists (Metadata len nodes), (uint_store len ++ serialize_pairs nodes),
    (Metadata len (node_of <$> pairs)).
  assert (Forall valid_node nodes) as Hvn.
  { subst nodes. apply Forall_rev, Forall_fmap. exact Hv. }
  assert (NoDup (folded_keys (node_of <$> pairs))) as Hdn
    by (by rewrite folded_keys_node_of).
  split; [by apply set_all_from_empty |]. split; [|split].
  - rewrite nns_edge_metadata_serialize_eq by done.
    by rewrite never_fails_granted, never_fails_after_alloc.
  - unfold nns_edge_metadata_deserialize.
    replace (length (uint_store len ++ serialize_pairs nodes) <=? 0)%nat with false
      by (symmetry; apply Nat.leb_gt; rewrite length_app; simpl; lia).
    rewrite uint_load_store
      by (apply Z.mod_pos_bound; unfold UINT_MODULUS; lia).
    change (deref (Some len)) with (ret len). rewrite bind_ret.
    pose proof (deserialize_loop_serialized nodes [] (uint_store len)
                  (length (uint_store len ++ serialize_pairs nodes)) w Hw Hvn) as Hl.
    cbn zeta in Hl. cbn [length] in Hl. rewrite Nat.add_0_r, app_nil_r in Hl.
    assert (length nodes = length pairs) as Hln
      by (subst nodes; by rewrite length_rev, length_fmap).
    rewrite Hln in Hl. fold len in Hl.
    subst nodes. rewrite rev_involutive, app_nil_r in Hl.
    exact (Hl ltac:(unfold folded_keys in *; by rewrite <- Permutation_rev)
              ltac:(rewrite length_app;
                    pose proof (length_serialize_pairs (rev (node_of <$> pairs)));
                    rewrite length_rev, length_fmap in *; lia)).
  - intros k v Hkv.
    assert (valid_string k) as Hk.
    { rewrite Forall_forall in Hv. by destruct (Hv _ Hkv). }
    assert (valid_string v) as Hval.
    { rewrite Forall_forall in Hv. by destruct (Hv _ Hkv). }
    destruct (find_node_NoDup (node_of <$> pairs) (node_of (k, v)) Hdn) as (i & Hf & Hi).
    { by apply list_elem_of_fmap_2. }
    rewrite (nns_edge_metadata_get_found _ _ i (node_of (k, v)));
      [| by apply valid_string_STR_IS_VALID | done | done].
    simpl. rewrite (valid_string_c_str _ Hval).
    unfold get_answer. by rewrite never_fails_granted, never_fails_after_alloc.
Qed.

(** C2, amended, on the pairs ("k", "v") and ("Key2", "x"). *)
Lemma C2_round_trip_witness :
  let pairs := [(bytes "k", bytes "v"); (bytes "Key2", bytes "x")] in
  (never_fails empty_world ∧ valid_pairs pairs
   ∧ Z.of_nat (length pairs) mod UINT_MODULUS ≠ 0)
  ∧ ∃ store blob store',
      set_all pairs (Some (Metadata 0 [])) empty_world
      = Done (NNS_EDGE_ERROR_NONE, Some store) empty_world
      ∧ nns_edge_metadata_serialize (Some store) true true empty_world
        = Done (NNS_EDGE_ERROR_NONE, Some blob, length blob) empty_world
      ∧ nns_edge_metadata_deserialize (Some (Metadata 0 [])) (Some blob) (length blob)
          empty_world
        = Done (NNS_EDGE_ERROR_NONE, Some store') empty_world
      ∧ ∀ k v, (k, v) ∈ pairs →
          nns_edge_metadata_get (Some store') (Some k) true empty_world
          = Done (NNS_EDGE_ERROR_NONE, Some v) empty_world.
Proof.
  intros pairs.
  assert (valid_pairs pairs) as Hp.
  { split.
    - repeat constructor; simpl; try discriminate;
        apply (bool_decide_unpack _); reflexivity.
    - apply (bool_decide_unpack _). reflexivity. }
  assert (Z.of_nat (length pairs) mod UINT_MODULUS ≠ 0) as Hn by discriminate.
  split; [split; [reflexivity | split; [exact Hp | exact Hn]] |].
  exact (C2_round_trip pairs (Metadata 0 []) empty_world eq_refl Hp Hn).
Defined.

(** ** Stores of any size *)

Lemma pos_key_inj : Inj eq eq pos_key.
Proof.
  intros p. induction p as [p IH|p IH|]; intros [q|q|]; simpl; intros E;
    try discriminate E.
  - injection E as E. f_equal. by apply IH.
  - injection E as E. by destruct p.
  - injection E as E. f_equal. by apply IH.
  - injection E as E. by destruct q.
  - done.
Qed.

Lemma pos_key_valid (p : positive) : valid_string (pos_key p).
Proof.
  split; [by destruct p |].
  induction p as [p IH|p IH|]; simpl; rewrite ?not_elem_of_cons;
    repeat split; try discriminate; try done.
  apply not_elem_of_nil.
Qed.

Lemma casefold_pos_key (p : positive) : casefold (pos_key p) = pos_key p.
Proof.
  induction p as [p IH|p IH|]; simpl.
  - rewrite casefold_cons by discriminate. by rewrite IH.
  - rewrite casefold_cons by discriminate. by rewrite IH.
  - reflexivity.
Qed.

Lemma numbered_pairs_valid (n : nat) : valid_pairs (numbered_pairs n).
Proof.
  unfold numbered_pairs. split.
  - apply Forall_fmap, Forall_forall. intros i _. simpl. split.
    + apply pos_key_valid.
    + split; [discriminate |]. apply (bool_decide_unpack _). reflexivity.
  - rewrite <- list_fmap_compose. apply NoDup_fmap_2; [|apply NoDup_seq].
    intros i j E. simpl in E. unfold nat_key in E.
    rewrite !casefold_pos_key in E.
    apply pos_key_inj in E. by apply SuccNat2Pos.inj.
Qed.

Lemma length_numbered_pairs (n : nat) : length (numbered_pairs n) = n.
Proof. unfold numbered_pairs. by rewrite length_fmap, length_seq. Qed.

(** The store built from [n] numbered pairs holds [n] nodes, and its
    counter holds [n] modulo 2^32. *)
Lemma numbered_store (n : nat) (w : world) :
  never_fails w →
  ∃ store, set_all (numbered_pairs n) (Some (Metadata 0 [])) w
           = Done (NNS_EDGE_ERROR_NONE, Some store) w
           ∧ meta_list_len store = Z.of_nat n mod UINT_MODULUS
           ∧ length (meta_list store) = n.
Proof.
  intros Hw. eexists. split.
  - apply set_all_from_empty; [done | apply numbered_pairs_valid].
  - cbn [meta_list_len meta_list].
    by rewrite length_rev, length_fmap, !length_numbered_pairs.
Qed.

Lemma UINT_MODULUS_to_nat : Z.of_nat (Z.to_nat UINT_MODULUS) = UINT_MODULUS.
Proof. apply Z2Nat.id. by unfold UINT_MODULUS. Qed.

Lemma numbered_pairs_first (n : nat) :
  (0 < n)%nat → (nat_key 0, bytes "v") ∈ numbered_pairs n.
Proof.
  intros Hn. unfold numbered_pairs.
  apply (list_elem_of_fmap_2 (fun i => (nat_key i, bytes "v"))).
  apply elem_of_seq. lia.
Qed.

(** C2 as stated fails on a store of 2^32 pairs: its counter has wrapped
    to 0, serialize takes the store for an empty one and succeeds with no
    blob, deserialize refuses that absent blob and leaves the target store
    as it was, and in a target that was empty get does not find the first
    key. *)
Lemma C2_round_trip_counterexample :
  let pairs := numbered_pairs (Z.to_nat UINT_MODULUS) in
  valid_pairs pairs
  ∧ (nat_key 0, bytes "v") ∈ pairs
  ∧ ∃ store,
      set_all pairs (Some (Metadata 0 [])) empty_world
      = Done (NNS_EDGE_ERROR_NONE, Some store) empty_world
      ∧ nns_edge_metadata_serialize (Some store) true true empty_world
        = Done (NNS_EDGE_ERROR_NONE, None, 0%nat) empty_world
      ∧ nns_edge_metadata_deserialize (Some (Metadata 0 [])) None 0 empty_world
        = Done (NNS_EDGE_ERROR_INVALID_PARAMETER, Some (Metadata 0 [])) empty_world
      ∧ nns_edge_metadata_get (Some (Metadata 0 [])) (Some (nat_key 0)) true empty_world
        = Done (NNS_EDGE_ERROR_INVALID_PARAMETER, None) empty_world.
Proof.
  intros pairs. split; [apply numbered_pairs_valid |]. split.
  - apply numbered_pairs_first.
    apply Nat2Z.inj_lt. rewrite UINT_MODULUS_to_nat. by unfold UINT_MODULUS.
  - destruct (numbered_store (Z.to_nat UINT_MODULUS) empty_world eq_refl)
      as (store & Hs & Hlen & _).
    exists store. split; [exact Hs |]. split; [|split].
    + apply serialize_empty_counter.
      rewrite Hlen, UINT_MODULUS_to_nat. apply Z_mod_same_full.
    + reflexivity.
    + reflexivity.
Qed.

(** C10 as stated fails after the set that links node number 2^32 into a
    store: all sets succeeded, the list holds 2^32 nodes, and the counter,
    an unsigned int, is back to 0. *)
Lemma C10_list_len_counterexample :
  ∃ store,
    set_all (numbered_pairs (Z.to_nat UINT_MODULUS)) (Some (Metadata 0 [])) empty_world
    = Done (NNS_EDGE_ERROR_NONE, Some store) empty_world
    ∧ meta_list_len store = 0
    ∧ Z.of_nat (length (meta_list store)) = UINT_MODULUS
    ∧ meta_list_len store ≠ Z.of_nat (length (meta_list store)).
Proof.
  destruct (numbered_store (Z.to_nat UINT_MODULUS) empty_world eq_refl)
    as (store & Hs & Hlen & Hn).
  rewrite UINT_MODULUS_to_nat, Z_mod_same_full in Hlen.
  exists store. split; [exact Hs |]. split; [exact Hlen |].
  rewrite Hn, UINT_MODULUS_to_nat, Hlen. split; [reflexivity |].
  by unfold UINT_MODULUS.
Qed.

Lemma nns_edge_metadata_serialize_blob (m : nns_edge_metadata_s) (w w' : world)
    (r : nns_edge_error_e) (blob : list byte) (n : nat) :
  nns_edge_metadata_serialize (Some m) true true w = Done (r, Some blob, n) w' →
  r = NNS_EDGE_ERROR_NONE
  ∧ blob = uint_store (meta_list_len m) ++ serialize_pairs (meta_list m)
  ∧ n = length blob.
Proof.
  unfold nns_edge_metadata_serialize. simpl.
  destruct (meta_list_len m =? 0); [done |].
  unfold bind. rewrite malloc_value_eq.
  destruct (granted w); simpl; [|done].
  intros [= <- <- <- <-]. by rewrite serialize_total_eq.
Qed.

Lemma set_result_counts (m : nns_edge_metadata_s) (k v : list byte) :
  match find_node (meta_list m) k with
  | Some _ =>
      length (meta_list (set_result m k v)) = length (meta_list m)
      ∧ meta_list_len (set_result m k v) = meta_list_len m
  | None =>
      length (meta_list (set_result m k v)) = S (length (meta_list m))
      ∧ meta_list_len (set_result m k v) = uint_incr (meta_list_len m)
  end.
Proof.
  unfold set_result. destruct (find_node (meta_list m) k); simpl; [|done].
  by rewrite length_set_node_value.
Qed.

(** C10, amended. [list_len] is an unsigned int, so it holds the number
    of nodes modulo 2^32, and the number itself while that is below 2^32.
    This is true of the store init and free leave, and every operation
    that returns keeps it true: set (which moves the counter only when it
    links a new node, by one, and leaves it alone when it replaces a
    value), copy into the store, deserialize into the store. Get and
    serialize have no way to change the store. The count field of the
    blob serialize builds is the counter, that is, the number of pairs
    the blob holds modulo 2^32. *)
Theorem C10_list_len_counts (m : nns_edge_metadata_s) :
  list_len_ok m →
  (Z.of_nat (length (meta_list m)) < UINT_MODULUS →
   meta_list_len m = Z.of_nat (length (meta_list m)))
  ∧ (∃ m0, nns_edge_metadata_init (Some m) = (NNS_EDGE_ERROR_NONE, Some m0)
           ∧ list_len_ok m0 ∧ meta_list m0 = [])
  ∧ (∃ m0, nns_edge_metadata_free (Some m) = (NNS_EDGE_ERROR_NONE, Some m0)
           ∧ list_len_ok m0 ∧ meta_list m0 = [])
  ∧ (∀ key value w r meta' w',
       nns_edge_metadata_set (Some m) (Some key) (Some value) w = Done (r, meta') w' →
       ∃ m', meta' = Some m' ∧ list_len_ok m'
             ∧ (r ≠ NNS_EDGE_ERROR_NONE → m' = m)
             ∧ (r = NNS_EDGE_ERROR_NONE →
                match find_node (meta_list m) key with
                | Some _ => length (meta_list m') = length (meta_list m)
                            ∧ meta_list_len m' = meta_list_len m
                | None => length (meta_list m') = S (length (meta_list m))
                          ∧ meta_list_len m' = uint_incr (meta_list_len m)
                end))
  ∧ (∀ src w r meta' w',
       nns_edge_metadata_copy (Some m) (Some src) w = Done (r, meta') w' →
       ∃ m', meta' = Some m' ∧ list_len_ok m')
  ∧ (∀ data data_len w r meta' w',
       nns_edge_metadata_deserialize (Some m) data data_len w = Done (r, meta') w' →
       ∃ m', meta' = Some m' ∧ list_len_ok m')
  ∧ (∀ w r blob n w',
       nns_edge_metadata_serialize (Some m) true true w = Done (r, Some blob, n) w' →
       blob = uint_store (Z.of_nat (length (meta_list m)) mod UINT_MODULUS)
              ++ serialize_pairs (meta_list m)
       ∧ uint_load blob = Some (Z.of_nat (length (meta_list m)) mod UINT_MODULUS)).
Proof.
  intros Hok. split; [|split; [|split; [|split; [|split; [|split]]]]].
  - intros Hlt. rewrite Hok. apply Z.mod_small. lia.
  - by exists (Metadata 0 []).
  - by exists (Metadata 0 []).
  - intros key value w r meta' w' H.
    destruct (nns_edge_metadata_set_outcome m (Some key) (Some value) w)
      as (r1 & w1 & Hs & _).
    rewrite Hs in H. injection H as -> <- <-. simpl.
    destruct (decide (r = NNS_EDGE_ERROR_NONE)) as [->|Hne].
    + exists (set_result m key value). split; [done |].
      split; [by apply list_len_ok_set_result |]. split; [done |].
      intros _. apply set_result_counts.
    + exists m. by repeat split.
  - intros src w r meta' w' H.
    destruct (nns_edge_metadata_copy_outcome m src w)
      as (r1 & d & w1 & Hc & Hfail & Hsucc & _).
    rewrite Hc in H. injection H as -> <- <-. exists d. split; [done |].
    destruct (decide (r = NNS_EDGE_ERROR_NONE)) as [E|E].
    + by apply Hsucc.
    + by rewrite (Hfail E).
  - intros data data_len w r meta' w' H.
    apply nns_edge_metadata_deserialize_outcome in H as (m' & -> & Hm' & _).
    exists m'. split; [done | by apply Hm'].
  - intros w r blob n w' H.
    apply nns_edge_metadata_serialize_blob in H as (_ & -> & _).
    rewrite Hok. split; [done |].
    apply uint_load_store. apply Z.mod_pos_bound. by unfold UINT_MODULUS.
Qed.

(** C10, amended, on the store that holds the pair ("k", "v"). *)
Lemma C10_list_len_counts_witness :
  let kv := Metadata 1 [MetaNode (bytes "k") (bytes "v")] in
  list_len_ok kv
  ∧ (Z.of_nat (length (meta_list kv)) < UINT_MODULUS →
     meta_list_len kv = Z.of_nat (length (meta_list kv))).
Proof.
  intros kv. split; [reflexivity |].
  exact (proj1 (C10_list_len_counts kv eq_refl)).
Defined.

(** ** Copying an edge data object when the allocator grants *)

Lemma malloc_granted (init : cell) (w : world) :
  never_fails w →
  malloc init w
  = Done (Some (fresh (dom (heap w))))
         (World (<[fresh (dom (heap w)) := init]> (heap w)) [] (released w)).
Proof. unfold never_fails, malloc. by intros ->. Qed.

Lemma fresh_not_live (w : world) : heap w !! fresh (dom (heap w)) = None.
Proof. apply not_elem_of_dom, is_fresh. Qed.

Lemma nns_edge_memdup_granted (w : world) (q : addr) (content : list byte) (size : N) :
  never_fails w →
  heap w !! q = Some (Bytes content) →
  (0 < size)%N → (N.to_nat size ≤ length content)%nat →
  nns_edge_memdup (Some q) size w
  = Done (Some (fresh (dom (heap w))))
         (World (<[fresh (dom (heap w)) := Bytes (take (N.to_nat size) content)]> (heap w))
                [] (released w)).
Proof.
  intros Hw Hq Hs Hl. unfold nns_edge_memdup.
  destruct (N.ltb_spec 0 size); [|lia].
  rewrite (bind_Done _ _ _ _ _ (malloc_granted _ _ Hw)).
  set (d := fresh (dom (heap w))).
  assert (q ≠ d) as Hne.
  { intros ->. pose proof (fresh_not_live w) as Hf. fold d in Hf. congruence. }
  set (w1 := World (<[d := Bytes []]> (heap w)) [] (released w)).
  assert (heap w1 !! q = Some (Bytes content)) as Hq1
    by (simpl; by rewrite lookup_insert_ne).
  assert (heap w1 !! d = Some (Bytes [])) as Hd1 by (simpl; apply lookup_insert_eq).
  rewrite (bind_Done _ _ _ _ _ (load_bytes_eq _ _ _ Hq1)).
  destruct (Nat.leb_spec (N.to_nat size) (length content)); [|lia].
  rewrite (bind_Done _ _ _ _ _ (store_eq _ _ _ _ Hd1)).
  simpl. by rewrite insert_insert_eq.
Qed.

Section copy.
Context `{header : edge_header}.

Lemma data_copy_entry_granted (w wi : world) (ed c : nns_edge_data_s)
    (copied : addr) (i : Z) :
  never_fails wi →
  buffers_live w ed →
  (∀ a x, heap w !! a = Some x → heap wi !! a = Some x) →
  heap w !! copied = None →
  heap wi !! copied = Some (DataObj c) →
  length (ed_data c) = length (ed_data ed) →
  0 ≤ i < ed_num ed → (Z.to_nat i < length (ed_data ed))%nat →
  ∃ entry q dup content,
    ed_data ed !! Z.to_nat i = Some entry
    ∧ raw_data entry = Some q
    ∧ heap w !! q = Some (Bytes content)
    ∧ heap wi !! dup = None
    ∧ data_copy_entry ed copied i wi
      = Done tt
          (World (<[copied := DataObj
                      (EdgeData (ed_magic c) (ed_num c)
                         (<[Z.to_nat i := RawData (Some dup) (raw_data_len entry)
                                            (Some cb_nns_edge_free)]> (ed_data c))
                         (ed_metadata c))]>
                    (<[dup := Bytes (take (N.to_nat (raw_data_len entry)) content)]>
                       (heap wi)))
                 [] (released wi)).
Proof.
  intros Hw Hlive Hext Hnew Hc Hlen Hi Hlt.
  destruct (lookup_lt_is_Some_2 (ed_data ed) (Z.to_nat i) Hlt) as [entry He].
  destruct (Hlive i entry Hi He) as (q & content & Hq & Hcont & Hpos & Hsz).
  exists entry, q, (fresh (dom (heap wi))), content.
  split; [done |]. split; [done |]. split; [done |].
  split; [apply fresh_not_live |].
  unfold data_copy_entry, index.
  destruct (Z.ltb_spec i 0); [lia |].
  rewrite He. change (deref (Some entry)) with (ret entry). rewrite bind_ret.
  rewrite Hq.
  rewrite (bind_Done _ _ _ _ _
             (nns_edge_memdup_granted wi q content _ Hw (Hext _ _ Hcont) Hpos Hsz)).
  set (dup := fresh (dom (heap wi))).
  assert (copied ≠ dup) as Hne.
  { intros ->. pose proof (fresh_not_live wi) as Hf. fold dup in Hf. congruence. }
  match goal with |- bind _ _ ?w0 = _ => set (w1 := w0) end.
  assert (heap w1 !! copied = Some (DataObj c)) as Hc1
    by (simpl; by rewrite lookup_insert_ne).
  rewrite (bind_Done _ _ _ _ _ (load_data_eq _ _ _ Hc1)).
  unfold assign.
  destruct (Z.leb_spec 0 i); [|lia].
  destruct (Z.ltb_spec i (Z.of_nat (length (ed_data c)))); [|lia].
  simpl. rewrite bind_ret.
  by rewrite (store_eq _ _ _ _ Hc1).
Qed.

(** The loop of the copy, from entry [i] on, [n] entries to go. *)
Lemma data_copy_loop_granted (n : nat) (w : world) (ed : nns_edge_data_s)
    (copied : addr) (i : Z) (wi : world) (c : nns_edge_data_s) :
  never_fails wi →
  buffers_live w ed →
  (∀ a x, heap w !! a = Some x → heap wi !! a = Some x) →
  heap w !! copied = None →
  heap wi !! copied = Some (DataObj c) →
  length (ed_data c) = length (ed_data ed) →
  0 ≤ i → i + Z.of_nat n = ed_num ed → ed_num ed ≤ Z.of_nat (length (ed_data ed)) →
  (∀ j, 0 ≤ j < i → entry_duplicated w wi ed c j) →
  ∃ wf cf,
    for_loop n i (data_copy_entry ed copied) wi = Done tt wf
    ∧ never_fails wf ∧ released wf = released wi
    ∧ (∀ a x, heap w !! a = Some x → heap wf !! a = Some x)
    ∧ heap wf !! copied = Some (DataObj cf)
    ∧ ed_magic cf = ed_magic c ∧ ed_num cf = ed_num c
    ∧ ed_metadata cf = ed_metadata c
    ∧ (∀ j, 0 ≤ j < ed_num ed → entry_duplicated w wf ed cf j).
Proof.
  revert i wi c. induction n as [|n IH]; intros i wi c Hw Hlive Hext Hnew Hc Hlen Hi Hn Hnum Hdone.
  - exists wi, c. simpl. repeat split; try done.
    intros j Hj. apply Hdone. lia.
  - cbn [for_loop].
    destruct (data_copy_entry_granted w wi ed c copied i Hw Hlive Hext Hnew Hc Hlen
                ltac:(lia) ltac:(lia))
      as (entry & q & dup & content & He & Hq & Hcont & Hdup & Hrun).
    rewrite (bind_Done _ _ _ _ _ Hrun).
    assert (copied ≠ dup) as Hne by congruence.
    assert (heap w !! dup = None) as Hdupw.
    { destruct (heap w !! dup) as [x|] eqn:E; [|done].
      apply Hext in E. congruence. }
    match goal with |- context [for_loop n (i + 1) _ ?w1] => set (wn := w1) end.
    match type of Hrun with
      _ = Done tt (World (<[copied := DataObj ?c1]> _) _ _) => set (cn := c1) in *
    end.
    destruct (IH (i + 1) wn cn) as (wf & cf & Hf & Hwf & Hrel & Hextf & Hcf & Hm & Hnumf & Hmeta & Hall).
    + reflexivity.
    + done.
    + intros a x Ha. subst wn. simpl.
      rewrite lookup_insert_ne by congruence.
      rewrite lookup_insert_ne by congruence. by apply Hext.
    + done.
    + subst wn. simpl. apply lookup_insert_eq.
    + subst cn. simpl. by rewrite length_insert.
    + lia.
    + lia.
    + done.
    + intros j Hj. destruct (decide (j = i)) as [->|Hji].
      * exists entry, q, dup, content. subst wn cn. simpl.
        split; [done |]. split; [done |]. split; [done |].
        split; [apply list_lookup_insert_eq; lia |]. split; [done |].
        rewrite lookup_insert_ne by done. apply lookup_insert_eq.
      * destruct (Hdone j ltac:(lia)) as (e' & q' & d' & c' & H1 & H2 & H3 & H4 & H5 & H6).
        exists e', q', d', c'. subst wn cn. simpl.
        split; [done |]. split; [done |]. split; [done |].
        split; [rewrite list_lookup_insert_ne by lia; done |]. split; [done |].
        rewrite lookup_insert_ne by congruence.
        rewrite lookup_insert_ne by congruence. done.
    + exists wf, cf. split; [done |]. repeat split; try done.
Qed.

End copy.

Lemma metadata_copy_loop_granted (node : list nns_edge_metadata_node_s)
    (tmp : nns_edge_metadata_s) (w : world) :
  never_fails w → Forall valid_node node →
  ∃ tmp', metadata_copy_loop node (Some tmp) w = Done (NNS_EDGE_ERROR_NONE, Some tmp') w.
Proof.
  intros Hw. revert tmp. induction node as [|n next IH]; intros tmp Hv.
  - by exists tmp.
  - apply Forall_cons in Hv as [[Hk Hval] Hv]. cbn [metadata_copy_loop].
    rewrite (bind_Done _ _ _ _ _
               (nns_edge_metadata_set_granted tmp _ _ w Hw
                  (valid_string_STR_IS_VALID _ Hk) (valid_string_STR_IS_VALID _ Hval))).
    rewrite decide_False by (by intros ?). by apply IH.
Qed.

Section copy_object.
Context `{header : edge_header}.

(** X3. The copy of an edge data object when the allocator grants: the
    source world is left as it was, the new handle is a new address, the
    new object is valid, counts as many buffers as the source, and every
    buffer entry is a private duplicate. The code is the one the metadata
    copy gives, success when the keys and values of the source are proper
    strings. *)
Lemma nns_edge_data_copy_granted (w : world) (p : addr) (ed : nns_edge_data_s) :
  never_fails w →
  heap w !! p = Some (DataObj ed) →
  ed_magic ed = NNS_EDGE_MAGIC →
  0 ≤ ed_num ed ≤ Z.of_nat NNS_EDGE_DATA_LIMIT →
  length (ed_data ed) = NNS_EDGE_DATA_LIMIT →
  buffers_live w ed →
  ∃ r new w' c,
    nns_edge_data_copy (Some p) true w = Done (r, Some new) w'
    ∧ heap w !! new = None
    ∧ (∀ a x, heap w !! a = Some x → heap w' !! a = Some x)
    ∧ heap w' !! new = Some (DataObj c)
    ∧ ed_magic c = NNS_EDGE_MAGIC
    ∧ ed_num c = ed_num ed
    ∧ (∀ j, 0 ≤ j < ed_num ed → entry_duplicated w w' ed c j)
    ∧ (Forall valid_node (meta_list (ed_metadata ed)) → r = NNS_EDGE_ERROR_NONE).
Proof.
  intros Hw H Hm Hnum Hlen Hlive.
  unfold nns_edge_data_copy.
  rewrite (bind_Done _ _ _ _ _ (magic_is_valid_data _ _ _ H)).
  rewrite Hm, Z.eqb_refl. simpl.
  rewrite (bind_Done _ _ _ _ _
             (nns_edge_data_create_granted w (never_fails_granted _ Hw))).
  rewrite decide_False by (by intros ?).
  change (deref (Some p)) with (ret p). rewrite bind_ret.
  set (new := fresh (dom (heap w))).
  assert (heap w !! new = None) as Hnew by apply fresh_not_live.
  assert (p ≠ new) as Hpn by congruence.
  unfold never_fails in Hw. rewrite Hw. simpl.
  set (c0 := EdgeData NNS_EDGE_MAGIC 0 (replicate NNS_EDGE_DATA_LIMIT raw_data_zero)
               (Metadata 0 [])).
  set (w1 := World (<[new := DataObj c0]> (heap w)) [] (released w)).
  assert (heap w1 !! p = Some (DataObj ed)) as Hp1
    by (simpl; by rewrite lookup_insert_ne).
  assert (heap w1 !! new = Some (DataObj c0)) as Hn1 by (simpl; apply lookup_insert_eq).
  rewrite (bind_Done _ _ _ _ _ (load_data_eq _ _ _ Hp1)).
  change (deref (Some new)) with (ret new). rewrite bind_ret.
  rewrite (bind_Done _ _ _ _ _ (load_data_eq _ _ _ Hn1)).
  rewrite (bind_Done _ _ _ _ _ (store_eq _ _ _ _ Hn1)).
  simpl. rewrite insert_insert_eq.
  set (c1 := EdgeData NNS_EDGE_MAGIC (ed_num ed)
               (replicate NNS_EDGE_DATA_LIMIT raw_data_zero) (Metadata 0 [])).
  set (w2 := World (<[new := DataObj c1]> (heap w)) [] (released w)).
  destruct (data_copy_loop_granted (Z.to_nat (ed_num ed)) w ed new 0 w2 c1)
    as (wf & cf & Hloop & Hwf & Hrel & Hext & Hcf & Hmf & Hnf & Hmetaf & Hall).
  { reflexivity. }
  { done. }
  { intros a x Ha. simpl. rewrite lookup_insert_ne by congruence. done. }
  { done. }
  { simpl. apply lookup_insert_eq. }
  { simpl. by rewrite length_replicate. }
  { lia. }
  { lia. }
  { lia. }
  { intros j Hj. lia. }
  rewrite (bind_Done _ _ _ _ _ Hloop).
  rewrite (bind_Done _ _ _ _ _ (load_data_eq _ _ _ Hcf)).
  destruct (nns_edge_metadata_copy_outcome (ed_metadata cf) (ed_metadata ed) wf)
    as (r & d & w3 & Hcopy & _ & _ & Hh3 & Hr3).
  rewrite (bind_Done _ _ _ _ _ Hcopy).
  assert (heap w3 !! new = Some (DataObj cf)) as Hc3 by (by rewrite Hh3).
  rewrite (bind_Done _ _ _ _ _ (store_eq _ _ _ _ Hc3)).
  eexists r, new, _, _. split; [reflexivity |]. simpl.
  split; [done |]. split.
  { intros a x Ha. rewrite lookup_insert_ne by congruence. rewrite Hh3. by apply Hext. }
  split; [apply lookup_insert_eq |]. simpl.
  split; [done |]. split; [done |]. split.
  - intros j Hj. destruct (Hall j Hj) as (e & q & dup & content & H1 & H2 & H3 & H4 & H5 & H6).
    exists e, q, dup, content. simpl.
    split; [done |]. split; [done |]. split; [done |]. split; [done |].
    split; [done |].
    rewrite lookup_insert_ne by congruence. by rewrite Hh3.
  - intros Hvalid.
    unfold nns_edge_metadata_copy in Hcopy. simpl in Hcopy.
    destruct (metadata_copy_loop_granted _ (Metadata 0 []) wf Hwf Hvalid) as (tmp' & Hl).
    rewrite (bind_Done _ _ _ _ _ Hl) in Hcopy.
    rewrite decide_False in Hcopy by (by intros ?). by injection Hcopy as <-.
Qed.

End copy_object.

(** ** What holds of the composite operations on failure *)

(** X2. A metadata copy always returns, and when it fails the
    destination holds what it held before. A deserialize that returns a
    failure leaves the store untouched (its arguments were refused) or
    empty (a set failed half way): never partly filled. *)
Theorem metadata_failure_leaves_store_clean :
  (∀ dest src w,
     ∃ r dest' w',
       nns_edge_metadata_copy (Some dest) (Some src) w = Done (r, Some dest') w'
       ∧ (r ≠ NNS_EDGE_ERROR_NONE → dest' = dest))
  ∧ (∀ m data data_len w r meta' w',
       nns_edge_metadata_deserialize (Some m) data data_len w = Done (r, meta') w' →
       r ≠ NNS_EDGE_ERROR_NONE →
       meta' = Some m ∨ meta' = Some (Metadata 0 [])).
Proof.
  split.
  - intros dest src w.
    destruct (nns_edge_metadata_copy_outcome dest src w) as (r & d & w' & H & Hf & _).
    by exists r, d, w'.
  - intros m data data_len w r meta' w' H Hr.
    apply nns_edge_metadata_deserialize_outcome in H as (m' & -> & _ & Hm').
    destruct (Hm' Hr) as [-> | ->]; auto.
Qed.

(** X3 with the sample header: an object that holds the buffer "AB" is
    copied in a world where the allocator grants. *)
Lemma nns_edge_data_copy_granted_witness :
  let ed := EdgeData 0xfeedfeed 1
              (RawData (Some 5%positive) 2 None :: replicate 15 raw_data_zero)
              (Metadata 0 []) in
  let w := World {[ 5%positive := Bytes (bytes "AB"); 6%positive := DataObj ed ]} [] [] in
  ∃ r new w' c,
    @nns_edge_data_copy sample_header (Some 6%positive) true w = Done (r, Some new) w'
    ∧ heap w !! new = None
    ∧ heap w' !! new = Some (DataObj c)
    ∧ ed_num c = 1
    ∧ entry_duplicated w w' ed c 0
    ∧ r = NNS_EDGE_ERROR_NONE.
Proof.
  intros ed w.
  destruct (@nns_edge_data_copy_granted sample_header w 6%positive ed)
    as (r & new & w' & c & Hc & Hnew & _ & Hobj & _ & Hnum & Hdup & Hr).
  - reflexivity.
  - reflexivity.
  - reflexivity.
  - split; discriminate.
  - reflexivity.
  - intros i entry Hi He. assert (i = 0) as -> by (simpl in Hi; lia).
    injection He as <-. exists 5%positive, (bytes "AB").
    split; [reflexivity |]. split; [reflexivity |]. split; [reflexivity |].
    simpl. lia.
  - exists r, new, w', c.
    split; [exact Hc |]. split; [exact Hnew |]. split; [exact Hobj |].
    split; [exact Hnum |]. split; [apply Hdup; split; [discriminate | reflexivity] |].
    apply Hr. constructor.
Defined.

(** * More of the metadata store *)

(** ** What get answers *)

Lemma stored_value_None (m : nns_edge_metadata_s) (k : list byte) :
  stored_value m k = None ↔ casefold k ∉ folded_keys (meta_list m).
Proof.
  unfold stored_value.
  destruct (find_node (meta_list m) k) as [i|] eqn:Hf.
  - destruct (find_node_Some _ _ _ Hf) as (n & Hn & Hk). rewrite Hn. simpl.
    split; [done |]. intros H. exfalso. apply H. unfold folded_keys.
    rewrite Hk. apply (list_elem_of_fmap_2 (fun n => casefold (node_key n))).
    by apply list_elem_of_lookup_2 with i.
  - split; [|done]. intros _. by apply find_node_None in Hf.
Qed.

(** Get, for a key that is present: the code and the string depend on
    the store through [stored_value] only. *)
Lemma nns_edge_metadata_get_eq (m : nns_edge_metadata_s) (k : list byte) (w : world) :
  STR_IS_VALID (Some k) = true →
  nns_edge_metadata_get (Some m) (Some k) true w
  = match stored_value m k with
    | Some v => Done (get_answer (c_str v) w) (after_alloc w)
    | None => Done (NNS_EDGE_ERROR_INVALID_PARAMETER, None) w
    end.
Proof.
  intros Hk. unfold stored_value.
  destruct (find_node (meta_list m) k) as [i|] eqn:Hf.
  - destruct (find_node_Some _ _ _ Hf) as (n & Hn & _). rewrite Hn. simpl.
    by apply nns_edge_metadata_get_found with i.
  - by apply nns_edge_metadata_get_not_found.
Qed.

(** X4. Get fails with InvalidParameter, and asks nothing of the
    allocator, when the store or the out pointer is NULL, when the key is
    absent or empty, and when no key of the store equals it up to case;
    these are the only cases. Otherwise it answers a copy of the value of
    the first node whose key matches, or OutOfMemory when the allocator
    refuses the copy. *)
Theorem nns_edge_metadata_get_answers (m : nns_edge_metadata_s)
    (key : option (list byte)) (value : bool) (w : world) :
  (∀ w', nns_edge_metadata_get None key value w'
         = Done (NNS_EDGE_ERROR_INVALID_PARAMETER, None) w')
  ∧ (value = false ∨ STR_IS_VALID key = false
     ∨ casefold (default [] key) ∉ folded_keys (meta_list m) →
     nns_edge_metadata_get (Some m) key value w
     = Done (NNS_EDGE_ERROR_INVALID_PARAMETER, None) w)
  ∧ (value = true → STR_IS_VALID key = true →
     casefold (default [] key) ∈ folded_keys (meta_list m) →
     ∃ v, stored_value m (default [] key) = Some v
          ∧ nns_edge_metadata_get (Some m) key value w
            = Done (get_answer (c_str v) w) (after_alloc w)
          ∧ fst (get_answer (c_str v) w) ≠ NNS_EDGE_ERROR_INVALID_PARAMETER).
Proof.
  split; [|split].
  - intros w'. unfold nns_edge_metadata_get. by destruct value.
  - intros H. destruct value.
    2: { by unfold nns_edge_metadata_get. }
    destruct (STR_IS_VALID key) eqn:Hk.
    2: { unfold nns_edge_metadata_get, nns_edge_metadata_find. simpl. by rewrite Hk. }
    destruct H as [H | [H | H]]; [done.. |].
    destruct key as [k|]; [|done]. simpl in H.
    rewrite nns_edge_metadata_get_eq by done.
    by rewrite (proj2 (stored_value_None m k) H).
  - intros -> Hk Hin. destruct key as [k|]; [|done]. simpl in *.
    destruct (stored_value m k) as [v|] eqn:Hv.
    + exists v. split; [done |]. rewrite nns_edge_metadata_get_eq, Hv by done.
      split; [done |]. unfold get_answer. by destruct (granted w).
    + apply stored_value_None in Hv. done.
Qed.

(** ** What set leaves alone *)

Lemma stored_value_set_result_ne (m : nns_edge_metadata_s) (k v k2 : list byte) :
  casefold k2 ≠ casefold k →
  stored_value (set_result m k v) k2 = stored_value m k2.
Proof.
  intros Hne. unfold stored_value, set_result.
  destruct (find_node (meta_list m) k) as [i|] eqn:Hf; simpl.
  - rewrite find_node_set_node_value by exact k.
    destruct (find_node (meta_list m) k2) as [j|] eqn:Hj; [|done].
    destruct (find_node_Some _ _ _ Hf) as (n & Hn & Hk).
    destruct (find_node_Some _ _ _ Hj) as (n2 & Hn2 & Hk2).
    unfold set_node_value. rewrite list_lookup_alter_ne; [done |].
    intros ->. congruence.
  - rewrite strcasecmp_eqb, casefold_c_str, bool_decide_eq_false_2 by done.
    by destruct (find_node (meta_list m) k2).
Qed.

Lemma stored_value_set_result (m : nns_edge_metadata_s) (k v : list byte) :
  stored_value (set_result m k v) k = Some (c_str v).
Proof.
  unfold stored_value.
  destruct (find_node_set_result m k v) as (i & n & -> & -> & <-). done.
Qed.

(** The codes of set. *)
Lemma nns_edge_metadata_set_codes (m : nns_edge_metadata_s)
    (key value : option (list byte)) (w w' : world) (r : nns_edge_error_e)
    (meta' : option nns_edge_metadata_s) :
  nns_edge_metadata_set (Some m) key value w = Done (r, meta') w' →
  (r = NNS_EDGE_ERROR_INVALID_PARAMETER
   ↔ STR_IS_VALID key = false ∨ STR_IS_VALID value = false)
  ∧ (r = NNS_EDGE_ERROR_INVALID_PARAMETER → w' = w)
  ∧ (r = NNS_EDGE_ERROR_OUT_OF_MEMORY → ¬ never_fails w).
Proof.
  unfold nns_edge_metadata_set.
  destruct (STR_IS_VALID key) eqn:Hk; simpl.
  2: { intros [= <- <- <-]. split; [split; auto |]. split; done. }
  destruct (STR_IS_VALID value) eqn:Hv; simpl.
  2: { intros [= <- <- <-]. split; [split; auto |]. split; done. }
  destruct key as [k|]; [|done]. destruct value as [v|]; [|done].
  unfold nns_edge_metadata_find. rewrite Hk. simpl.
  destruct (find_node (meta_list m) k) as [i|].
  - unfold bind. rewrite nns_edge_strdup_eq.
    destruct (granted w) eqn:Hg; intros [= <- <- <-];
      (split; [split; [done | by intros [? | ?]] |]); split; try done.
    intros _ Hw. apply never_fails_granted in Hw. congruence.
  - unfold bind. rewrite malloc_value_eq.
    destruct (granted w) eqn:Hg; simpl.
    + rewrite !nns_edge_strdup_eq.
      destruct (granted (after_alloc w)) eqn:Hg1;
        destruct (granted (after_alloc (after_alloc w))) eqn:Hg2;
        intros [= <- <- <-];
        (split; [split; [done | by intros [? | ?]] |]); split; try done;
        intros _ Hw; never_fails_facts; congruence.
    + intros [= <- <- <-].
      split; [split; [done | by intros [? | ?]] |]. split; [done |].
      intros _ Hw. apply never_fails_granted in Hw. congruence.
Qed.

Lemma refused_within_0 (w : world) : ¬ refused_within 0 w.
Proof. unfold refused_within. rewrite take_0. apply not_elem_of_nil. Qed.

Lemma refused_within_S (n : nat) (w : world) :
  refused_within (S n) w ↔ granted w = false ∨ refused_within n (after_alloc w).
Proof.
  unfold refused_within, granted, after_alloc.
  destruct (oracle w) as [|b o]; cbn [next_answer fst snd oracle].
  - rewrite !take_nil. split; [intros H; by apply elem_of_nil in H |].
    intros [H | H]; [done | by apply elem_of_nil in H].
  - rewrite firstn_cons, elem_of_cons. split; intros [H | H]; auto.
Qed.

(** Set fails with OutOfMemory exactly when one of the requests it makes
    is refused. *)
Lemma nns_edge_metadata_set_oom (m : nns_edge_metadata_s)
    (key value : option (list byte)) (w w' : world) (r : nns_edge_error_e)
    (meta' : option nns_edge_metadata_s) :
  nns_edge_metadata_set (Some m) key value w = Done (r, meta') w' →
  (r = NNS_EDGE_ERROR_OUT_OF_MEMORY
   ↔ STR_IS_VALID key = true ∧ STR_IS_VALID value = true
     ∧ refused_within (set_requests m (default [] key)) w).
Proof.
  unfold nns_edge_metadata_set.
  destruct (STR_IS_VALID key) eqn:Hk; cbn [negb].
  2: { intros [= <- <- <-]. split; [done | by intros (? & _)]. }
  destruct (STR_IS_VALID value) eqn:Hv; cbn [negb].
  2: { intros [= <- <- <-]. split; [done | by intros (_ & ? & _)]. }
  destruct key as [k|]; [|done]. destruct value as [v|]; [|done].
  unfold nns_edge_metadata_find, set_requests. rewrite Hk. simpl.
  destruct (find_node (meta_list m) k) as [i|].
  - unfold bind. rewrite nns_edge_strdup_eq.
    rewrite refused_within_S.
    pose proof (refused_within_0 (after_alloc w)) as H0.
    destruct (granted w) eqn:Hg; intros [= <- <- <-].
    + split; [done |]. intros (_ & _ & [? | ?]); done.
    + split; [|done]. intros _. split; [done |]. split; [done |]. by left.
  - unfold bind. rewrite malloc_value_eq.
    rewrite !refused_within_S.
    pose proof (refused_within_0 (after_alloc (after_alloc (after_alloc w)))) as H0.
    destruct (granted w) eqn:Hg; cbn [negb].
    + rewrite !nns_edge_strdup_eq.
      destruct (granted (after_alloc w)) eqn:Hg1;
        destruct (granted (after_alloc (after_alloc w))) eqn:Hg2;
        intros [= <- <- <-];
        (split;
         [first [done
                | intros _; split; [done |]; split; [done |]; right; tauto]
         | first [done | intros (_ & _ & [? | [? | [? | ?]]]); done]]).
    + intros [= <- <- <-]. split; [|done].
      intros _. split; [done |]. split; [done |]. by left.
Qed.

Lemma stored_value_casefold (m : nns_edge_metadata_s) (k k' : list byte) :
  casefold k = casefold k' → stored_value m k = stored_value m k'.
Proof. intros E. unfold stored_value. by rewrite (find_node_casefold _ _ _ E). Qed.

(** X5. A set that returns leaves a store behind. It fails with
    InvalidParameter exactly when the key or the value is absent or
    empty, and then asks nothing of the allocator; it fails with
    OutOfMemory exactly when key and value are valid and the allocator
    refuses one of the requests the call makes (one for a key the store
    has, up to three otherwise); on any failure the store is what it was.
    On success get of the key, in whatever case it is spelled, answers the
    new value, and whatever the outcome, get of a key that differs from it
    even up to case answers what it answered before. *)
Theorem nns_edge_metadata_set_frame (m : nns_edge_metadata_s)
    (key value : option (list byte)) (w w' : world) (r : nns_edge_error_e)
    (meta' : option nns_edge_metadata_s) :
  nns_edge_metadata_set (Some m) key value w = Done (r, meta') w' →
  ∃ m', meta' = Some m'
    ∧ (r ≠ NNS_EDGE_ERROR_NONE → m' = m)
    ∧ (r = NNS_EDGE_ERROR_INVALID_PARAMETER
       ↔ STR_IS_VALID key = false ∨ STR_IS_VALID value = false)
    ∧ (r = NNS_EDGE_ERROR_INVALID_PARAMETER → w' = w)
    ∧ (r = NNS_EDGE_ERROR_OUT_OF_MEMORY
       ↔ STR_IS_VALID key = true ∧ STR_IS_VALID value = true
         ∧ refused_within (set_requests m (default [] key)) w)
    ∧ (r = NNS_EDGE_ERROR_NONE →
       ∀ k2 w2, casefold k2 = casefold (default [] key) →
         nns_edge_metadata_get (Some m') (Some k2) true w2
         = Done (get_answer (c_str (default [] value)) w2) (after_alloc w2))
    ∧ (∀ k2 w2, casefold k2 ≠ casefold (default [] key) →
         nns_edge_metadata_get (Some m') (Some k2) true w2
         = nns_edge_metadata_get (Some m) (Some k2) true w2).
Proof.
  intros H. pose proof (nns_edge_metadata_set_codes _ _ _ _ _ _ _ H) as (Hinv & Hw & _).
  pose proof (nns_edge_metadata_set_oom _ _ _ _ _ _ _ H) as Hoom.
  destruct (nns_edge_metadata_set_outcome m key value w) as (r1 & w1 & Hs & Hval & _).
  rewrite Hs in H. injection H as -> <- <-.
  eexists. split; [reflexivity |].
  destruct (decide (r = NNS_EDGE_ERROR_NONE)) as [->|Hne].
  - destruct (Hval eq_refl) as [Hk Hv].
    destruct key as [k|]; [|done]. destruct value as [v|]; [|done]. cbn [default] in *.
    split; [done |]. split; [done |]. split; [done |]. split; [done |]. split.
    + intros _ k2 w2 Hk2.
      rewrite nns_edge_metadata_get_eq by (by apply (STR_IS_VALID_casefold k)).
      rewrite (stored_value_casefold _ _ _ Hk2).
      rewrite stored_value_set_result. by rewrite c_str_idemp.
    + intros k2 w2 Hk2.
      destruct (STR_IS_VALID (Some k2)) eqn:Hv2.
      * rewrite !nns_edge_metadata_get_eq by done.
        by rewrite stored_value_set_result_ne.
      * unfold nns_edge_metadata_get, nns_edge_metadata_find. simpl. by rewrite Hv2.
  - split; [done |]. split; [done |]. split; [done |]. split; [done |].
    split; [done | done].
Qed.

(** X5 on the store that holds ("k", "v"): the key "Other" is set, and
    read back as "OTHER". *)
Lemma nns_edge_metadata_set_frame_witness :
  let m := Metadata 1 [MetaNode (bytes "k") (bytes "v")] in
  let m1 := Metadata 2 [MetaNode (bytes "Other") (bytes "x"); MetaNode (bytes "k") (bytes "v")] in
  nns_edge_metadata_set (Some m) (Some (bytes "Other")) (Some (bytes "x")) empty_world
  = Done (NNS_EDGE_ERROR_NONE, Some m1) empty_world
  ∧ ∃ m', Some m1 = Some m'
    ∧ nns_edge_metadata_get (Some m') (Some (bytes "OTHER")) true empty_world
      = Done (NNS_EDGE_ERROR_NONE, Some (bytes "x")) empty_world
    ∧ ∀ k2 w2, casefold k2 ≠ casefold (bytes "Other") →
        nns_edge_metadata_get (Some m') (Some k2) true w2
        = nns_edge_metadata_get (Some m) (Some k2) true w2.
Proof.
  intros m m1. split; [reflexivity |].
  destruct (nns_edge_metadata_set_frame m (Some (bytes "Other")) (Some (bytes "x"))
              empty_world empty_world NNS_EDGE_ERROR_NONE (Some m1) eq_refl)
    as (m' & Hm & _ & _ & _ & _ & Hget & Hframe).
  exists m'. split; [exact Hm |]. split; [|exact Hframe].
  exact (Hget eq_refl (bytes "OTHER") empty_world eq_refl).
Defined.

(** ** Well formed stores *)

Lemma folded_keys_set_node_value (l : list nns_edge_metadata_node_s)
    (v : list byte) (i : nat) :
  folded_keys (set_node_value i v l) = folded_keys l.
Proof.
  unfold folded_keys, set_node_value. revert i.
  induction l as [|n l IH]; intros i; [done |].
  destruct i as [|i]; [done |].
  change (alter ?f (S i) (n :: l)) with (n :: alter f i l).
  change ((?f <$> n :: ?t) = ?f <$> n :: l) with (f n :: (f <$> t) = f n :: (f <$> l)).
  f_equal. apply IH.
Qed.

Lemma STR_IS_VALID_valid_string (s : list byte) :
  STR_IS_VALID (Some s) = true → valid_string (c_str s).
Proof.
  intros H. split; [by apply STR_IS_VALID_true | apply c_str_no_NUL].
Qed.

Lemma store_ok_empty : store_ok (Metadata 0 []).
Proof. split; [reflexivity |]. split; [constructor | constructor]. Qed.

Lemma store_ok_set_result (m : nns_edge_metadata_s) (k v : list byte) :
  STR_IS_VALID (Some k) = true → STR_IS_VALID (Some v) = true →
  store_ok m → store_ok (set_result m k v).
Proof.
  intros Hk Hv (Hlen & Hvalid & Hd).
  split; [by apply list_len_ok_set_result |].
  unfold set_result. destruct (find_node (meta_list m) k) as [i|] eqn:Hf; simpl.
  - split.
    + unfold set_node_value. apply Forall_alter; [done |].
      intros n Hn. rewrite Forall_forall in Hvalid.
      destruct (Hvalid n (list_elem_of_lookup_2 _ _ _ Hn)) as [Hkey _].
      split; [done | by apply STR_IS_VALID_valid_string].
    + by rewrite folded_keys_set_node_value.
  - split.
    + apply Forall_cons. split; [|done].
      split; by apply STR_IS_VALID_valid_string.
    + change (NoDup (casefold (c_str k) :: folded_keys (meta_list m))).
      apply NoDup_cons. split; [|done].
      rewrite casefold_c_str. by apply find_node_None.
Qed.

Section preserved.
Variable P : nns_edge_metadata_s → Prop.
Hypothesis P_empty : P (Metadata 0 []).
Hypothesis P_set : ∀ m k v,
  STR_IS_VALID (Some k) = true → STR_IS_VALID (Some v) = true →
  P m → P (set_result m k v).

(** What is true of the empty store and kept by every set that goes
    through is true of every store the three writers leave. *)
Lemma set_preserves (m : nns_edge_metadata_s) (key value : option (list byte))
    (w w' : world) (r : nns_edge_error_e) (meta' : option nns_edge_metadata_s) :
  P m → nns_edge_metadata_set (Some m) key value w = Done (r, meta') w' →
  ∃ m', meta' = Some m' ∧ P m'.
Proof.
  intros Hm H.
  destruct (nns_edge_metadata_set_outcome m key value w) as (r1 & w1 & Hs & Hval & _).
  rewrite Hs in H. injection H as -> <- <-.
  eexists. split; [reflexivity |].
  destruct (decide (r = NNS_EDGE_ERROR_NONE)) as [->|Hne]; [|done].
  destruct (Hval eq_refl) as [Hk Hv].
  destruct key as [k|]; [|done]. destruct value as [v|]; [|done].
  by apply P_set.
Qed.

Lemma metadata_copy_loop_preserves (node : list nns_edge_metadata_node_s)
    (tmp : nns_edge_metadata_s) (w w' : world) (r : nns_edge_error_e)
    (meta' : option nns_edge_metadata_s) :
  P tmp → metadata_copy_loop node (Some tmp) w = Done (r, meta') w' →
  ∃ m', meta' = Some m' ∧ P m'.
Proof.
  revert tmp w. induction node as [|n next IH]; intros tmp w Hp H.
  - injection H as <- <- <-. by exists tmp.
  - cbn [metadata_copy_loop] in H.
    apply bind_inv in H as ([r1 tmp1] & w1 & Hs & H).
    destruct (set_preserves _ _ _ _ _ _ _ Hp Hs) as (m1 & -> & Hp1).
    destruct (decide (r1 ≠ NNS_EDGE_ERROR_NONE)).
    + injection H as <- <- <-. by exists (Metadata 0 []).
    + by apply (IH m1 w1).
Qed.

Lemma nns_edge_metadata_copy_preserves (dest : nns_edge_metadata_s)
    (src : option nns_edge_metadata_s) (w w' : world) (r : nns_edge_error_e)
    (meta' : option nns_edge_metadata_s) :
  P dest → nns_edge_metadata_copy (Some dest) src w = Done (r, meta') w' →
  ∃ m', meta' = Some m' ∧ P m'.
Proof.
  intros Hp H. unfold nns_edge_metadata_copy in H.
  destruct src as [s|]; [|injection H as <- <- <-; by exists dest].
  simpl in H. apply bind_inv in H as ([r1 tmp1] & w1 & Hl & H).
  apply metadata_copy_loop_preserves in Hl as (m1 & -> & Hp1); [|done].
  destruct (decide (r1 ≠ NNS_EDGE_ERROR_NONE)); injection H as <- <- <-; eauto.
Qed.

Lemma deserialize_loop_preserves (fuel : nat) (data : list byte) (data_len : nat)
    (total : Z) (cur : nat) (m : nns_edge_metadata_s) (w w' : world)
    (r : nns_edge_error_e) (meta' : option nns_edge_metadata_s) :
  P m → deserialize_loop fuel data data_len total cur (Some m) w = Done (r, meta') w' →
  ∃ m', meta' = Some m' ∧ P m'.
Proof.
  revert cur m w. induction fuel as [|fuel IH]; intros cur m w Hp;
    cbn [deserialize_loop]; change (deref (Some m)) with (ret m); rewrite bind_ret;
    destruct ((cur <? data_len)%nat || (meta_list_len m <? total));
    try done; try (intros [= <- <- <-]; by exists m).
  intros H.
  apply bind_inv in H as (n1 & w1 & _ & H).
  apply bind_inv in H as (n2 & w2 & _ & H).
  apply bind_inv in H as ([r1 meta1] & w3 & Hs & H).
  destruct (set_preserves _ _ _ _ _ _ _ Hp Hs) as (m1 & -> & Hp1).
  destruct (decide (r1 ≠ NNS_EDGE_ERROR_NONE)).
  - injection H as <- <- <-. by exists (Metadata 0 []).
  - by apply (IH _ m1 w3 Hp1 H).
Qed.

Lemma nns_edge_metadata_deserialize_preserves (m : nns_edge_metadata_s)
    (data : option (list byte)) (data_len : nat) (w w' : world)
    (r : nns_edge_error_e) (meta' : option nns_edge_metadata_s) :
  P m → nns_edge_metadata_deserialize (Some m) data data_len w = Done (r, meta') w' →
  ∃ m', meta' = Some m' ∧ P m'.
Proof.
  intros Hp. unfold nns_edge_metadata_deserialize.
  destruct data as [d|]; [|intros [= <- <- <-]; by exists m].
  destruct (data_len <=? 0)%nat; [intros [= <- <- <-]; by exists m |].
  intros H. apply bind_inv in H as (total & w1 & _ & H). simpl in H.
  by apply deserialize_loop_preserves in H.
Qed.

End preserved.

(** X6. The stores the code builds are well formed: the counter counts
    the nodes (modulo 2^32), every key and value is a proper string that
    is not empty, and no two keys are equal up to case. Init and free
    leave such a store, and set, copy and deserialize, whenever they
    return, turn such a store into such a store, whatever their other
    arguments are: the source of the copy need not be well formed, and the
    bytes given to deserialize may be anything. *)
Theorem store_ok_kept (m : nns_edge_metadata_s) :
  store_ok m →
  (∀ m0, nns_edge_metadata_init (Some m) = (NNS_EDGE_ERROR_NONE, Some m0) → store_ok m0)
  ∧ (∀ m0, nns_edge_metadata_free (Some m) = (NNS_EDGE_ERROR_NONE, Some m0) → store_ok m0)
  ∧ (∀ key value w r meta' w',
       nns_edge_metadata_set (Some m) key value w = Done (r, meta') w' →
       ∃ m', meta' = Some m' ∧ store_ok m')
  ∧ (∀ src w r meta' w',
       nns_edge_metadata_copy (Some m) src w = Done (r, meta') w' →
       ∃ m', meta' = Some m' ∧ store_ok m')
  ∧ (∀ data data_len w r meta' w',
       nns_edge_metadata_deserialize (Some m) data data_len w = Done (r, meta') w' →
       ∃ m', meta' = Some m' ∧ store_ok m').
Proof.
  intros Hok. split; [|split; [|split; [|split]]].
  - intros m0 [= <-]. apply store_ok_empty.
  - intros m0 [= <-]. apply store_ok_empty.
  - intros key value w r meta' w'.
    by apply (set_preserves store_ok store_ok_set_result).
  - intros src w r meta' w'.
    by apply (nns_edge_metadata_copy_preserves store_ok store_ok_empty store_ok_set_result).
  - intros data data_len w r meta' w'.
    by apply (nns_edge_metadata_deserialize_preserves store_ok store_ok_empty
                store_ok_set_result).
Qed.

(** X6 on the store that holds ("k", "v"): a blob that repeats a key in
    another case is deserialized into it. *)
Lemma store_ok_kept_witness :
  let m := Metadata 1 [MetaNode (bytes "k") (bytes "v")] in
  store_ok m
  ∧ ∃ m', Some (Metadata 1 [MetaNode (bytes "a") (bytes "c")]) = Some m' ∧ store_ok m'.
Proof.
  intros m.
  assert (store_ok m) as Hok.
  { split; [reflexivity |]. split.
    - repeat constructor; simpl; try discriminate;
        apply (bool_decide_unpack _); reflexivity.
    - apply (bool_decide_unpack _). reflexivity. }
  split; [exact Hok |].
  exact (proj2 (proj2 (proj2 (proj2 (store_ok_kept m Hok))))
           (Some [x00; x00; x00; x00; x61; x00; x62; x00; x41; x00; x63; x00]) 12%nat
           empty_world NNS_EDGE_ERROR_NONE
           (Some (Metadata 1 [MetaNode (bytes "a") (bytes "c")])) empty_world eq_refl).
Defined.

(** ** Copies and round trips turn the list over *)

Lemma stored_value_elem (m : nns_edge_metadata_s) (k : list byte)
    (n : nns_edge_metadata_node_s) :
  NoDup (folded_keys (meta_list m)) → n ∈ meta_list m →
  casefold k = casefold (node_key n) →
  stored_value m k = Some (node_value n).
Proof.
  intros Hd Hn Hk. unfold stored_value.
  rewrite (find_node_casefold _ _ _ Hk).
  destruct (find_node_NoDup _ _ Hd Hn) as (i & -> & ->). done.
Qed.

(** With keys that differ, the place of a node in the list does not show
    in what is stored under a key. *)
Lemma stored_value_Permutation (l1 l2 : list nns_edge_metadata_node_s)
    (c1 c2 : Z) (k : list byte) :
  NoDup (folded_keys l1) → l1 ≡ₚ l2 →
  stored_value (Metadata c1 l1) k = stored_value (Metadata c2 l2) k.
Proof.
  intros Hd Hp.
  assert (folded_keys l1 ≡ₚ folded_keys l2) as Hpk by (by apply fmap_Permutation).
  destruct (stored_value (Metadata c1 l1) k) as [v|] eqn:H1.
  - unfold stored_value in H1. simpl in H1.
    destruct (find_node l1 k) as [i|] eqn:Hf; [|done].
    destruct (find_node_Some _ _ _ Hf) as (n & Hn & Hk).
    rewrite Hn in H1. injection H1 as <-.
    symmetry. apply stored_value_elem; simpl; [by rewrite <- Hpk | | done].
    rewrite <- Hp. by apply list_elem_of_lookup_2 with i.
  - symmetry. apply stored_value_None. apply stored_value_None in H1.
    simpl in *. by rewrite <- Hpk.
Qed.

Lemma store_ok_rev (m : nns_edge_metadata_s) :
  store_ok m → store_ok (Metadata (meta_list_len m) (rev (meta_list m))).
Proof.
  intros (Hlen & Hv & Hd). split; [|split]; simpl.
  - unfold list_len_ok in *. simpl. by rewrite length_rev.
  - by apply Forall_rev.
  - unfold folded_keys in *. by rewrite <- Permutation_rev.
Qed.

Lemma metadata_copy_loop_set_all (node : list nns_edge_metadata_node_s)
    (tmp : option nns_edge_metadata_s) (w w' : world)
    (meta' : option nns_edge_metadata_s) :
  set_all ((fun n => (node_key n, node_value n)) <$> node) tmp w
  = Done (NNS_EDGE_ERROR_NONE, meta') w' →
  metadata_copy_loop node tmp w = Done (NNS_EDGE_ERROR_NONE, meta') w'.
Proof.
  revert tmp w. induction node as [|n next IH]; intros tmp w H; [done |].
  rewrite fmap_cons in H. cbn [set_all metadata_copy_loop] in *. simpl in H.
  apply bind_inv in H as ([r1 tmp1] & w1 & Hs & H).
  rewrite (bind_Done _ _ _ _ _ Hs).
  destruct (decide (r1 ≠ NNS_EDGE_ERROR_NONE)) as [Hr|Hr].
  - injection H as -> _ _. done.
  - by apply IH.
Qed.

Lemma metadata_copy_loop_reverses (src : nns_edge_metadata_s) (w : world) :
  never_fails w → store_ok src →
  metadata_copy_loop (meta_list src) (Some (Metadata 0 [])) w
  = Done (NNS_EDGE_ERROR_NONE,
          Some (Metadata (meta_list_len src) (rev (meta_list src)))) w.
Proof.
  intros Hw (Hlen & Hv & Hd).
  apply metadata_copy_loop_set_all.
  set (pairs := (fun n => (node_key n, node_value n)) <$> meta_list src).
  assert (node_of <$> pairs = meta_list src) as Hnodes.
  { subst pairs. rewrite <- list_fmap_compose.
    rewrite <- (list_fmap_id (meta_list src)) at 2.
    apply list_fmap_ext. intros _ [k v] _. done. }
  rewrite (set_all_granted pairs (Metadata 0 []) w Hw).
  - rewrite Hnodes. cbn [meta_list length]. rewrite Nat.add_0_r, app_nil_r.
    replace (length pairs) with (length (meta_list src))
      by (subst pairs; by rewrite length_fmap).
    by rewrite <- Hlen.
  - subst pairs. apply Forall_fmap. exact Hv.
  - cbn [meta_list folded_keys fmap list_fmap]. rewrite app_nil_r.
    by rewrite <- folded_keys_node_of, Hnodes.
  - apply list_len_ok_empty.
Qed.

Lemma nns_edge_metadata_copy_eq (dest src : nns_edge_metadata_s) (w : world) :
  never_fails w → store_ok src →
  nns_edge_metadata_copy (Some dest) (Some src) w
  = Done (NNS_EDGE_ERROR_NONE,
          Some (Metadata (meta_list_len src) (rev (meta_list src)))) w.
Proof.
  intros Hw Hok. unfold nns_edge_metadata_copy. simpl.
  rewrite (bind_Done _ _ _ _ _ (metadata_copy_loop_reverses src w Hw Hok)).
  by rewrite decide_False by (by intros ?).
Qed.

(** X7. Copying a well formed store with an allocator that grants
    succeeds, leaves the world as it was, and gives the nodes of the source
    in the opposite order with the same counter: every set of the loop puts
    its node in front. What is stored under any key is the same in the copy
    as in the source, and the copy of the copy is the source itself. *)
Theorem nns_edge_metadata_copy_reverses (dest src : nns_edge_metadata_s) (w : world) :
  never_fails w → store_ok src →
  let copy := Metadata (meta_list_len src) (rev (meta_list src)) in
  nns_edge_metadata_copy (Some dest) (Some src) w = Done (NNS_EDGE_ERROR_NONE, Some copy) w
  ∧ (∀ k, stored_value copy k = stored_value src k)
  ∧ (∀ dest2, nns_edge_metadata_copy (Some dest2) (Some copy) w
              = Done (NNS_EDGE_ERROR_NONE, Some src) w).
Proof.
  intros Hw Hok copy. split; [by apply nns_edge_metadata_copy_eq |]. split.
  - intros k. destruct src as [len l]. subst copy. simpl.
    symmetry. apply stored_value_Permutation; [apply Hok | apply Permutation_rev].
  - intros dest2.
    rewrite (nns_edge_metadata_copy_eq dest2 copy w Hw (store_ok_rev src Hok)).
    subst copy. simpl. rewrite rev_involutive. by destruct src.
Qed.

(** X7 on a store of two pairs. *)
Lemma nns_edge_metadata_copy_reverses_witness :
  let src := Metadata 2 [MetaNode (bytes "b") (bytes "2"); MetaNode (bytes "a") (bytes "1")] in
  let copy := Metadata 2 [MetaNode (bytes "a") (bytes "1"); MetaNode (bytes "b") (bytes "2")] in
  never_fails empty_world ∧ store_ok src
  ∧ nns_edge_metadata_copy (Some (Metadata 0 [])) (Some src) empty_world
    = Done (NNS_EDGE_ERROR_NONE, Some copy) empty_world
  ∧ (∀ k, stored_value copy k = stored_value src k)
  ∧ (∀ dest2, nns_edge_metadata_copy (Some dest2) (Some copy) empty_world
              = Done (NNS_EDGE_ERROR_NONE, Some src) empty_world).
Proof.
  intros src copy.
  assert (never_fails empty_world) as Hw by reflexivity.
  assert (store_ok src) as Hok.
  { split; [reflexivity |]. split.
    - repeat constructor; simpl; try discriminate;
        apply (bool_decide_unpack _); reflexivity.
    - apply (bool_decide_unpack _). reflexivity. }
  split; [exact Hw |]. split; [exact Hok |].
  exact (nns_edge_metadata_copy_reverses (Metadata 0 []) src empty_world Hw Hok).
Defined.

(** ** The count field of a blob *)

(** The loop of deserialize over the pairs of a blob, whatever count the
    blob announces: as long as the cursor is inside the buffer a turn is
    made, so the pairs of [rest] are all read. *)
Lemma deserialize_loop_pairs (rest acc : list nns_edge_metadata_node_s)
    (pre : list byte) (fuel : nat) (total : Z) (w : world) :
  never_fails w →
  Forall valid_node rest →
  NoDup (folded_keys (rest ++ acc)) →
  let data := pre ++ serialize_pairs rest in
  deserialize_loop (length rest + fuel) data (length data) total (length pre)
    (Some (Metadata (Z.of_nat (length acc) mod UINT_MODULUS) acc)) w
  = deserialize_loop fuel data (length data) total (length data)
      (Some (Metadata (Z.of_nat (length rest + length acc) mod UINT_MODULUS)
                      (rev rest ++ acc))) w.
Proof.
  intros Hw. revert acc pre.
  induction rest as [|n rest IH]; intros acc pre Hv Hd data.
  - subst data. simpl. by rewrite app_nil_r.
  - apply Forall_cons in Hv as [Hn Hv].
    pose proof Hn as [[Hk1 Hk2] [Hv1 Hv2]].
    unfold folded_keys in Hd. rewrite <- app_comm_cons, fmap_cons in Hd.
    apply NoDup_cons in Hd as [Hnew Hd].
    subst data. rewrite serialize_pairs_cons by done.
    set (tail := serialize_pairs rest).
    change (length (n :: rest) + fuel)%nat with (S (length rest + fuel)).
    cbn [deserialize_loop]. change (deref (Some ?m)) with (ret m). rewrite bind_ret.
    cbn [meta_list_len].
    replace (length pre <? length (pre ++ node_key n ++ NUL :: node_value n ++ NUL :: tail))%nat
      with true.
    2: { symmetry. apply Nat.ltb_lt. rewrite length_app, length_app. simpl. lia. }
    rewrite orb_true_l.
    rewrite drop_app_length.
    rewrite mem_strlen_app_NUL by done.
    change (deref (Some ?x)) with (ret x). rewrite bind_ret.
    replace (drop (length pre + (length (node_key n) + 1))
               (pre ++ node_key n ++ NUL :: node_value n ++ NUL :: tail))
      with (node_value n ++ NUL :: tail).
    2: { replace (pre ++ node_key n ++ NUL :: node_value n ++ NUL :: tail)
           with ((pre ++ node_key n ++ [NUL]) ++ node_value n ++ NUL :: tail)
           by (by rewrite <- !app_assoc).
         replace (length pre + (length (node_key n) + 1))%nat
           with (length (pre ++ node_key n ++ [NUL]))
           by (rewrite !length_app; simpl; lia).
         by rewrite drop_app_length. }
    rewrite mem_strlen_app_NUL by done.
    change (deref (Some ?x)) with (ret x). rewrite bind_ret.
    assert (casefold (node_key n ++ NUL :: node_value n ++ NUL :: tail)
            = casefold (node_key n)) as Hcf.
    { unfold casefold. by rewrite c_str_app_NUL, c_str_id. }
    rewrite (bind_Done _ _ _ _ _
               (nns_edge_metadata_set_granted _ _ _ w Hw
                  (STR_IS_VALID_casefold _ _ Hcf (valid_string_STR_IS_VALID _ (proj1 Hn)))
                  ltac:(apply STR_IS_VALID_true; rewrite c_str_app_NUL by done; done))).
    rewrite decide_False by (by intros ?).
    rewrite set_result_new.
    2: { simpl. rewrite Hcf. intros ?. apply Hnew. rewrite fmap_app.
         apply elem_of_app. by right. }
    rewrite !c_str_app_NUL by done. simpl.
    rewrite uint_incr_mod.
    replace (MetaNode (node_key n) (node_value n)) with n by (by destruct n).
    specialize (IH (n :: acc) (pre ++ node_key n ++ NUL :: node_value n ++ [NUL]) Hv).
    simpl in IH.
    fold tail in IH.
    replace ((pre ++ node_key n ++ NUL :: node_value n ++ [NUL]) ++ tail)
      with (pre ++ node_key n ++ NUL :: node_value n ++ NUL :: tail) in IH
      by (rewrite <- !app_assoc; simpl; by rewrite <- !app_assoc).
    replace (length (pre ++ node_key n ++ NUL :: node_value n ++ [NUL]))
      with (length pre + (length (node_key n) + 1) + (length (node_value n) + 1))%nat in IH
      by (rewrite !length_app; simpl; rewrite length_app; simpl; lia).
    replace (Z.of_nat (length acc) + 1) with (Z.of_nat (S (length acc))) by lia.
    replace (S (length rest + length acc)) with (length rest + S (length acc))%nat by lia.
    rewrite IH.
    + by rewrite <- app_assoc.
    + unfold folded_keys. rewrite fmap_app, fmap_cons.
      rewrite fmap_app in Hd, Hnew.
      apply NoDup_app. apply NoDup_app in Hd as (Hd1 & Hd2 & Hd3).
      split; [done |]. split.
      * intros x Hx. rewrite not_elem_of_cons. split.
        -- intros ->. apply Hnew. apply elem_of_app. by left.
        -- by apply Hd2.
      * apply NoDup_cons. split; [|done].
        intros ?. apply Hnew. apply elem_of_app. by right.
Qed.

(** Deserialize on a count followed by the pairs of [nodes]. *)
Lemma nns_edge_metadata_deserialize_pairs (nodes : list nns_edge_metadata_node_s)
    (count : Z) (dest : nns_edge_metadata_s) (w : world) :
  never_fails w → Forall valid_node nodes → NoDup (folded_keys nodes) →
  0 ≤ count < UINT_MODULUS →
  let blob := uint_store count ++ serialize_pairs nodes in
  let n := Z.of_nat (length nodes) mod UINT_MODULUS in
  nns_edge_metadata_deserialize (Some dest) (Some blob) (length blob) w
  = if n <? count then Undefined
    else Done (NNS_EDGE_ERROR_NONE, Some (Metadata n (rev nodes))) w.
Proof.
  intros Hw Hv Hd Hc blob n.
  unfold nns_edge_metadata_deserialize.
  assert (length blob = 4 + length (serialize_pairs nodes))%nat as Hlen
    by (subst blob; by rewrite length_app).
  replace (length blob <=? 0)%nat with false
    by (symmetry; apply Nat.leb_gt; lia).
  subst blob. rewrite uint_load_store by done.
  change (deref (Some count)) with (ret count). rewrite bind_ret.
  set (blob := uint_store count ++ serialize_pairs nodes) in *.
  pose proof (length_serialize_pairs nodes) as Hn.
  destruct (length blob - length nodes)%nat as [|fuel] eqn:Hfuel; [lia |].
  replace (length blob) with (length nodes + S fuel)%nat at 1 by lia.
  pose proof (deserialize_loop_pairs nodes [] (uint_store count) (S fuel) count w Hw Hv) as H.
  rewrite app_nil_r in H. specialize (H Hd). cbv zeta in H.
  change (snd (nns_edge_metadata_free (Some dest))) with (Some (Metadata 0 [])).
  fold blob in H.
  change (length (uint_store count)) with 4%nat in H.
  change (length (@nil nns_edge_metadata_node_s)) with 0%nat in H.
  change (Z.of_nat 0 mod UINT_MODULUS) with 0 in H.
  rewrite Nat.add_0_r, app_nil_r in H. rewrite H.
  cbn [deserialize_loop]. change (deref (Some ?m)) with (ret m). rewrite bind_ret.
  cbn [meta_list_len]. rewrite Nat.ltb_irrefl, orb_false_l. fold n.
  destruct (n <? count); [|done].
  rewrite drop_all. done.
Qed.

(** X8. The count field at the head of a blob is not what ends the parse.
    On a blob made of a count and of pairs of valid strings whose keys
    differ, with an allocator that grants, deserialize reads every pair of
    the buffer: with a count that is at most the number of pairs (modulo
    2^32) it succeeds, whatever the count is, and leaves the pairs in the
    opposite order under a counter that is their number; with a larger
    count it goes on at the end of the buffer and scans for a key outside
    of it. *)
Theorem nns_edge_metadata_deserialize_count (nodes : list nns_edge_metadata_node_s)
    (count : Z) (dest : nns_edge_metadata_s) (w : world) :
  never_fails w → Forall valid_node nodes → NoDup (folded_keys nodes) →
  0 ≤ count < UINT_MODULUS →
  let blob := uint_store count ++ serialize_pairs nodes in
  let n := Z.of_nat (length nodes) mod UINT_MODULUS in
  (count ≤ n →
   nns_edge_metadata_deserialize (Some dest) (Some blob) (length blob) w
   = Done (NNS_EDGE_ERROR_NONE, Some (Metadata n (rev nodes))) w)
  ∧ (n < count →
     nns_edge_metadata_deserialize (Some dest) (Some blob) (length blob) w = Undefined).
Proof.
  intros Hw Hv Hd Hc blob n.
  pose proof (nns_edge_metadata_deserialize_pairs nodes count dest w Hw Hv Hd Hc) as H.
  cbv zeta in H. fold blob n in H. rewrite H. split; intros Hn.
  - by rewrite (proj2 (Z.ltb_ge n count)) by lia.
  - by rewrite (proj2 (Z.ltb_lt n count)) by lia.
Qed.

(** X8 on the pairs ("k", "v") and ("a", "b") under the count 0. *)
Lemma nns_edge_metadata_deserialize_count_witness :
  let nodes := [MetaNode (bytes "k") (bytes "v"); MetaNode (bytes "a") (bytes "b")] in
  let blob := uint_store 0 ++ serialize_pairs nodes in
  (never_fails empty_world ∧ Forall valid_node nodes ∧ NoDup (folded_keys nodes)
   ∧ 0 ≤ 0 < UINT_MODULUS ∧ 0 ≤ Z.of_nat (length nodes) mod UINT_MODULUS)
  ∧ nns_edge_metadata_deserialize (Some (Metadata 0 [])) (Some blob) (length blob) empty_world
    = Done (NNS_EDGE_ERROR_NONE, Some (Metadata 2 (rev nodes))) empty_world.
Proof.
  intros nodes blob.
  assert (never_fails empty_world) as Hw by reflexivity.
  assert (Forall valid_node nodes) as Hv.
  { repeat constructor; simpl; try discriminate;
      apply (bool_decide_unpack _); reflexivity. }
  assert (NoDup (folded_keys nodes)) as Hd
    by (apply (bool_decide_unpack _); reflexivity).
  assert (0 ≤ 0 < UINT_MODULUS) as Hc by (by vm_compute).
  assert (0 ≤ Z.of_nat (length nodes) mod UINT_MODULUS) as Hn by (by vm_compute).
  split; [done |].
  exact (proj1 (nns_edge_metadata_deserialize_count nodes 0 (Metadata 0 []) empty_world
                  Hw Hv Hd Hc) Hn).
Defined.

(** X9. A well formed store whose counter is not 0 survives the trip
    through a blob, with an allocator that grants: serialize gives a blob,
    deserializing it into any store gives the nodes in the opposite order
    under the same counter, so that every key keeps its value, and a second
    trip gives back the store one started from, node for node. *)
Theorem metadata_round_trip_reverses (m dest : nns_edge_metadata_s) (w : world) :
  never_fails w → store_ok m → meta_list_len m ≠ 0 →
  let back := Metadata (meta_list_len m) (rev (meta_list m)) in
  ∃ blob blob',
    nns_edge_metadata_serialize (Some m) true true w
    = Done (NNS_EDGE_ERROR_NONE, Some blob, length blob) w
    ∧ nns_edge_metadata_deserialize (Some dest) (Some blob) (length blob) w
      = Done (NNS_EDGE_ERROR_NONE, Some back) w
    ∧ (∀ k, stored_value back k = stored_value m k)
    ∧ nns_edge_metadata_serialize (Some back) true true w
      = Done (NNS_EDGE_ERROR_NONE, Some blob', length blob') w
    ∧ nns_edge_metadata_deserialize (Some dest) (Some blob') (length blob') w
      = Done (NNS_EDGE_ERROR_NONE, Some m) w.
Proof.
  intros Hw Hok Hn back.
  assert (∀ s d, store_ok s → meta_list_len s ≠ 0 →
            let blob := uint_store (meta_list_len s) ++ serialize_pairs (meta_list s) in
            nns_edge_metadata_serialize (Some s) true true w
            = Done (NNS_EDGE_ERROR_NONE, Some blob, length blob) w
            ∧ nns_edge_metadata_deserialize (Some d) (Some blob) (length blob) w
              = Done (NNS_EDGE_ERROR_NONE,
                      Some (Metadata (meta_list_len s) (rev (meta_list s)))) w) as Htrip.
  { intros s d (Hlen & Hv & Hd) Hs blob. split.
    - pose proof (nns_edge_metadata_serialize_eq s w Hs) as H. cbv zeta in H.
      rewrite H. never_fails_facts.
      match goal with Hg : granted w = true |- _ => by rewrite Hg end.
    - assert (0 ≤ meta_list_len s < UINT_MODULUS) as Hc.
      { rewrite Hlen. apply Z.mod_pos_bound. done. }
      pose proof (nns_edge_metadata_deserialize_pairs (meta_list s) (meta_list_len s) d w
                    Hw Hv Hd Hc) as H.
      cbv zeta in H. fold blob in H. rewrite H. rewrite <- Hlen.
      by rewrite Z.ltb_irrefl. }
  exists (uint_store (meta_list_len m) ++ serialize_pairs (meta_list m)),
    (uint_store (meta_list_len back) ++ serialize_pairs (meta_list back)).
  destruct (Htrip m dest Hok Hn) as [Hs1 Hd1].
  destruct (Htrip back dest (store_ok_rev m Hok) Hn) as [Hs2 Hd2].
  split; [exact Hs1 |]. split; [exact Hd1 |]. split; [|split; [exact Hs2 |]].
  - intros k. destruct m as [len l]. subst back. simpl.
    symmetry. apply stored_value_Permutation; [apply Hok | apply Permutation_rev].
  - rewrite Hd2. subst back. simpl. rewrite rev_involutive. by destruct m.
Qed.

(** X9 on a store of two pairs. *)
Lemma metadata_round_trip_reverses_witness :
  let m := Metadata 2 [MetaNode (bytes "b") (bytes "2"); MetaNode (bytes "a") (bytes "1")] in
  let back := Metadata 2 [MetaNode (bytes "a") (bytes "1"); MetaNode (bytes "b") (bytes "2")] in
  (never_fails empty_world ∧ store_ok m ∧ meta_list_len m ≠ 0)
  ∧ ∃ blob blob',
      nns_edge_metadata_serialize (Some m) true true empty_world
      = Done (NNS_EDGE_ERROR_NONE, Some blob, length blob) empty_world
      ∧ nns_edge_metadata_deserialize (Some (Metadata 0 [])) (Some blob) (length blob)
          empty_world
        = Done (NNS_EDGE_ERROR_NONE, Some back) empty_world
      ∧ (∀ k, stored_value back k = stored_value m k)
      ∧ nns_edge_metadata_serialize (Some back) true true empty_world
        = Done (NNS_EDGE_ERROR_NONE, Some blob', length blob') empty_world
      ∧ nns_edge_metadata_deserialize (Some (Metadata 0 [])) (Some blob') (length blob')
          empty_world
        = Done (NNS_EDGE_ERROR_NONE, Some m) empty_world.
Proof.
  intros m back.
  assert (never_fails empty_world) as Hw by reflexivity.
  assert (store_ok m) as Hok.
  { split; [reflexivity |]. split.
    - repeat constructor; simpl; try discriminate;
        apply (bool_decide_unpack _); reflexivity.
    - apply (bool_decide_unpack _). reflexivity. }
  assert (meta_list_len m ≠ 0) as Hn by discriminate.
  split; [done |].
  exact (metadata_round_trip_reverses m (Metadata 0 []) empty_world Hw Hok Hn).
Defined.

(** * More of the handles *)

(** ** The validity check comes first *)

Section guard.
Context `{header : edge_header}.

Lemma magic_refused_data (h : option addr) (w : world) :
  refused_data_handle h w → NNS_EDGE_MAGIC_IS_VALID h w = Done false w.
Proof.
  destruct h as [p|]; [|done]. intros (ed & Hp & Hm).
  rewrite (magic_is_valid_data _ _ _ Hp).
  by destruct (Z.eqb_spec (ed_magic ed) NNS_EDGE_MAGIC).
Qed.

Lemma magic_refused_event (h : option addr) (w : world) :
  refused_event_handle h w → NNS_EDGE_MAGIC_IS_VALID h w = Done false w.
Proof.
  destruct h as [p|]; [|done]. intros (ee & Hp & Hm).
  rewrite (magic_is_valid_event _ _ _ Hp).
  by destruct (Z.eqb_spec (ee_magic ee) NNS_EDGE_MAGIC).
Qed.

(** X10. Every function that takes an edge data handle turns down a NULL
    handle and an edge data object whose tag is not the magic (a destroyed
    object whose memory is still there, say) before it looks at anything
    else: whatever the other arguments are, it returns InvalidParameter,
    stores nothing through its out pointers, and leaves the heap, the
    allocator and the log of destructor calls as they were. *)
Theorem data_handle_guard (h : option addr) (w : world) :
  refused_data_handle h w →
  nns_edge_data_destroy h w = Done NNS_EDGE_ERROR_INVALID_PARAMETER w
  ∧ nns_edge_data_is_valid h w = Done NNS_EDGE_ERROR_INVALID_PARAMETER w
  ∧ (∀ new_data_h,
       nns_edge_data_copy h new_data_h w = Done (NNS_EDGE_ERROR_INVALID_PARAMETER, None) w)
  ∧ (∀ data data_len destroy_cb,
       nns_edge_data_add h data data_len destroy_cb w
       = Done NNS_EDGE_ERROR_INVALID_PARAMETER w)
  ∧ (∀ i data data_len,
       nns_edge_data_get h i data data_len w
       = Done (NNS_EDGE_ERROR_INVALID_PARAMETER, None, 0%N) w)
  ∧ (∀ count,
       nns_edge_data_get_count h count w = Done (NNS_EDGE_ERROR_INVALID_PARAMETER, None) w)
  ∧ (∀ key value,
       nns_edge_data_set_info h key value w = Done NNS_EDGE_ERROR_INVALID_PARAMETER w)
  ∧ (∀ key value,
       nns_edge_data_get_info h key value w
       = Done (NNS_EDGE_ERROR_INVALID_PARAMETER, None) w)
  ∧ (∀ data data_len,
       nns_edge_data_serialize_meta h data data_len w
       = Done (NNS_EDGE_ERROR_INVALID_PARAMETER, None, 0%nat) w)
  ∧ (∀ data data_len,
       nns_edge_data_deserialize_meta h data data_len w
       = Done NNS_EDGE_ERROR_INVALID_PARAMETER w).
Proof.
  intros H. apply magic_refused_data in H.
  repeat match goal with |- _ ∧ _ => split end; intros;
    match goal with
    | |- ?f _ _ = _ => unfold nns_edge_data_destroy, nns_edge_data_is_valid,
        nns_edge_data_copy, nns_edge_data_add, nns_edge_data_get, nns_edge_data_get_count,
        nns_edge_data_set_info, nns_edge_data_get_info, nns_edge_data_serialize_meta,
        nns_edge_data_deserialize_meta
    end;
    by rewrite (bind_Done _ _ _ _ _ H).
Qed.

(** X11. The same for the functions that take an event handle. *)
Theorem event_handle_guard (h : option addr) (w : world) :
  refused_event_handle h w →
  nns_edge_event_destroy h w = Done NNS_EDGE_ERROR_INVALID_PARAMETER w
  ∧ (∀ data data_len destroy_cb,
       nns_edge_event_set_data h data data_len destroy_cb w
       = Done NNS_EDGE_ERROR_INVALID_PARAMETER w)
  ∧ (∀ event,
       nns_edge_event_get_type h event w = Done (NNS_EDGE_ERROR_INVALID_PARAMETER, None) w)
  ∧ (∀ data_h,
       nns_edge_event_parse_new_data h data_h w
       = Done (NNS_EDGE_ERROR_INVALID_PARAMETER, None) w)
  ∧ (∀ capability,
       nns_edge_event_parse_capability h capability w
       = Done (NNS_EDGE_ERROR_INVALID_PARAMETER, None) w).
Proof.
  intros H. apply magic_refused_event in H.
  repeat match goal with |- _ ∧ _ => split end; intros;
    unfold nns_edge_event_destroy, nns_edge_event_set_data, nns_edge_event_get_type,
      nns_edge_event_parse_new_data, nns_edge_event_parse_capability;
    by rewrite (bind_Done _ _ _ _ _ H).
Qed.

End guard.

(** X10 on the NULL handle. *)
Lemma data_handle_guard_witness :
  @refused_data_handle sample_header None empty_world
  ∧ @nns_edge_data_destroy sample_header None empty_world
    = Done NNS_EDGE_ERROR_INVALID_PARAMETER empty_world.
Proof.
  split; [exact I |].
  exact (proj1 (@data_handle_guard sample_header None empty_world I)).
Defined.

(** X11 on an event whose tag is the DEAD one. *)
Lemma event_handle_guard_witness :
  let w := World {[ 1%positive := EventObj (EdgeEvent 0xdeaddead 2 raw_data_zero) ]} [] [] in
  @refused_event_handle sample_header (Some 1%positive) w
  ∧ @nns_edge_event_destroy sample_header (Some 1%positive) w
    = Done NNS_EDGE_ERROR_INVALID_PARAMETER w.
Proof.
  intros w.
  assert (@refused_event_handle sample_header (Some 1%positive) w) as H.
  { eexists. split; [reflexivity | discriminate]. }
  split; [exact H |].
  exact (proj1 (@event_handle_guard sample_header (Some 1%positive) w H)).
Defined.

(** ** Payloads and their destructors *)

(** The destructor of an entry, run on the pointer of the entry: a
    destructor of the caller is called once, [nns_edge_free] releases the
    block, which must be live, and nothing else changes. *)
Lemma release_entry_eq (entry : nns_edge_raw_data_s) (w : world) :
  (∀ q, freed_block entry = Some q → is_Some (heap w !! q)) →
  match raw_destroy_cb entry with
  | Some cb => call_destroy_cb cb (raw_data entry)
  | None => ret tt
  end w
  = Done tt (World (from_option (fun q => delete q (heap w)) (heap w) (freed_block entry))
                   (oracle w)
                   (released w ++ option_list (user_call entry))).
Proof.
  intros Hlive. unfold freed_block, user_call in *.
  destruct entry as [data len [[|id]|]]; simpl in *.
  - destruct data as [q|]; simpl.
    + destruct (Hlive q eq_refl) as [c Hc]. by rewrite (free_eq _ _ _ Hc), app_nil_r.
    + rewrite app_nil_r. by destruct w.
  - done.
  - rewrite app_nil_r. by destruct w.
Qed.

Lemma release_entry_dangling (entry : nns_edge_raw_data_s) (w : world) (q : addr) :
  freed_block entry = Some q → heap w !! q = None →
  match raw_destroy_cb entry with
  | Some cb => call_destroy_cb cb (raw_data entry)
  | None => ret tt
  end w = Undefined.
Proof.
  unfold freed_block. destruct entry as [data len [[|id]|]]; simpl; [|done..].
  intros -> H. simpl. unfold free. by rewrite H.
Qed.

Section events.
Context `{header : edge_header}.

(** A new payload on a valid event: the destructor of the payload in
    place runs, then the three fields are written. *)
Lemma nns_edge_event_set_data_ok (w : world) (p : addr) (ee : nns_edge_event_s)
    (data : option addr) (data_len : N) (destroy_cb : option nns_edge_data_destroy_cb) :
  heap w !! p = Some (EventObj ee) → ee_magic ee = NNS_EDGE_MAGIC →
  is_Some data → data_len ≠ 0%N →
  (∀ q, freed_block (ee_data ee) = Some q → q ≠ p ∧ is_Some (heap w !! q)) →
  nns_edge_event_set_data (Some p) data data_len destroy_cb w
  = Done NNS_EDGE_ERROR_NONE
      (World (<[p := EventObj (EdgeEvent (ee_magic ee) (ee_event ee)
                                         (RawData data data_len destroy_cb))]>
                (from_option (fun q => delete q (heap w)) (heap w)
                   (freed_block (ee_data ee))))
             (oracle w)
             (released w ++ option_list (user_call (ee_data ee)))).
Proof.
  intros Hp Hm [d ->] Hlen Hq.
  assert (NNS_EDGE_MAGIC_IS_VALID (Some p) w = Done true w) as Hv.
  { rewrite (magic_is_valid_event _ _ _ Hp), Hm. by rewrite Z.eqb_refl. }
  unfold nns_edge_event_set_data.
  rewrite (bind_Done _ _ _ _ _ Hv). simpl.
  replace (data_len <=? 0)%N with false by (symmetry; apply N.leb_gt; lia).
  rewrite bind_ret. rewrite (bind_Done _ _ _ _ _ (load_event_eq _ _ _ Hp)).
  rewrite (bind_Done _ _ _ _ _
             (release_entry_eq (ee_data ee) w (fun q H => proj2 (Hq q H)))).
  set (w1 := World _ _ _).
  assert (heap w1 !! p = Some (EventObj ee)) as Hp1.
  { subst w1. simpl. destruct (freed_block (ee_data ee)) as [q|] eqn:Hf; simpl; [|done].
    rewrite lookup_delete_ne; [done |]. by destruct (Hq q eq_refl). }
  rewrite (bind_Done _ _ _ _ _ (store_eq _ _ _ _ Hp1)). done.
Qed.

(** X12. [nns_edge_event_set_data] on a valid event. With a NULL pointer
    or a length of 0 it returns InvalidParameter and changes nothing: the
    payload in place stays, and its destructor is not called. Otherwise it
    succeeds: the destructor of the payload in place, if there is one, runs
    exactly once on the pointer in place (a destructor of the caller is
    called once, [nns_edge_free] releases the block), the event then holds
    the new pointer, length and destructor verbatim, keeps its tag and its
    kind, and no other block changes. When the payload in place is owned
    through [nns_edge_free] and its block is not live any more, the call is
    undefined. *)
Theorem nns_edge_event_set_data_effect (w : world) (p : addr) (ee : nns_edge_event_s)
    (data : option addr) (data_len : N) (destroy_cb : option nns_edge_data_destroy_cb) :
  heap w !! p = Some (EventObj ee) → ee_magic ee = NNS_EDGE_MAGIC →
  (data = None ∨ data_len = 0%N →
   nns_edge_event_set_data (Some p) data data_len destroy_cb w
   = Done NNS_EDGE_ERROR_INVALID_PARAMETER w)
  ∧ (is_Some data → data_len ≠ 0%N →
     (∀ q, freed_block (ee_data ee) = Some q → q ≠ p ∧ is_Some (heap w !! q)) →
     nns_edge_event_set_data (Some p) data data_len destroy_cb w
     = Done NNS_EDGE_ERROR_NONE
         (World (<[p := EventObj (EdgeEvent (ee_magic ee) (ee_event ee)
                                            (RawData data data_len destroy_cb))]>
                   (from_option (fun q => delete q (heap w)) (heap w)
                      (freed_block (ee_data ee))))
                (oracle w)
                (released w ++ option_list (user_call (ee_data ee)))))
  ∧ (is_Some data → data_len ≠ 0%N →
     ∀ q, freed_block (ee_data ee) = Some q → heap w !! q = None →
       nns_edge_event_set_data (Some p) data data_len destroy_cb w = Undefined).
Proof.
  intros Hp Hm.
  assert (NNS_EDGE_MAGIC_IS_VALID (Some p) w = Done true w) as Hv.
  { rewrite (magic_is_valid_event _ _ _ Hp), Hm. by rewrite Z.eqb_refl. }
  split; [|split].
  - intros Hbad. unfold nns_edge_event_set_data.
    rewrite (bind_Done _ _ _ _ _ Hv). simpl.
    destruct Hbad as [-> | ->]; [done |].
    by rewrite orb_true_r.
  - intros Hd Hlen Hq. by apply nns_edge_event_set_data_ok.
  - intros [d ->] Hlen q Hf Hq. unfold nns_edge_event_set_data.
    rewrite (bind_Done _ _ _ _ _ Hv). simpl.
    replace (data_len <=? 0)%N with false by (symmetry; apply N.leb_gt; lia).
    rewrite bind_ret. rewrite (bind_Done _ _ _ _ _ (load_event_eq _ _ _ Hp)).
    apply bind_Undefined. by apply release_entry_dangling with q.
Qed.

(** Destroy on a valid event, step by step. *)
Lemma nns_edge_event_destroy_ok (w : world) (p : addr) (ee : nns_edge_event_s) :
  heap w !! p = Some (EventObj ee) → ee_magic ee = NNS_EDGE_MAGIC →
  (∀ q, freed_block (ee_data ee) = Some q → q ≠ p ∧ is_Some (heap w !! q)) →
  nns_edge_event_destroy (Some p) w
  = Done NNS_EDGE_ERROR_NONE
      (World (delete p (from_option (fun q => delete q (heap w)) (heap w)
                          (freed_block (ee_data ee))))
             (oracle w)
             (released w ++ option_list (user_call (ee_data ee)))).
Proof.
  intros Hp Hm Hq.
  assert (NNS_EDGE_MAGIC_IS_VALID (Some p) w = Done true w) as Hv.
  { rewrite (magic_is_valid_event _ _ _ Hp), Hm. by rewrite Z.eqb_refl. }
  unfold nns_edge_event_destroy.
  rewrite (bind_Done _ _ _ _ _ Hv). simpl.
  rewrite bind_ret. rewrite (bind_Done _ _ _ _ _ (load_event_eq _ _ _ Hp)).
  rewrite (bind_Done _ _ _ _ _ (store_eq _ _ _ _ Hp)).
  set (w1 := World _ _ _).
  assert (∀ q, freed_block (ee_data ee) = Some q → is_Some (heap w1 !! q)) as Hq1.
  { intros q Hf. destruct (Hq q Hf) as [Hne Hlive]. subst w1. simpl.
    by rewrite lookup_insert_ne. }
  rewrite (bind_Done _ _ _ _ _ (release_entry_eq (ee_data ee) w1 Hq1)).
  set (w2 := World _ _ _).
  assert (is_Some (heap w2 !! p)) as [c Hp2].
  { subst w2 w1. simpl. destruct (freed_block (ee_data ee)) as [q|] eqn:Hf; simpl.
    - rewrite lookup_delete_ne by (by destruct (Hq q eq_refl)).
      rewrite lookup_insert_eq. eauto.
    - rewrite lookup_insert_eq. eauto. }
  unfold SAFE_FREE, nns_edge_free.
  rewrite (bind_Done _ _ _ _ _ (free_eq _ _ _ Hp2)).
  unfold ret. f_equal. subst w2 w1. simpl. f_equal.
  destruct (freed_block (ee_data ee)) as [q|]; simpl.
  - rewrite (delete_delete _ p q), delete_insert_eq. apply delete_delete.
  - apply delete_insert_eq.
Qed.

(** X13. [nns_edge_event_destroy] on a valid event succeeds, runs the
    destructor of the payload exactly once on the stored pointer, releases
    the event itself, and changes no other block; the DEAD tag it writes
    first goes away with the block. *)
Theorem nns_edge_event_destroy_effect (w : world) (p : addr) (ee : nns_edge_event_s) :
  heap w !! p = Some (EventObj ee) → ee_magic ee = NNS_EDGE_MAGIC →
  (∀ q, freed_block (ee_data ee) = Some q → q ≠ p ∧ is_Some (heap w !! q)) →
  nns_edge_event_destroy (Some p) w
  = Done NNS_EDGE_ERROR_NONE
      (World (delete p (from_option (fun q => delete q (heap w)) (heap w)
                          (freed_block (ee_data ee))))
             (oracle w)
             (released w ++ option_list (user_call (ee_data ee)))).
Proof. apply nns_edge_event_destroy_ok. Qed.

(** X14. The life of an event: created with a kind above UNKNOWN when the
    allocator grants, it lives in a block that was not live before and
    [nns_edge_event_get_type] answers the kind it was created with; a
    payload set with a destructor of the caller leaves the kind alone; and
    destroy then calls that destructor once, on that pointer, and leaves
    the heap exactly as it was before the event was created. *)
Theorem event_life (event : Z) (data : addr) (data_len : N) (id : N) (w : world) :
  NNS_EDGE_EVENT_UNKNOWN < event → granted w = true → data_len ≠ 0%N →
  ∃ p w1 w2 w3,
    nns_edge_event_create event true w = Done (NNS_EDGE_ERROR_NONE, Some p) w1
    ∧ heap w !! p = None
    ∧ nns_edge_event_get_type (Some p) true w1 = Done (NNS_EDGE_ERROR_NONE, Some event) w1
    ∧ nns_edge_event_set_data (Some p) (Some data) data_len (Some (cb_user id)) w1
      = Done NNS_EDGE_ERROR_NONE w2
    ∧ nns_edge_event_get_type (Some p) true w2 = Done (NNS_EDGE_ERROR_NONE, Some event) w2
    ∧ nns_edge_event_destroy (Some p) w2 = Done NNS_EDGE_ERROR_NONE w3
    ∧ heap w3 = heap w
    ∧ released w3 = released w ++ [(id, Some data)].
Proof.
  intros He Hg Hlen.
  set (p := fresh (dom (heap w))).
  pose proof (fresh_not_live w) as Hfresh. fold p in Hfresh.
  pose proof (nns_edge_event_create_granted event w He Hg) as Hc.
  cbv zeta in Hc. fold p in Hc.
  set (ee1 := EdgeEvent NNS_EDGE_MAGIC event raw_data_zero) in *.
  set (w1 := World (<[p := EventObj ee1]> (heap w)) (snd (next_answer (oracle w)))
                   (released w)) in *.
  assert (heap w1 !! p = Some (EventObj ee1)) as Hp1 by apply lookup_insert_eq.
  assert (∀ w0 ee, heap w0 !! p = Some (EventObj ee) → ee_magic ee = NNS_EDGE_MAGIC →
            nns_edge_event_get_type (Some p) true w0
            = Done (NNS_EDGE_ERROR_NONE, Some (ee_event ee)) w0) as Hget.
  { intros w0 ee Hp0 Hm0. unfold nns_edge_event_get_type.
    rewrite (bind_Done _ _ _ _ _ (magic_is_valid_event _ _ _ Hp0)), Hm0, Z.eqb_refl.
    simpl. rewrite bind_ret. by rewrite (bind_Done _ _ _ _ _ (load_event_eq _ _ _ Hp0)). }
  pose proof (nns_edge_event_set_data_ok w1 p ee1 (Some data) data_len
                (Some (cb_user id)) Hp1 eq_refl ltac:(eauto) Hlen ltac:(done)) as Hset.
  simpl in Hset. rewrite app_nil_r in Hset.
  set (ee2 := EdgeEvent NNS_EDGE_MAGIC event (RawData (Some data) data_len (Some (cb_user id))))
    in *.
  set (w2 := World (<[p := EventObj ee2]> (heap w1)) (oracle w1) (released w1)) in *.
  assert (heap w2 !! p = Some (EventObj ee2)) as Hp2 by apply lookup_insert_eq.
  pose proof (nns_edge_event_destroy_ok w2 p ee2 Hp2 eq_refl ltac:(done)) as Hd.
  simpl in Hd.
  eexists p, w1, w2, _.
  split; [exact Hc |]. split; [exact Hfresh |].
  split; [exact (Hget w1 ee1 Hp1 eq_refl) |].
  split; [exact Hset |].
  split; [exact (Hget w2 ee2 Hp2 eq_refl) |].
  split; [exact Hd |]. split; [|done].
  simpl. rewrite delete_insert_eq. by apply delete_insert_id.
Qed.

(** X15. [nns_edge_event_parse_capability] on a valid event of kind
    CAPABILITY returns success in every case. With a payload that is a
    string it hands out a copy of the string, up to its terminator, when the
    allocator grants, and NULL, still with success, when it refuses; with no
    payload it hands out NULL. The heap is not changed. *)
Theorem nns_edge_event_parse_capability_answers (w : world) (p : addr)
    (ee : nns_edge_event_s) :
  heap w !! p = Some (EventObj ee) → ee_magic ee = NNS_EDGE_MAGIC →
  ee_event ee = NNS_EDGE_EVENT_CAPABILITY →
  (raw_data (ee_data ee) = None →
   nns_edge_event_parse_capability (Some p) true w = Done (NNS_EDGE_ERROR_NONE, None) w)
  ∧ (∀ q content, raw_data (ee_data ee) = Some q →
       heap w !! q = Some (Bytes content) → NUL ∈ content →
       nns_edge_event_parse_capability (Some p) true w
       = Done (NNS_EDGE_ERROR_NONE, if granted w then Some (c_str content) else None)
              (after_alloc w)).
Proof.
  intros Hp Hm Hk.
  assert (NNS_EDGE_MAGIC_IS_VALID (Some p) w = Done true w) as Hv.
  { rewrite (magic_is_valid_event _ _ _ Hp), Hm. by rewrite Z.eqb_refl. }
  split.
  - intros Hnone. unfold nns_edge_event_parse_capability.
    rewrite (bind_Done _ _ _ _ _ Hv). simpl.
    rewrite bind_ret. rewrite (bind_Done _ _ _ _ _ (load_event_eq _ _ _ Hp)).
    rewrite Hk, Z.eqb_refl, Hnone. simpl. rewrite !bind_ret. done.
  - intros q content Hq Hc Hnul. unfold nns_edge_event_parse_capability.
    rewrite (bind_Done _ _ _ _ _ Hv). simpl.
    rewrite bind_ret. rewrite (bind_Done _ _ _ _ _ (load_event_eq _ _ _ Hp)).
    rewrite Hk, Z.eqb_refl, Hq. simpl.
    assert (load_string (Some q) w = Done (Some content) w) as Hs.
    { unfold load_string. rewrite (bind_Done _ _ _ _ _ (load_bytes_eq _ _ _ Hc)).
      apply list_elem_of_split in Hnul as (l1 & l2 & ->).
      assert (∃ n, mem_strlen (l1 ++ NUL :: l2) = Some n) as [n Hn].
      { clear. induction l1 as [|c l1 [n IH]]; simpl; [by eexists |].
        destruct (decide (c = NUL)); [by eexists |]. rewrite IH. by eexists. }
      rewrite Hn. simpl. by rewrite bind_ret. }
    rewrite (bind_Done _ _ _ _ _ Hs).
    rewrite (bind_Done _ _ _ _ _ (nns_edge_strdup_eq content w)). done.
Qed.

End events.

(** X12 on an event that holds a payload with a destructor of the
    caller: the payload is replaced. *)
Lemma nns_edge_event_set_data_effect_witness :
  let ee := EdgeEvent 0xfeedfeed 2 (RawData (Some 7%positive) 3 (Some (cb_user 4))) in
  let w := World {[ 1%positive := EventObj ee ]} [] [] in
  (heap w !! 1%positive = Some (EventObj ee) ∧ ee_magic ee = @NNS_EDGE_MAGIC sample_header)
  ∧ @nns_edge_event_set_data sample_header (Some 1%positive) (Some 9%positive) 5 None w
    = Done NNS_EDGE_ERROR_NONE
        (World {[ 1%positive := EventObj (EdgeEvent 0xfeedfeed 2
                                            (RawData (Some 9%positive) 5 None)) ]}
               [] [(4%N, Some 7%positive)]).
Proof.
  intros ee w. split; [split; reflexivity |].
  etrans; [|reflexivity].
  apply (proj1 (proj2 (@nns_edge_event_set_data_effect sample_header w 1%positive ee
                         (Some 9%positive) 5 None eq_refl eq_refl)));
    [eauto | discriminate | discriminate].
Defined.

(** X13 on an event whose payload is owned through [nns_edge_free]. *)
Lemma nns_edge_event_destroy_effect_witness :
  let ee := EdgeEvent 0xfeedfeed 1 (RawData (Some 7%positive) 3 (Some cb_nns_edge_free)) in
  let w := World {[ 1%positive := EventObj ee; 7%positive := Bytes (bytes "ab") ]} [] [] in
  (heap w !! 1%positive = Some (EventObj ee) ∧ ee_magic ee = @NNS_EDGE_MAGIC sample_header
   ∧ ∀ q, freed_block (ee_data ee) = Some q → q ≠ 1%positive ∧ is_Some (heap w !! q))
  ∧ @nns_edge_event_destroy sample_header (Some 1%positive) w
    = Done NNS_EDGE_ERROR_NONE empty_world.
Proof.
  intros ee w.
  assert (∀ q, freed_block (ee_data ee) = Some q → q ≠ 1%positive ∧ is_Some (heap w !! q))
    as Hq.
  { intros q [= <-]. split; [discriminate | by eexists]. }
  split; [split; [reflexivity | split; [reflexivity | exact Hq]] |].
  etrans; [|reflexivity].
  exact (@nns_edge_event_destroy_effect sample_header w 1%positive ee eq_refl eq_refl Hq).
Defined.

(** X14 with the sample header, from the empty world. *)
Lemma event_life_witness :
  (@NNS_EDGE_EVENT_UNKNOWN sample_header < 2 ∧ granted empty_world = true ∧ 3%N ≠ 0%N)
  ∧ ∃ p w1 w2 w3,
      @nns_edge_event_create sample_header 2 true empty_world
      = Done (NNS_EDGE_ERROR_NONE, Some p) w1
      ∧ heap empty_world !! p = None
      ∧ @nns_edge_event_get_type sample_header (Some p) true w1
        = Done (NNS_EDGE_ERROR_NONE, Some 2) w1
      ∧ @nns_edge_event_set_data sample_header (Some p) (Some 7%positive) 3
          (Some (cb_user 4)) w1
        = Done NNS_EDGE_ERROR_NONE w2
      ∧ @nns_edge_event_get_type sample_header (Some p) true w2
        = Done (NNS_EDGE_ERROR_NONE, Some 2) w2
      ∧ @nns_edge_event_destroy sample_header (Some p) w2 = Done NNS_EDGE_ERROR_NONE w3
      ∧ heap w3 = heap empty_world
      ∧ released w3 = released empty_world ++ [(4%N, Some 7%positive)].
Proof.
  split; [split; [reflexivity | split; [reflexivity | discriminate]] |].
  apply (@event_life sample_header 2 7%positive 3 4 empty_world);
    [reflexivity | reflexivity | discriminate].
Defined.

(** X15 on a capability event whose payload is the string "cap". *)
Lemma nns_edge_event_parse_capability_answers_witness :
  let ee := EdgeEvent 0xfeedfeed 1 (RawData (Some 7%positive) 4 None) in
  let w := World {[ 1%positive := EventObj ee;
                    7%positive := Bytes (bytes "cap" ++ [NUL]) ]} [] [] in
  (heap w !! 1%positive = Some (EventObj ee) ∧ ee_magic ee = @NNS_EDGE_MAGIC sample_header
   ∧ ee_event ee = @NNS_EDGE_EVENT_CAPABILITY sample_header)
  ∧ @nns_edge_event_parse_capability sample_header (Some 1%positive) true w
    = Done (NNS_EDGE_ERROR_NONE, Some (bytes "cap")) w.
Proof.
  intros ee w. split; [split; [reflexivity | split; reflexivity] |].
  etrans; [|reflexivity].
  apply (proj2 (@nns_edge_event_parse_capability_answers sample_header w 1%positive ee
                  eq_refl eq_refl eq_refl)
           7%positive (bytes "cap" ++ [NUL]) eq_refl eq_refl).
  apply (bool_decide_unpack _). reflexivity.
Defined.

(** ** The buffers of an edge data object *)

Section buffers.
Context `{header : edge_header}.

Lemma magic_is_valid_data_ok (w : world) (p : addr) (ed : nns_edge_data_s) :
  heap w !! p = Some (DataObj ed) → ed_magic ed = NNS_EDGE_MAGIC →
  NNS_EDGE_MAGIC_IS_VALID (Some p) w = Done true w.
Proof.
  intros Hp Hm. rewrite (magic_is_valid_data _ _ _ Hp), Hm. by rewrite Z.eqb_refl.
Qed.

(** X16. [nns_edge_data_get] on a valid object answers from the entries
    in use and from nothing else: for an index below the count it returns
    success with the pointer and the length that were stored there,
    verbatim (no copy is made), for any other index InvalidParameter; with
    an out pointer that is NULL it returns InvalidParameter. It never
    reads outside the array, and it changes nothing. *)
Theorem nns_edge_data_get_answers (w : world) (p : addr) (ed : nns_edge_data_s) (i : Z) :
  heap w !! p = Some (DataObj ed) → data_ok ed → 0 ≤ i →
  nns_edge_data_get (Some p) i true true w
  = Done (match entries ed !! Z.to_nat i with
          | Some e => (NNS_EDGE_ERROR_NONE, raw_data e, raw_data_len e)
          | None => (NNS_EDGE_ERROR_INVALID_PARAMETER, None, 0%N)
          end) w
  ∧ (∀ data data_len, data && data_len = false →
       nns_edge_data_get (Some p) i data data_len w
       = Done (NNS_EDGE_ERROR_INVALID_PARAMETER, None, 0%N) w).
Proof.
  intros Hp (Hm & Hn & Hl) Hi.
  pose proof (magic_is_valid_data_ok _ _ _ Hp Hm) as Hv.
  split.
  - unfold nns_edge_data_get. rewrite (bind_Done _ _ _ _ _ Hv). simpl.
    rewrite bind_ret, (bind_Done _ _ _ _ _ (load_data_eq _ _ _ Hp)).
    unfold entries. destruct (Z.leb_spec (ed_num ed) i) as [Hge|Hlt].
    + rewrite lookup_take_ge by lia. done.
    + rewrite lookup_take_lt by lia.
      unfold index. destruct (Z.ltb_spec i 0); [lia |].
      destruct (lookup_lt_is_Some_2 (ed_data ed) (Z.to_nat i) ltac:(lia)) as [e He].
      rewrite He. simpl. by rewrite bind_ret.
  - intros data data_len Hout. unfold nns_edge_data_get.
    rewrite (bind_Done _ _ _ _ _ Hv). simpl.
    by destruct data, data_len.
Qed.

(** X17. [nns_edge_data_add] on a valid object appends: it succeeds
    exactly when the object is not full, the pointer is not NULL and the
    length is not 0, and then the entries in use are the former ones
    followed by the new pointer, length and destructor, stored verbatim;
    when it fails nothing changes. Either way the object stays valid, its
    metadata is the same, no other block changes, nothing is allocated and
    no destructor runs. *)
Theorem nns_edge_data_add_appends (w : world) (p : addr) (ed : nns_edge_data_s)
    (data : option addr) (data_len : N) (destroy_cb : option nns_edge_data_destroy_cb) :
  Z.of_nat NNS_EDGE_DATA_LIMIT < UINT_MODULUS →
  heap w !! p = Some (DataObj ed) → data_ok ed →
  ∃ r ed',
    nns_edge_data_add (Some p) data data_len destroy_cb w
    = Done r (World (<[p := DataObj ed']> (heap w)) (oracle w) (released w))
    ∧ (r = NNS_EDGE_ERROR_NONE
       ↔ ed_num ed < Z.of_nat NNS_EDGE_DATA_LIMIT ∧ is_Some data ∧ data_len ≠ 0%N)
    ∧ (r = NNS_EDGE_ERROR_NONE ∨ r = NNS_EDGE_ERROR_INVALID_PARAMETER)
    ∧ data_ok ed'
    ∧ ed_metadata ed' = ed_metadata ed
    ∧ (r = NNS_EDGE_ERROR_NONE →
       entries ed' = entries ed ++ [RawData data data_len destroy_cb])
    ∧ (r ≠ NNS_EDGE_ERROR_NONE → ed' = ed).
Proof.
  intros Hlim Hp Hok. pose proof Hok as (Hm & Hn & Hl).
  assert (World (<[p := DataObj ed]> (heap w)) (oracle w) (released w) = w) as Hsame.
  { rewrite insert_id by done. by destruct w. }
  destruct (decide (ed_num ed < Z.of_nat NNS_EDGE_DATA_LIMIT)) as [Hroom|Hfull].
  - destruct (decide (is_Some data ∧ data_len ≠ 0%N)) as [[Hd Hlen]|Hbad].
    + eexists NNS_EDGE_ERROR_NONE, _.
      split; [apply nns_edge_data_add_ok; try done; lia |].
      assert (uint_incr (ed_num ed) = ed_num ed + 1) as Hincr.
      { unfold uint_incr. apply Z.mod_small. lia. }
      split; [done |]. split; [by left |]. split; [|split; [done |split; [|done]]].
      * split; [done |]. simpl. rewrite Hincr, length_insert. split; [lia | done].
      * intros _. unfold entries. simpl. rewrite Hincr.
        replace (Z.to_nat (ed_num ed + 1)) with (S (Z.to_nat (ed_num ed))) by lia.
        rewrite (take_S_r _ _ (RawData data data_len destroy_cb)).
        -- by rewrite take_insert_ge by lia.
        -- apply list_lookup_insert_eq. lia.
    + exists NNS_EDGE_ERROR_INVALID_PARAMETER, ed. rewrite Hsame.
      split.
      { apply (nns_edge_data_add_no_bytes _ _ _ _ _ _ Hp).
        destruct data as [d|]; [|by left]. right.
        destruct (decide (data_len = 0%N)); [done |]. exfalso. apply Hbad. eauto. }
      split; [split; [done | intros (_ & ? & ?); exfalso; by apply Hbad] |].
      split; [by right |]. done.
  - exists NNS_EDGE_ERROR_INVALID_PARAMETER, ed. rewrite Hsame.
    split; [apply (nns_edge_data_add_full _ _ _ _ _ _ Hp); lia |].
    split; [split; [done | intros (? & _); lia] |].
    split; [by right |]. done.
Qed.

(** What the calls on the metadata of an object leave alone. *)
Lemma store_metadata_eq (w : world) (p : addr) (ed : nns_edge_data_s) (c0 : cell)
    (m : nns_edge_metadata_s) :
  heap w !! p = Some c0 →
  store_metadata p ed (Some m) w
  = Done tt (World (<[p := DataObj (EdgeData (ed_magic ed) (ed_num ed) (ed_data ed) m)]>
                      (heap w)) (oracle w) (released w)).
Proof. intros Hp. unfold store_metadata. by rewrite (store_eq _ _ _ _ Hp). Qed.

Lemma nns_edge_data_get_info_eq (w : world) (p : addr) (ed : nns_edge_data_s)
    (k : list byte) :
  heap w !! p = Some (DataObj ed) → ed_magic ed = NNS_EDGE_MAGIC →
  STR_IS_VALID (Some k) = true →
  nns_edge_data_get_info (Some p) (Some k) true w
  = nns_edge_metadata_get (Some (ed_metadata ed)) (Some k) true w.
Proof.
  intros Hp Hm Hk. unfold nns_edge_data_get_info.
  rewrite (bind_Done _ _ _ _ _ (magic_is_valid_data_ok _ _ _ Hp Hm)). simpl.
  rewrite Hk. simpl.
  by rewrite bind_ret, (bind_Done _ _ _ _ _ (load_data_eq _ _ _ Hp)).
Qed.

(** X18. [nns_edge_data_set_info] on a valid object, whenever it
    returns: the object keeps its tag, its count and its buffers, no other
    block changes and no destructor runs; on failure the metadata is
    what it was; on success [nns_edge_data_get_info] with the same key
    answers a copy of the value, up to its terminator, and with a key that
    differs up to case it answers what it answered before. *)
Theorem nns_edge_data_set_info_frame (w w' : world) (p : addr) (ed : nns_edge_data_s)
    (key value : option (list byte)) (r : nns_edge_error_e) :
  heap w !! p = Some (DataObj ed) → data_ok ed →
  nns_edge_data_set_info (Some p) key value w = Done r w' →
  ∃ m',
    heap w'
    = <[p := DataObj (EdgeData (ed_magic ed) (ed_num ed) (ed_data ed) m')]> (heap w)
    ∧ released w' = released w
    ∧ (r ≠ NNS_EDGE_ERROR_NONE → m' = ed_metadata ed)
    ∧ (r = NNS_EDGE_ERROR_NONE →
       ∃ k v, key = Some k ∧ value = Some v
         ∧ nns_edge_data_get_info (Some p) key true w'
           = Done (get_answer (c_str v) w') (after_alloc w')
         ∧ ∀ k2, STR_IS_VALID (Some k2) = true → casefold k2 ≠ casefold k →
             nns_edge_data_get_info (Some p) (Some k2) true w'
             = nns_edge_metadata_get (Some (ed_metadata ed)) (Some k2) true w').
Proof.
  intros Hp (Hm & Hn & Hl) H. unfold nns_edge_data_set_info in H.
  rewrite (bind_Done _ _ _ _ _ (magic_is_valid_data_ok _ _ _ Hp Hm)) in H. simpl in H.
  assert (heap w = <[p := DataObj (EdgeData (ed_magic ed) (ed_num ed) (ed_data ed)
                                            (ed_metadata ed))]> (heap w)) as Hsame.
  { rewrite insert_id; [done |]. by destruct ed. }
  destruct (STR_IS_VALID key) eqn:Hk; simpl in H;
    [|injection H as <- <-; exists (ed_metadata ed); by repeat split].
  destruct (STR_IS_VALID value) eqn:Hv; simpl in H;
    [|injection H as <- <-; exists (ed_metadata ed); by repeat split].
  rewrite bind_ret, (bind_Done _ _ _ _ _ (load_data_eq _ _ _ Hp)) in H.
  destruct (nns_edge_metadata_set_outcome (ed_metadata ed) key value w)
    as (r1 & w1 & Hs & _ & Hheap & Hrel & _).
  rewrite (bind_Done _ _ _ _ _ Hs) in H.
  assert (heap w1 !! p = Some (DataObj ed)) as Hp1 by (by rewrite Hheap).
  rewrite (bind_Done _ _ _ _ _ (store_metadata_eq _ _ _ _ _ Hp1)) in H.
  injection H as <- <-. simpl. rewrite Hheap, Hrel.
  eexists. split; [reflexivity |]. split; [done |].
  destruct (decide (r1 = NNS_EDGE_ERROR_NONE)) as [->|Hne]; [|by split].
  split; [done |]. intros _.
  destruct key as [k|]; [|done]. destruct value as [v|]; [|done].
  exists k, v. split; [done |]. split; [done |].
  set (ed' := EdgeData _ _ _ _). set (w' := World _ _ _).
  assert (heap w' !! p = Some (DataObj ed')) as Hp' by apply lookup_insert_eq.
  split.
  - rewrite (nns_edge_data_get_info_eq w' p ed' k Hp' Hm Hk).
    rewrite nns_edge_metadata_get_eq by done. subst ed'. simpl.
    by rewrite stored_value_set_result, c_str_idemp.
  - intros k2 Hk2 Hne.
    rewrite (nns_edge_data_get_info_eq w' p ed' k2 Hp' Hm Hk2).
    rewrite !nns_edge_metadata_get_eq by done. subst ed'. simpl.
    by rewrite stored_value_set_result_ne.
Qed.

(** X19. Metadata goes from one object to another through a blob. Of two
    valid objects, the first with a well formed store whose counter is not
    0, and with an allocator that grants: [nns_edge_data_serialize_meta] on
    the first gives a blob and changes nothing; given that blob,
    [nns_edge_data_deserialize_meta] on the second succeeds and changes
    nothing but the metadata of the second, whose former content is gone;
    and [nns_edge_data_get_info] then answers on the second what it answers
    on the first, for every key. *)
Theorem data_meta_transfer (w : world) (p q : addr) (src dst : nns_edge_data_s) :
  never_fails w → p ≠ q →
  heap w !! p = Some (DataObj src) → data_ok src →
  heap w !! q = Some (DataObj dst) → data_ok dst →
  store_ok (ed_metadata src) → meta_list_len (ed_metadata src) ≠ 0 →
  ∃ blob m',
    nns_edge_data_serialize_meta (Some p) true true w
    = Done (NNS_EDGE_ERROR_NONE, Some blob, length blob) w
    ∧ nns_edge_data_deserialize_meta (Some q) (Some blob) (length blob) w
      = Done NNS_EDGE_ERROR_NONE
          (World (<[q := DataObj (EdgeData (ed_magic dst) (ed_num dst) (ed_data dst) m')]>
                    (heap w)) (oracle w) (released w))
    ∧ ∀ k w', never_fails w' →
        heap w' !! p = Some (DataObj src) →
        heap w' !! q = Some (DataObj (EdgeData (ed_magic dst) (ed_num dst) (ed_data dst) m')) →
        nns_edge_data_get_info (Some q) (Some k) true w'
        = nns_edge_data_get_info (Some p) (Some k) true w'.
Proof.
  intros Hw Hpq Hp (Hmp & _) Hq (Hmq & _) Hok Hn.
  pose proof Hok as (Hlen & Hv & Hd).
  set (m := ed_metadata src) in *.
  set (blob := uint_store (meta_list_len m) ++ serialize_pairs (meta_list m)).
  exists blob, (Metadata (meta_list_len m) (rev (meta_list m))).
  split; [|split].
  - unfold nns_edge_data_serialize_meta.
    rewrite (bind_Done _ _ _ _ _ (magic_is_valid_data_ok _ _ _ Hp Hmp)). cbn [negb].
    change (deref (Some p)) with (ret p).
    rewrite bind_ret, (bind_Done _ _ _ _ _ (load_data_eq _ _ _ Hp)). fold m.
    pose proof (nns_edge_metadata_serialize_eq m w Hn) as H. cbv zeta in H.
    rewrite H. never_fails_facts.
    match goal with Hg : granted w = true |- _ => by rewrite Hg end.
  - unfold nns_edge_data_deserialize_meta.
    rewrite (bind_Done _ _ _ _ _ (magic_is_valid_data_ok _ _ _ Hq Hmq)). cbn [negb].
    change (deref (Some q)) with (ret q).
    rewrite bind_ret, (bind_Done _ _ _ _ _ (load_data_eq _ _ _ Hq)).
    assert (0 ≤ meta_list_len m < UINT_MODULUS) as Hc.
    { rewrite Hlen. by apply Z.mod_pos_bound. }
    pose proof (nns_edge_metadata_deserialize_pairs (meta_list m) (meta_list_len m)
                  (ed_metadata dst) w Hw Hv Hd Hc) as H.
    cbv zeta in H. fold blob in H. rewrite <- Hlen, Z.ltb_irrefl in H.
    rewrite (bind_Done _ _ _ _ _ H).
    by rewrite (bind_Done _ _ _ _ _ (store_metadata_eq _ _ _ _ _ Hq)).
  - intros k w' Hw' Hp' Hq'.
    unfold nns_edge_data_get_info.
    rewrite (bind_Done _ _ _ _ _ (magic_is_valid_data_ok _ _ _ Hp' Hmp)).
    rewrite (bind_Done _ _ _ _ _ (magic_is_valid_data_ok _ _ _ Hq' Hmq)). cbn [negb].
    destruct (STR_IS_VALID (Some k)) eqn:Hk; [|done]. cbn [negb].
    change (deref (Some p)) with (ret p). change (deref (Some q)) with (ret q).
    rewrite !bind_ret, (bind_Done _ _ _ _ _ (load_data_eq _ _ _ Hp')),
      (bind_Done _ _ _ _ _ (load_data_eq _ _ _ Hq')). cbn [ed_metadata]. fold m.
    rewrite !nns_edge_metadata_get_eq by done.
    replace (stored_value (Metadata (meta_list_len m) (rev (meta_list m))) k)
      with (stored_value m k); [done |].
    destruct m as [len l]. simpl.
    apply stored_value_Permutation; [done | apply Permutation_rev].
Qed.

End buffers.

(** X16 on an object with one buffer: index 0 answers it, index 1 is
    refused. *)
Lemma nns_edge_data_get_answers_witness :
  let ed := EdgeData 0xfeedfeed 1
              (RawData (Some 5%positive) 2 None :: replicate 15 raw_data_zero)
              (Metadata 0 []) in
  let w := World {[ 6%positive := DataObj ed ]} [] [] in
  (heap w !! 6%positive = Some (DataObj ed) ∧ @data_ok sample_header ed ∧ 0 ≤ 0 ∧ 0 ≤ 1)
  ∧ @nns_edge_data_get sample_header (Some 6%positive) 0 true true w
    = Done (NNS_EDGE_ERROR_NONE, Some 5%positive, 2%N) w
  ∧ @nns_edge_data_get sample_header (Some 6%positive) 1 true true w
    = Done (NNS_EDGE_ERROR_INVALID_PARAMETER, None, 0%N) w.
Proof.
  intros ed w.
  assert (@data_ok sample_header ed) as Hok.
  { split; [reflexivity |]. split; [by vm_compute | reflexivity]. }
  split; [split; [reflexivity | split; [exact Hok | split; lia]] |].
  split.
  - exact (proj1 (@nns_edge_data_get_answers sample_header w 6%positive ed 0
                    eq_refl Hok ltac:(lia))).
  - exact (proj1 (@nns_edge_data_get_answers sample_header w 6%positive ed 1
                    eq_refl Hok ltac:(lia))).
Defined.

(** X17 on the same object: a second buffer is appended. *)
Lemma nns_edge_data_add_appends_witness :
  let ed := EdgeData 0xfeedfeed 1
              (RawData (Some 5%positive) 2 None :: replicate 15 raw_data_zero)
              (Metadata 0 []) in
  let w := World {[ 6%positive := DataObj ed ]} [] [] in
  (Z.of_nat (@NNS_EDGE_DATA_LIMIT sample_header) < UINT_MODULUS
   ∧ heap w !! 6%positive = Some (DataObj ed) ∧ @data_ok sample_header ed)
  ∧ ∃ r ed',
      @nns_edge_data_add sample_header (Some 6%positive) (Some 7%positive) 3 None w
      = Done r (World (<[6%positive := DataObj ed']> (heap w)) (oracle w) (released w))
      ∧ (r = NNS_EDGE_ERROR_NONE
         ↔ ed_num ed < Z.of_nat (@NNS_EDGE_DATA_LIMIT sample_header)
           ∧ is_Some (Some 7%positive) ∧ 3%N ≠ 0%N)
      ∧ (r = NNS_EDGE_ERROR_NONE ∨ r = NNS_EDGE_ERROR_INVALID_PARAMETER)
      ∧ @data_ok sample_header ed'
      ∧ ed_metadata ed' = ed_metadata ed
      ∧ (r = NNS_EDGE_ERROR_NONE →
         entries ed' = entries ed ++ [RawData (Some 7%positive) 3 None])
      ∧ (r ≠ NNS_EDGE_ERROR_NONE → ed' = ed).
Proof.
  intros ed w.
  assert (@data_ok sample_header ed) as Hok.
  { split; [reflexivity |]. split; [by vm_compute | reflexivity]. }
  assert (Z.of_nat (@NNS_EDGE_DATA_LIMIT sample_header) < UINT_MODULUS) as Hlim
    by reflexivity.
  split; [split; [exact Hlim | split; [reflexivity | exact Hok]] |].
  exact (@nns_edge_data_add_appends sample_header w 6%positive ed (Some 7%positive) 3 None
           Hlim eq_refl Hok).
Defined.

(** X18 on the same object: a pair is attached. *)
Lemma nns_edge_data_set_info_frame_witness :
  let ed := EdgeData 0xfeedfeed 1
              (RawData (Some 5%positive) 2 None :: replicate 15 raw_data_zero)
              (Metadata 0 []) in
  let ed' := EdgeData 0xfeedfeed 1
               (RawData (Some 5%positive) 2 None :: replicate 15 raw_data_zero)
               (Metadata 1 [MetaNode (bytes "k") (bytes "v")]) in
  let w := World {[ 6%positive := DataObj ed ]} [] [] in
  let w' := World {[ 6%positive := DataObj ed' ]} [] [] in
  (heap w !! 6%positive = Some (DataObj ed) ∧ @data_ok sample_header ed
   ∧ @nns_edge_data_set_info sample_header (Some 6%positive) (Some (bytes "k"))
       (Some (bytes "v")) w
     = Done NNS_EDGE_ERROR_NONE w')
  ∧ ∃ m',
      heap w' = <[6%positive := DataObj (EdgeData (ed_magic ed) (ed_num ed) (ed_data ed) m')]>
                  (heap w)
      ∧ released w' = released w
      ∧ (NNS_EDGE_ERROR_NONE ≠ NNS_EDGE_ERROR_NONE → m' = ed_metadata ed)
      ∧ (NNS_EDGE_ERROR_NONE = NNS_EDGE_ERROR_NONE →
         ∃ k v, Some (bytes "k") = Some k ∧ Some (bytes "v") = Some v
           ∧ @nns_edge_data_get_info sample_header (Some 6%positive) (Some (bytes "k")) true w'
             = Done (get_answer (c_str v) w') (after_alloc w')
           ∧ ∀ k2, STR_IS_VALID (Some k2) = true → casefold k2 ≠ casefold k →
               @nns_edge_data_get_info sample_header (Some 6%positive) (Some k2) true w'
               = nns_edge_metadata_get (Some (ed_metadata ed)) (Some k2) true w').
Proof.
  intros ed ed' w w'.
  assert (@data_ok sample_header ed) as Hok.
  { split; [reflexivity |]. split; [by vm_compute | reflexivity]. }
  assert (@nns_edge_data_set_info sample_header (Some 6%positive) (Some (bytes "k"))
            (Some (bytes "v")) w
          = Done NNS_EDGE_ERROR_NONE w') as Hset by (vm_compute; reflexivity).
  split; [split; [reflexivity | split; [exact Hok | exact Hset]] |].
  exact (@nns_edge_data_set_info_frame sample_header w w' 6%positive ed
           (Some (bytes "k")) (Some (bytes "v")) NNS_EDGE_ERROR_NONE eq_refl Hok Hset).
Defined.

(** X19 on two objects, the first with the pair ("k", "v"). *)
Lemma data_meta_transfer_witness :
  let src := EdgeData 0xfeedfeed 0 (replicate 16 raw_data_zero)
               (Metadata 1 [MetaNode (bytes "k") (bytes "v")]) in
  let dst := EdgeData 0xfeedfeed 0 (replicate 16 raw_data_zero)
               (Metadata 1 [MetaNode (bytes "old") (bytes "x")]) in
  let w := World {[ 1%positive := DataObj src; 2%positive := DataObj dst ]} [] [] in
  (never_fails w ∧ 1%positive ≠ 2%positive
   ∧ @data_ok sample_header src ∧ @data_ok sample_header dst
   ∧ store_ok (ed_metadata src) ∧ meta_list_len (ed_metadata src) ≠ 0)
  ∧ ∃ blob m',
      @nns_edge_data_serialize_meta sample_header (Some 1%positive) true true w
      = Done (NNS_EDGE_ERROR_NONE, Some blob, length blob) w
      ∧ @nns_edge_data_deserialize_meta sample_header (Some 2%positive) (Some blob)
          (length blob) w
        = Done NNS_EDGE_ERROR_NONE
            (World (<[2%positive := DataObj (EdgeData (ed_magic dst) (ed_num dst)
                                               (ed_data dst) m')]> (heap w))
                   (oracle w) (released w))
      ∧ ∀ k w', never_fails w' →
          heap w' !! 1%positive = Some (DataObj src) →
          heap w' !! 2%positive
          = Some (DataObj (EdgeData (ed_magic dst) (ed_num dst) (ed_data dst) m')) →
          @nns_edge_data_get_info sample_header (Some 2%positive) (Some k) true w'
          = @nns_edge_data_get_info sample_header (Some 1%positive) (Some k) true w'.
Proof.
  intros src dst w.
  assert (never_fails w) as Hw by reflexivity.
  assert (@data_ok sample_header src) as Hs.
  { split; [reflexivity |]. split; [by vm_compute | reflexivity]. }
  assert (@data_ok sample_header dst) as Hd.
  { split; [reflexivity |]. split; [by vm_compute | reflexivity]. }
  assert (store_ok (ed_metadata src)) as Hok.
  { split; [reflexivity |]. split.
    - repeat constructor; simpl; try discriminate;
        apply (bool_decide_unpack _); reflexivity.
    - apply (bool_decide_unpack _). reflexivity. }
  assert (meta_list_len (ed_metadata src) ≠ 0) as Hn by discriminate.
  split.
  { split; [exact Hw |]. split; [discriminate |]. split; [exact Hs |].
    split; [exact Hd |]. split; [exact Hok | exact Hn]. }
  exact (@data_meta_transfer sample_header w 1%positive 2%positive src dst Hw
           ltac:(discriminate) eq_refl Hs eq_refl Hd Hok Hn).
Defined.

(** ** Releasing an edge data object *)

Lemma lookup_foldl_delete (qs : list addr) (h : gmap addr cell) (a : addr) :
  foldl (fun h q => delete q h) h qs !! a = if decide (a ∈ qs) then None else h !! a.
Proof.
  revert h. induction qs as [|q qs IH]; intros h; cbn [foldl].
  - rewrite decide_False; [done | apply not_elem_of_nil].
  - rewrite IH. destruct (decide (a ∈ qs)) as [Hin|Hout].
    + rewrite decide_True; [done | by right].
    + destruct (decide (a = q)) as [->|Hne].
      * rewrite decide_True by left. apply lookup_delete_eq.
      * rewrite decide_False by (rewrite elem_of_cons; tauto).
        by apply lookup_delete_ne.
Qed.

(** The loop of destroy over the entries [i], ..., [i + n - 1]. *)
Lemma release_loop_eq (data : list nns_edge_raw_data_s) (n i : nat) (w : world) :
  (i + n ≤ length data)%nat →
  let l := take n (drop i data) in
  NoDup (freed_blocks l) →
  (∀ q, q ∈ freed_blocks l → is_Some (heap w !! q)) →
  for_loop n (Z.of_nat i)
    (fun i => let* entry := index data i in
              match raw_destroy_cb entry with
              | Some cb => call_destroy_cb cb (raw_data entry)
              | None => ret tt
              end) w
  = Done tt (World (foldl (fun h q => delete q h) (heap w) (freed_blocks l))
                   (oracle w) (released w ++ user_calls l)).
Proof.
  revert i w. induction n as [|n IH]; intros i w Hlen l Hd Hlive.
  - subst l. simpl. rewrite app_nil_r. by destruct w.
  - destruct (lookup_lt_is_Some_2 data i ltac:(lia)) as [e He].
    assert (l = e :: take n (drop (S i) data)) as Hl.
    { subst l. by rewrite (drop_S _ _ _ He). }
    clearbody l. subst l.
    cbn [for_loop].
    assert (index data (Z.of_nat i) = ret e) as Hidx.
    { unfold index. destruct (Z.ltb_spec (Z.of_nat i) 0); [lia |].
      by rewrite Nat2Z.id, He. }
    unfold freed_blocks, user_calls in *. cbn [omap list_omap] in *.
    assert (∀ q, freed_block e = Some q → is_Some (heap w !! q)) as Hlive_e.
    { intros q Hq. apply Hlive. rewrite Hq. by left. }
    match goal with
    | |- bind ?body _ w = _ =>
        assert (body w
                = Done tt (World (from_option (fun q => delete q (heap w)) (heap w)
                                    (freed_block e))
                                 (oracle w) (released w ++ option_list (user_call e))))
          as Hbody
    end.
    { rewrite Hidx, bind_ret. by apply release_entry_eq. }
    rewrite (bind_Done _ _ _ _ _ Hbody).
    replace (Z.of_nat i + 1) with (Z.of_nat (S i)) by lia.
    rewrite IH; [| lia | |].
    + cbn [heap oracle released]. f_equal. f_equal.
      * by destruct (freed_block e).
      * rewrite <- app_assoc. f_equal. by destruct (user_call e).
    + destruct (freed_block e); [by apply NoDup_cons in Hd as [_ ?] | done].
    + intros q Hq. cbn [heap].
      destruct (freed_block e) as [q1|] eqn:Hq1; simpl.
      * apply NoDup_cons in Hd as [Hnew _].
        rewrite lookup_delete_ne by (intros ->; by apply Hnew).
        apply Hlive. by right.
      * by apply Hlive.
Qed.

Section release.
Context `{header : edge_header}.

Lemma nns_edge_data_destroy_ok (w : world) (p : addr) (ed : nns_edge_data_s) :
  heap w !! p = Some (DataObj ed) → data_ok ed →
  NoDup (p :: freed_blocks (entries ed)) →
  (∀ q, q ∈ freed_blocks (entries ed) → is_Some (heap w !! q)) →
  nns_edge_data_destroy (Some p) w
  = Done NNS_EDGE_ERROR_NONE
      (World (delete p (foldl (fun h q => delete q h) (heap w)
                          (freed_blocks (entries ed))))
             (oracle w) (released w ++ user_calls (entries ed))).
Proof.
  intros Hp (Hm & Hn & Hl) Hd Hlive.
  apply NoDup_cons in Hd as [Hpq Hd].
  unfold nns_edge_data_destroy.
  rewrite (bind_Done _ _ _ _ _ (magic_is_valid_data_ok _ _ _ Hp Hm)). cbn [negb].
  change (deref (Some p)) with (ret p).
  rewrite bind_ret, (bind_Done _ _ _ _ _ (load_data_eq _ _ _ Hp)).
  rewrite (bind_Done _ _ _ _ _ (store_eq _ _ _ _ Hp)).
  set (dead := DataObj _). set (w1 := World _ _ _).
  pose proof (release_loop_eq (ed_data ed) (Z.to_nat (ed_num ed)) 0 w1 ltac:(lia)) as Hloop.
  cbv zeta in Hloop. rewrite drop_0 in Hloop. fold (entries ed) in Hloop.
  change (Z.of_nat 0) with 0 in Hloop.
  rewrite (bind_Done _ _ _ _ _ (Hloop Hd ltac:(
    intros q Hq; subst w1; cbn [heap];
    rewrite lookup_insert_ne by (intros <-; by apply Hpq); by apply Hlive))).
  set (w2 := World _ _ _).
  assert (heap w2 !! p = Some dead) as Hp2.
  { subst w2 w1. cbn [heap]. rewrite lookup_foldl_delete, decide_False by done.
    apply lookup_insert_eq. }
  unfold SAFE_FREE, nns_edge_free.
  rewrite (bind_Done _ _ _ _ _ (free_eq _ _ _ Hp2)).
  unfold ret. f_equal. subst w2 w1. cbn [heap oracle released]. f_equal.
  apply map_eq. intros a.
  destruct (decide (a = p)) as [->|Hne]; [by rewrite !lookup_delete_eq |].
  rewrite !lookup_delete_ne, !lookup_foldl_delete by done.
  destruct (decide (a ∈ freed_blocks (entries ed))); [done |].
  by apply lookup_insert_ne.
Qed.


Lemma entries_append (ed : nns_edge_data_s) (b : nns_edge_raw_data_s) :
  0 ≤ ed_num ed → (Z.to_nat (ed_num ed) < length (ed_data ed))%nat →
  entries (EdgeData (ed_magic ed) (ed_num ed + 1)
                    (<[Z.to_nat (ed_num ed) := b]> (ed_data ed)) (ed_metadata ed))
  = entries ed ++ [b].
Proof.
  intros Hn Hl. unfold entries. cbn [ed_num ed_data].
  replace (Z.to_nat (ed_num ed + 1)) with (S (Z.to_nat (ed_num ed))) by lia.
  rewrite (take_S_r _ _ b).
  - by rewrite take_insert_ge by lia.
  - by apply list_lookup_insert_eq.
Qed.

(** Buffers appended while there is room end up, in order, behind the
    entries in use; nothing else changes. *)
Lemma add_all_appends (bufs : list nns_edge_raw_data_s) (w : world) (p : addr)
    (ed : nns_edge_data_s) :
  Z.of_nat NNS_EDGE_DATA_LIMIT < UINT_MODULUS →
  heap w !! p = Some (DataObj ed) → data_ok ed →
  ed_num ed + Z.of_nat (length bufs) ≤ Z.of_nat NNS_EDGE_DATA_LIMIT →
  Forall valid_buffer bufs →
  ∃ ed', add_all (Some p) bufs w
         = Done (replicate (length bufs) NNS_EDGE_ERROR_NONE)
                (World (<[p := DataObj ed']> (heap w)) (oracle w) (released w))
         ∧ data_ok ed'
         ∧ entries ed' = entries ed ++ bufs
         ∧ ed_metadata ed' = ed_metadata ed.
Proof.
  intros Hlim. revert w ed.
  induction bufs as [|b bufs IH]; intros w ed Hp Hok Hn Hv.
  - exists ed. cbn [add_all length replicate]. rewrite app_nil_r.
    rewrite insert_id by done. split; [by destruct w | done].
  - pose proof Hok as (Hm & Hnum & Hl).
    apply Forall_cons in Hv as [[Hb1 Hb2] Hv]. cbn [length] in Hn.
    cbn [add_all].
    rewrite (bind_Done _ _ _ _ _
               (nns_edge_data_add_ok _ _ _ _ _ _ Hp Hm ltac:(lia) Hl Hb1 Hb2)).
    assert (uint_incr (ed_num ed) = ed_num ed + 1) as Hi.
    { unfold uint_incr. apply Z.mod_small. lia. }
    rewrite Hi.
    replace (RawData (raw_data b) (raw_data_len b) (raw_destroy_cb b)) with b
      by (by destruct b).
    set (ed1 := EdgeData (ed_magic ed) (ed_num ed + 1)
                  (<[Z.to_nat (ed_num ed) := b]> (ed_data ed)) (ed_metadata ed)).
    set (w1 := World (<[p := DataObj ed1]> (heap w)) (oracle w) (released w)).
    destruct (IH w1 ed1) as (ed' & Hr & Hok' & He & Hmd).
    + apply lookup_insert_eq.
    + split; [done |]. split; [unfold ed1; cbn [ed_num]; lia |].
      unfold ed1. cbn [ed_data]. by rewrite length_insert.
    + unfold ed1. cbn [ed_num]. lia.
    + done.
    + exists ed'. rewrite (bind_Done _ _ _ _ _ Hr). unfold ret.
      subst w1. cbn [heap oracle released]. rewrite insert_insert_eq.
      split; [done |]. split; [done |]. split; [|done].
      rewrite He. subst ed1. rewrite entries_append by lia.
      by rewrite <- app_assoc.
Qed.

(** X21. The life of an edge data object: created when the allocator
    grants, it lives in a block that was not live before and holds no
    buffer; buffers appended while there is room, each with a destructor of
    the caller or with none, are all accepted; and destroy then calls the
    destructors once each, on the pointers they were given with and in the
    order in which the buffers were appended, and leaves the heap exactly
    as it was before the object was created. *)
Theorem data_life (bufs : list nns_edge_raw_data_s) (w : world) :
  Z.of_nat NNS_EDGE_DATA_LIMIT < UINT_MODULUS →
  granted w = true →
  (length bufs ≤ NNS_EDGE_DATA_LIMIT)%nat →
  Forall valid_buffer bufs →
  freed_blocks bufs = [] →
  ∃ p w1 w2 w3,
    nns_edge_data_create true w = Done (NNS_EDGE_ERROR_NONE, Some p) w1
    ∧ heap w !! p = None
    ∧ nns_edge_data_get_count (Some p) true w1 = Done (NNS_EDGE_ERROR_NONE, Some 0) w1
    ∧ add_all (Some p) bufs w1 = Done (replicate (length bufs) NNS_EDGE_ERROR_NONE) w2
    ∧ nns_edge_data_get_count (Some p) true w2
      = Done (NNS_EDGE_ERROR_NONE, Some (Z.of_nat (length bufs))) w2
    ∧ nns_edge_data_destroy (Some p) w2 = Done NNS_EDGE_ERROR_NONE w3
    ∧ heap w3 = heap w
    ∧ released w3 = released w ++ user_calls bufs.
Proof.
  intros Hlim Hg Hlen Hv Hnofree.
  set (p := fresh (dom (heap w))).
  pose proof (fresh_not_live w) as Hfresh. fold p in Hfresh.
  pose proof (nns_edge_data_create_granted w Hg) as Hc. cbv zeta in Hc. fold p in Hc.
  set (ed0 := EdgeData NNS_EDGE_MAGIC 0 (replicate NNS_EDGE_DATA_LIMIT raw_data_zero)
                (Metadata 0 [])) in *.
  set (w1 := World (<[p := DataObj ed0]> (heap w)) (snd (next_answer (oracle w)))
                   (released w)) in *.
  assert (heap w1 !! p = Some (DataObj ed0)) as Hp1 by apply lookup_insert_eq.
  assert (data_ok ed0) as Hok0.
  { split; [done |]. split; [unfold ed0; cbn [ed_num]; lia |]. apply length_replicate. }
  destruct (add_all_appends bufs w1 p ed0 Hlim Hp1 Hok0 ltac:(unfold ed0; cbn [ed_num]; lia) Hv)
    as (ed2 & Hadd & Hok2 & He & _).
  change (entries ed0) with (@nil nns_edge_raw_data_s) in He. rewrite app_nil_l in He.
  set (w2 := World (<[p := DataObj ed2]> (heap w1)) (oracle w1) (released w1)) in *.
  assert (heap w2 !! p = Some (DataObj ed2)) as Hp2 by apply lookup_insert_eq.
  assert (ed_num ed2 = Z.of_nat (length bufs)) as Hnum.
  { destruct Hok2 as (_ & Hn2 & Hl2). unfold entries in He.
    apply (f_equal length) in He. rewrite length_take in He. lia. }
  pose proof (nns_edge_data_destroy_ok w2 p ed2 Hp2 Hok2) as Hd.
  rewrite He, Hnofree in Hd.
  specialize (Hd ltac:(apply NoDup_singleton)
                 ltac:(intros q Hq; by apply elem_of_nil in Hq)).
  eexists p, w1, w2, _.
  split; [exact Hc |]. split; [exact Hfresh |].
  split; [exact (nns_edge_data_get_count_eq w1 p ed0 Hp1 eq_refl) |].
  split; [exact Hadd |].
  split; [rewrite <- Hnum; exact (nns_edge_data_get_count_eq w2 p ed2 Hp2 (proj1 Hok2)) |].
  split; [exact Hd |]. split; [|done].
  cbn [heap foldl w2 w1]. rewrite insert_insert_eq, delete_insert_eq.
  by apply delete_id.
Qed.

End release.


(** X21 with the sample header, from the empty world, with two buffers
    of the caller. *)
Lemma data_life_witness :
  let bufs := [RawData (Some 5%positive) 2 (Some (cb_user 9));
               RawData (Some 7%positive) 3 (Some (cb_user 4))] in
  (Z.of_nat (@NNS_EDGE_DATA_LIMIT sample_header) < UINT_MODULUS
   ∧ granted empty_world = true
   ∧ (length bufs ≤ @NNS_EDGE_DATA_LIMIT sample_header)%nat
   ∧ Forall valid_buffer bufs ∧ freed_blocks bufs = [])
  ∧ ∃ p w1 w2 w3,
      @nns_edge_data_create sample_header true empty_world
      = Done (NNS_EDGE_ERROR_NONE, Some p) w1
      ∧ heap empty_world !! p = None
      ∧ @nns_edge_data_get_count sample_header (Some p) true w1
        = Done (NNS_EDGE_ERROR_NONE, Some 0) w1
      ∧ @add_all sample_header (Some p) bufs w1
        = Done (replicate (length bufs) NNS_EDGE_ERROR_NONE) w2
      ∧ @nns_edge_data_get_count sample_header (Some p) true w2
        = Done (NNS_EDGE_ERROR_NONE, Some (Z.of_nat (length bufs))) w2
      ∧ @nns_edge_data_destroy sample_header (Some p) w2 = Done NNS_EDGE_ERROR_NONE w3
      ∧ heap w3 = heap empty_world
      ∧ released w3 = released empty_world ++ user_calls bufs.
Proof.
  intros bufs.
  assert (Z.of_nat (@NNS_EDGE_DATA_LIMIT sample_header) < UINT_MODULUS) as Hlim
    by reflexivity.
  assert (length bufs ≤ @NNS_EDGE_DATA_LIMIT sample_header)%nat as Hlen
    by (by vm_compute; lia).
  assert (Forall valid_buffer bufs) as Hv.
  { repeat constructor; unfold valid_buffer; simpl; eauto. }
  split; [split; [exact Hlim | split; [reflexivity | split; [exact Hlen |]]]; by split |].
  exact (@data_life sample_header bufs empty_world Hlim eq_refl Hlen Hv eq_refl).
Defined.

(** ** A copy owns what it allocated *)

Section copy_release.
Context `{header : edge_header}.




End copy_release.


(** * Host strings *)

(** ** Decimal numbers, written and read back *)

Lemma digit_byte_facts (d : Z) :
  0 ≤ d < 10 →
  digit_of (digit_byte d) = Some d
  ∧ isspace (digit_byte d) = false
  ∧ digit_byte d ≠ x2d ∧ digit_byte d ≠ x2b.
Proof.
  intros Hd.
  assert (d = 0 ∨ d = 1 ∨ d = 2 ∨ d = 3 ∨ d = 4 ∨ d = 5 ∨ d = 6 ∨ d = 7 ∨ d = 8 ∨ d = 9)
    as Hcases by lia.
  repeat (destruct Hcases as [-> | Hcases]); try subst d;
    (split; [reflexivity |]; split; [reflexivity |]; split; discriminate).
Qed.

Lemma digits_value_decimal_digits (fuel : nat) (n : Z) (acc : list byte) :
  0 ≤ n < 2 ^ Z.of_nat fuel →
  digits_value (decimal_digits fuel n acc) 0 = digits_value acc n.
Proof.
  revert n acc. induction fuel as [|fuel IH]; intros n acc Hn.
  - cbn [decimal_digits]. change (2 ^ Z.of_nat 0) with 1 in Hn. by replace n with 0 by lia.
  - cbn [decimal_digits].
    assert (0 ≤ n mod 10 < 10) as Hd by (apply Z.mod_pos_bound; lia).
    destruct (digit_byte_facts _ Hd) as (Hdig & _).
    rewrite Nat2Z.inj_succ, Z.pow_succ_r in Hn by lia.
    destruct (Z.eqb_spec (n / 10) 0) as [Hz|Hnz].
    + cbn [digits_value]. rewrite Hdig. f_equal.
      pose proof (Z.div_mod n 10 ltac:(lia)). lia.
    + rewrite IH.
      * cbn [digits_value]. rewrite Hdig. f_equal.
        pose proof (Z.div_mod n 10 ltac:(lia)). lia.
      * split; [apply Z.div_pos; lia |].
        apply Z.div_lt_upper_bound; lia.
Qed.

Lemma decimal_digits_head (fuel : nat) (n : Z) (acc : list byte) :
  0 ≤ n →
  ∃ d t, 0 ≤ d < 10 ∧ decimal_digits (S fuel) n acc = digit_byte d :: t.
Proof.
  revert n acc. induction fuel as [|fuel IH]; intros n acc Hn.
  - exists (n mod 10). cbn [decimal_digits].
    destruct (n / 10 =? 0); eexists; (split; [apply Z.mod_pos_bound; lia | done]).
  - cbn [decimal_digits]. destruct (Z.eqb_spec (n / 10) 0) as [Hz|Hnz].
    + exists (n mod 10). eexists. split; [apply Z.mod_pos_bound; lia | done].
    + apply (IH (n / 10)). apply Z.div_pos; lia.
Qed.

Lemma log2_fuel (n : Z) : 0 ≤ n → 0 ≤ n < 2 ^ Z.of_nat (S (Z.to_nat (Z.log2 n))).
Proof.
  intros Hn. split; [done |].
  rewrite Nat2Z.inj_succ, Z2Nat.id by apply Z.log2_nonneg.
  destruct (decide (n = 0)) as [->|Hpos]; [done |].
  apply Z.log2_spec. lia.
Qed.

(** What [%d] writes, [strtoll] reads back. *)
Lemma strtoll_decimal (n : Z) :
  LLONG_MIN ≤ n ≤ LLONG_MAX → strtoll (decimal n) = n.
Proof.
  intros Hn. unfold decimal. destruct (Z.ltb_spec n 0) as [Hneg|Hpos].
  - unfold strtoll. cbn [skip_space].
    change (isspace x2d) with false. cbv iota.
    rewrite decide_True by done.
    rewrite digits_value_decimal_digits by (apply log2_fuel; lia).
    cbn [digits_value]. lia.
  - destruct (decimal_digits_head (Z.to_nat (Z.log2 n)) n [] Hpos) as (d & t & Hd & Heq).
    destruct (digit_byte_facts d Hd) as (_ & Hsp & Hminus & Hplus).
    pose proof (digits_value_decimal_digits _ n [] (log2_fuel n Hpos)) as Hval.
    rewrite Heq in *. unfold strtoll. cbn [skip_space]. rewrite Hsp.
    rewrite decide_False by done. rewrite decide_False by done.
    rewrite Hval. cbn [digits_value]. lia.
Qed.

Lemma int_of_longlong_id (n : Z) : - 2 ^ 31 ≤ n < 2 ^ 31 → int_of_longlong n = n.
Proof. intros Hn. unfold int_of_longlong. rewrite Z.mod_small; lia. Qed.

(** ** Splitting at the first colon *)

Lemma strchr_app (h t : list byte) (c : byte) :
  c ∉ h → NUL ∉ h → strchr (h ++ c :: t) c = Some (length h).
Proof.
  induction h as [|x h IH]; intros Hc Hn.
  - cbn [app strchr]. by rewrite decide_True.
  - apply not_elem_of_cons in Hc as [Hc1 Hc2].
    apply not_elem_of_cons in Hn as [Hn1 Hn2].
    cbn [app strchr]. rewrite decide_False by done. rewrite decide_False by done.
    by rewrite IH.
Qed.

Lemma strchr_None (s : list byte) (c : byte) :
  c ≠ NUL → c ∉ c_str s → strchr s c = None.
Proof.
  intros Hnul. induction s as [|x s IH]; intros Hc; [done |].
  cbn [strchr]. destruct (decide (x = NUL)) as [->|Hx].
  - destruct (decide (NUL = c)) as [<-|]; [done |].
    by destruct (decide (NUL = NUL)).
  - rewrite c_str_cons in Hc by done.
    apply not_elem_of_cons in Hc as [Hc1 Hc2].
    rewrite decide_False by done. by rewrite IH.
Qed.

Lemma c_str_app_no_NUL (h t : list byte) : NUL ∉ h → c_str (h ++ t) = h ++ c_str t.
Proof.
  induction h as [|x h IH]; intros Hn; [done |].
  apply not_elem_of_cons in Hn as [Hn1 Hn2].
  cbn [app]. rewrite c_str_cons by done. by rewrite IH.
Qed.

(** The first colon of a string that has one. *)
Lemma c_str_split (s : list byte) (c : byte) :
  c ∈ c_str s → ∃ h t, s = h ++ c :: t ∧ (c ∉ h) ∧ (NUL ∉ h)
                       ∧ (length h < length (c_str s))%nat.
Proof.
  induction s as [|x s IH]; intros Hc.
  - rewrite c_str_nil in Hc. by apply elem_of_nil in Hc.
  - destruct (decide (x = NUL)) as [->|Hx].
    { rewrite c_str_cons_NUL in Hc. by apply elem_of_nil in Hc. }
    rewrite c_str_cons in * by done.
    destruct (decide (x = c)) as [->|Hxc].
    + exists [], s. split; [done |].
      split; [apply not_elem_of_nil |]. split; [apply not_elem_of_nil |].
      cbn [length]. lia.
    + apply elem_of_cons in Hc as [->|Hc]; [done |].
      destruct (IH Hc) as (h & t & -> & Hh & Hn & Hlen).
      exists (x :: h), t. split; [done |].
      split; [by apply not_elem_of_cons |]. split; [by apply not_elem_of_cons |].
      cbn [length]. lia.
Qed.

Lemma nns_edge_strndup_eq (s : list byte) (len : nat) (w : world) :
  nns_edge_strndup (Some s) len w
  = Done (if granted w then Some (take len (c_str s)) else None) (after_alloc w).
Proof.
  unfold nns_edge_strndup. rewrite (bind_Done _ _ _ _ _ (malloc_value_eq w)).
  by destruct (granted w).
Qed.

Lemma nns_edge_get_host_string_eq (host : list byte) (port : Z) (w : world) :
  nns_edge_get_host_string (Some host) port w
  = Done (if granted w then Some (c_str host ++ x3a :: decimal port) else None)
         (after_alloc w).
Proof.
  unfold nns_edge_get_host_string, nns_edge_strdup_printf.
  change (deref (Some ?f)) with (ret f). rewrite bind_ret.
  change (format_output (bytes "%s:%d") [arg_s (Some host); arg_d port])
    with (Some (c_str host ++ x3a :: decimal port ++ [])).
  change (deref (Some ?f)) with (ret f). rewrite bind_ret.
  rewrite (bind_Done _ _ _ _ _ (malloc_value_eq w)). rewrite app_nil_r.
  by destruct (granted w).
Qed.

Lemma nns_edge_parse_host_string_colon (h t : list byte) (w : world) :
  x3a ∉ h → NUL ∉ h →
  nns_edge_parse_host_string (Some (h ++ x3a :: t)) true true w
  = Done (Some (if granted w then Some h else None, int_of_longlong (strtoll t)))
         (after_alloc w).
Proof.
  intros Hc Hn. unfold nns_edge_parse_host_string.
  change (deref (Some ?f)) with (ret f). rewrite bind_ret.
  rewrite strchr_app by done. cbn [negb].
  rewrite (bind_Done _ _ _ _ _ (nns_edge_strndup_eq _ _ w)). cbn [negb].
  rewrite c_str_app_no_NUL by done. rewrite take_app_length.
  replace (length h + 1)%nat with (length (h ++ [x3a]))
    by (rewrite length_app; cbn [length]; lia).
  replace (h ++ x3a :: t) with ((h ++ [x3a]) ++ t) by (by rewrite <- app_assoc).
  by rewrite drop_app_length.
Qed.

(** X23. A host and a port put together by [nns_edge_get_host_string] are
    taken apart again by [nns_edge_parse_host_string], with an allocator
    that grants, exactly when the host has no colon: then the string is the
    host, a colon and the port in decimal, and parsing it stores a copy of
    the host and the port, for every port in the range of int, negative
    ones included. When the host has a colon (an IPv6 address, say) the
    string is cut at the first colon of the host, and what is stored as the
    host is a strict prefix of it. *)
Theorem host_string_round_trip (host : list byte) (port : Z) (w : world) :
  never_fails w → - 2 ^ 31 ≤ port < 2 ^ 31 →
  ∃ str,
    nns_edge_get_host_string (Some host) port w = Done (Some str) w
    ∧ str = c_str host ++ x3a :: decimal port
    ∧ (x3a ∉ c_str host →
       nns_edge_parse_host_string (Some str) true true w
       = Done (Some (Some (c_str host), port)) w)
    ∧ (x3a ∈ c_str host →
       ∃ h p, nns_edge_parse_host_string (Some str) true true w
              = Done (Some (Some h, p)) w
              ∧ (length h < length (c_str host))%nat
              ∧ h = take (length h) (c_str host)).
Proof.
  intros Hw Hport. exists (c_str host ++ x3a :: decimal port).
  rewrite nns_edge_get_host_string_eq. never_fails_facts.
  match goal with Hg : granted w = true |- _ => rewrite Hg end.
  split; [done |]. split; [done |]. split.
  - intros Hc.
    rewrite nns_edge_parse_host_string_colon by (done || apply c_str_no_NUL).
    never_fails_facts.
    match goal with Hg : granted w = true |- _ => rewrite Hg end.
    rewrite strtoll_decimal by (unfold LLONG_MIN, LLONG_MAX; lia).
    by rewrite int_of_longlong_id.
  - intros Hc.
    pose proof (c_str_no_NUL host) as Hnul.
    destruct (c_str_split (c_str host) x3a ltac:(by rewrite c_str_idemp))
      as (h & t & Heq & Hh & Hn & Hlen).
    rewrite c_str_idemp in Hlen.
    exists h, (int_of_longlong (strtoll (t ++ x3a :: decimal port))).
    rewrite Heq at 1. rewrite <- app_assoc. cbn [app].
    rewrite nns_edge_parse_host_string_colon by done.
    never_fails_facts.
    match goal with Hg : granted w = true |- _ => rewrite Hg end.
    split; [done |]. split; [done |].
    rewrite Heq. by rewrite take_app_length.
Qed.

(** X23 for the host "localhost" and the port 5001. *)
Lemma host_string_round_trip_witness :
  (never_fails empty_world ∧ - 2 ^ 31 ≤ 5001 < 2 ^ 31)
  ∧ ∃ str,
      nns_edge_get_host_string (Some (bytes "localhost")) 5001 empty_world
      = Done (Some str) empty_world
      ∧ str = c_str (bytes "localhost") ++ x3a :: decimal 5001
      ∧ (x3a ∉ c_str (bytes "localhost") →
         nns_edge_parse_host_string (Some str) true true empty_world
         = Done (Some (Some (c_str (bytes "localhost")), 5001)) empty_world)
      ∧ (x3a ∈ c_str (bytes "localhost") →
         ∃ h p, nns_edge_parse_host_string (Some str) true true empty_world
                = Done (Some (Some h, p)) empty_world
                ∧ (length h < length (c_str (bytes "localhost")))%nat
                ∧ h = take (length h) (c_str (bytes "localhost"))).
Proof.
  split; [split; [reflexivity | split; [discriminate | reflexivity]] |].
  apply (host_string_round_trip (bytes "localhost") 5001 empty_world);
    [reflexivity | split; [discriminate | reflexivity]].
Defined.

(** X24. [nns_edge_parse_host_string] on any string. Without a colon
    before its terminator nothing is stored through the out pointers and
    nothing is allocated. With one, the string is cut at the first colon:
    what is stored as the host is a copy of what stands before it (NULL when
    the allocator refuses, and the port is stored all the same), and the
    port is what [strtoll] reads after it, reduced to an int: 0 when no
    number stands there. *)
Theorem nns_edge_parse_host_string_splits (w : world) :
  (∀ s host port, x3a ∉ c_str s →
     nns_edge_parse_host_string (Some s) host port w = Done None w)
  ∧ (∀ h t, x3a ∉ h → NUL ∉ h →
       nns_edge_parse_host_string (Some (h ++ x3a :: t)) true true w
       = Done (Some (if granted w then Some h else None, int_of_longlong (strtoll t)))
              (after_alloc w))
  ∧ (∀ h t c, x3a ∉ h → NUL ∉ h →
       digit_of c = None → isspace c = false → c ≠ x2d → c ≠ x2b →
       nns_edge_parse_host_string (Some (h ++ x3a :: c :: t)) true true w
       = Done (Some (if granted w then Some h else None, 0)) (after_alloc w)).
Proof.
  split; [|split].
  - intros s host port Hc. unfold nns_edge_parse_host_string.
    change (deref (Some ?f)) with (ret f). rewrite bind_ret.
    by rewrite strchr_None by done.
  - intros h t. apply nns_edge_parse_host_string_colon.
  - intros h t c Hc Hn Hdig Hsp Hm Hp.
    rewrite nns_edge_parse_host_string_colon by done.
    unfold strtoll. cbn [skip_space]. rewrite Hsp.
    rewrite decide_False by done. rewrite decide_False by done.
    cbn [digits_value]. rewrite Hdig. done.
Qed.

(** * Duplicating memory *)

Lemma malloc_eq (init : cell) (w : world) :
  malloc init w
  = if granted w
    then Done (Some (fresh (dom (heap w))))
              (World (<[fresh (dom (heap w)) := init]> (heap w)) (oracle (after_alloc w))
                     (released w))
    else Done None (after_alloc w).
Proof.
  unfold malloc, granted, after_alloc.
  destruct (next_answer (oracle w)) as [[] o]; done.
Qed.

(** X25. [nns_edge_memdup]. With a NULL pointer or a size of 0 it
    answers NULL and does not ask the allocator. Otherwise it asks once:
    refused, it answers NULL; granted, it answers a block that was not live
    before and that holds the first [size] bytes of the source, while the
    source and every other block stay as they were. When the source is
    shorter than [size] the copy reads outside of it: the call has no
    defined behaviour. *)
Theorem nns_edge_memdup_contract (w : world) :
  (∀ data size, data = None ∨ size = 0%N → nns_edge_memdup data size w = Done None w)
  ∧ (∀ q size, size ≠ 0%N → granted w = false →
       nns_edge_memdup (Some q) size w = Done None (after_alloc w))
  ∧ (∀ q size content, size ≠ 0%N → granted w = true →
       heap w !! q = Some (Bytes content) →
       (N.to_nat size ≤ length content)%nat →
       let d := fresh (dom (heap w)) in
       heap w !! d = None
       ∧ nns_edge_memdup (Some q) size w
         = Done (Some d)
                (World (<[d := Bytes (take (N.to_nat size) content)]> (heap w))
                       (oracle (after_alloc w)) (released w)))
  ∧ (∀ q size content, granted w = true →
       heap w !! q = Some (Bytes content) →
       (length content < N.to_nat size)%nat →
       nns_edge_memdup (Some q) size w = Undefined).
Proof.
  split; [|split; [|split]].
  - intros data size [-> | ->]; [done |]. destruct data; done.
  - intros q size Hs Hg. unfold nns_edge_memdup.
    destruct (N.ltb_spec 0 size); [|lia].
    pose proof (malloc_eq (Bytes []) w) as Hm. rewrite Hg in Hm.
    by rewrite (bind_Done _ _ _ _ _ Hm).
  - intros q size content Hs Hg Hq Hl d.
    split; [apply fresh_not_live |].
    unfold nns_edge_memdup.
    destruct (N.ltb_spec 0 size); [|lia].
    pose proof (malloc_eq (Bytes []) w) as Hm. rewrite Hg in Hm. fold d in Hm.
    rewrite (bind_Done _ _ _ _ _ Hm).
    assert (q ≠ d) as Hne.
    { intros ->. pose proof (fresh_not_live w) as Hf. fold d in Hf. congruence. }
    set (w1 := World _ _ _).
    assert (heap w1 !! q = Some (Bytes content)) as Hq1
      by (cbn [heap w1]; by rewrite lookup_insert_ne).
    assert (heap w1 !! d = Some (Bytes [])) as Hd1 by apply lookup_insert_eq.
    rewrite (bind_Done _ _ _ _ _ (load_bytes_eq _ _ _ Hq1)).
    destruct (Nat.leb_spec (N.to_nat size) (length content)); [|lia].
    rewrite (bind_Done _ _ _ _ _ (store_eq _ _ _ _ Hd1)).
    cbn [heap oracle released w1]. by rewrite insert_insert_eq.
  - intros q size content Hg Hq Hl. unfold nns_edge_memdup.
    destruct (N.ltb_spec 0 size); [|lia].
    pose proof (malloc_eq (Bytes []) w) as Hm. rewrite Hg in Hm.
    rewrite (bind_Done _ _ _ _ _ Hm).
    set (d := fresh (dom (heap w))) in *.
    assert (q ≠ d) as Hne.
    { intros ->. pose proof (fresh_not_live w) as Hf. fold d in Hf. congruence. }
    set (w1 := World _ _ _).
    assert (heap w1 !! q = Some (Bytes content)) as Hq1
      by (cbn [heap w1]; by rewrite lookup_insert_ne).
    rewrite (bind_Done _ _ _ _ _ (load_bytes_eq _ _ _ Hq1)).
    destruct (Nat.leb_spec (N.to_nat size) (length content)); [lia | done].
Qed.
